(** * Avatario / VideoSDK plugin: media track engine

    A shallow embedding of the Python sources
    ([avatario_plugin.py], [api.py], [meeting_utils.py]) and the proofs of
    the properties of the bounded frame queues, the audio pacer, the
    speech chunker, the connection retry logic and the shutdown path. *)

From Stdlib Require Import ZArith QArith Lia.
From stdpp Require Import base list strings gmap.

Local Open Scope string_scope.
Local Open Scope list_scope.
Local Open Scope nat_scope.

(** ** A small model of the Python runtime *)

Module Py.

(** Raw byte strings ([bytes], [bytearray]). *)
Definition bytes := list Byte.byte.

(** [len(data)]: Python integers are unbounded, hence [Z]. *)
Definition len {A} (data : list A) : Z := Z.of_nat (length data).

(** [data[:n]], [data[n:]] and [data[i:j]] for non-negative bounds;
    slicing beyond the end is not an error, it just stops there. *)
Definition slice_to {A} (n : Z) (data : list A) : list A :=
  take (Z.to_nat n) data.
Definition slice_from {A} (n : Z) (data : list A) : list A :=
  drop (Z.to_nat n) data.
Definition slice {A} (i j : Z) (data : list A) : list A :=
  take (Z.to_nat (j - i)) (drop (Z.to_nat i) data).

(** [bytes(n)]: [n] zero bytes. *)
Definition zeros (n : Z) : bytes := replicate (Z.to_nat n) Byte.x00.

(** The exceptions the modelled code raises or catches.  All of them
    derive from [Exception]. *)
Inductive exn : Type :=
| MediaStreamError
| QueueEmpty
| QueueFull
| ValueError (msg : string)
| TypeError (msg : string)
| AttributeError (attr : string)
| JSONDecodeError
| HTTPError (status : Z)
| RecursionError
| TimeoutError
| Exception (msg : string).

(** Outcome of a call: a value, a raised exception, or a coroutine that
    is suspended at an [await] which nothing in the modelled run
    completes. *)
Inductive result (A : Type) : Type :=
| Return (a : A)
| Raise (e : exn)
| Blocked.
Arguments Return {A} a.
Arguments Raise {A} e.
Arguments Blocked {A}.

(** Observable effects, in program order. *)
Inductive event : Type :=
| Sleep (seconds : Q)          (* await asyncio.sleep(seconds) *)
| Stdout (msg : string)        (* print(...) *)
| Traceback (e : exn)          (* traceback.print_exc() *)
| CancelTask                   (* task.cancel() *)
| CreateTask (name : string)   (* loop.create_task(...) *)
| Call (name : string)         (* a call into an external collaborator *)
| WaitFor (timeout : Z)        (* await asyncio.wait_for(..., timeout) *)
| Send (chunk : bytes).        (* meeting.send(chunk, unreliable) *)

(** Computations over a mutable object of type [S]: the object after the
    call, the outcome and the effects performed.  A raised exception
    keeps the mutations done before it. *)
Definition M (S A : Type) : Type := S -> result A * S * list event.

Definition ret {S A} (a : A) : M S A := fun s => (Return a, s, []).
Definition raise {S A} (e : exn) : M S A := fun s => (Raise e, s, []).
Definition bind {S A B} (m : M S A) (k : A -> M S B) : M S B :=
  fun s =>
    match m s with
    | (Return a, s1, tr1) =>
        match k a s1 with
        | (r, s2, tr2) => (r, s2, tr1 ++ tr2)
        end
    | (Raise e, s1, tr1) => (Raise e, s1, tr1)
    | (Blocked, s1, tr1) => (Blocked, s1, tr1)
    end.

(** [try: m except Exception as e: h e]. *)
Definition try_except {S A} (m : M S A) (h : exn -> M S A) : M S A :=
  fun s =>
    match m s with
    | (Return a, s1, tr1) => (Return a, s1, tr1)
    | (Raise e, s1, tr1) =>
        match h e s1 with
        | (r, s2, tr2) => (r, s2, tr1 ++ tr2)
        end
    | (Blocked, s1, tr1) => (Blocked, s1, tr1)
    end.

(** [for x in xs: body x]. *)
Fixpoint for_each {S A} (xs : list A) (body : A -> M S unit) : M S unit :=
  match xs with
  | [] => ret tt
  | x :: rest => bind (body x) (fun _ => for_each rest body)
  end.

(** [range(start, stop, step)] for a positive [step]. *)
Definition range (start stop step : Z) : list Z :=
  map (fun k => (start + step * Z.of_nat k)%Z)
      (seq 0 (Z.to_nat ((stop - start + step - 1) / step))).

Definition get {S} : M S S := fun s => (Return s, s, []).
Definition modify {S} (f : S -> S) : M S unit := fun s => (Return tt, f s, []).
Definition emit {S} (e : event) : M S unit := fun s => (Return tt, s, [e]).

(** Run a computation on a component of the object. *)
Definition zoom {S T A} (proj : S -> T) (upd : T -> S -> S) (m : M T A) : M S A :=
  fun s =>
    match m (proj s) with
    | (r, t1, tr) => (r, upd t1 s, tr)
    end.

Definition outcome {S A} (x : result A * S * list event) : result A := x.1.1.
Definition final {S A} (x : result A * S * list event) : S := x.1.2.
Definition effects {S A} (x : result A * S * list event) : list event := x.2.

Module Notations.
Notation "'let!' x ':=' c 'in' k" := (bind c (fun x => k))
  (at level 10, x name, c at level 100, k at level 200, only parsing).
Notation "'do!' c 'in' k" := (bind c (fun _ => k))
  (at level 10, c at level 100, k at level 200, only parsing).
End Notations.

(** *** [asyncio.Queue] *)

(** [maxsize <= 0] means unbounded; [_queue] is the underlying deque,
    oldest element first. *)
Record Queue (A : Type) : Type := mkQueue {
  maxsize : Z;
  _queue : list A;
}.
Arguments mkQueue {A} maxsize _queue.
Arguments maxsize {A} q.
Arguments _queue {A} q.

Definition new_queue {A} (maxsize : Z) : Queue A := mkQueue maxsize [].

Definition qsize {A} (q : Queue A) : nat := length (_queue q).

Definition empty {A} (q : Queue A) : bool :=
  match _queue q with [] => true | _ => false end.

Definition full {A} (q : Queue A) : bool :=
  if (maxsize q <=? 0)%Z then false
  else (maxsize q <=? Z.of_nat (qsize q))%Z.

Definition get_nowait {A} : M (Queue A) A :=
  fun q =>
    match _queue q with
    | [] => (Raise QueueEmpty, q, [])
    | x :: rest => (Return x, mkQueue (maxsize q) rest, [])
    end.

Definition put_nowait {A} (item : A) : M (Queue A) unit :=
  fun q =>
    if full q then (Raise QueueFull, q, [])
    else (Return tt, mkQueue (maxsize q) (_queue q ++ [item]), []).

(** [await queue.get()] and [await queue.put(item)]: they suspend the
    caller while the queue is empty, respectively full. *)
Definition queue_get {A} : M (Queue A) A :=
  fun q =>
    match _queue q with
    | [] => (Blocked, q, [])
    | x :: rest => (Return x, mkQueue (maxsize q) rest, [])
    end.

Definition queue_put {A} (item : A) : M (Queue A) unit :=
  fun q =>
    if full q then (Blocked, q, [])
    else (Return tt, mkQueue (maxsize q) (_queue q ++ [item]), []).

End Py.

Import Py Py.Notations.

(** ** Frames of the [av] library, as far as the plugin touches them *)

Module Av.

(** [fractions.Fraction]. *)
Record Fraction : Type := mkFraction { numerator : Z; denominator : Z }.

(** A packed signed-16-bit audio frame: one plane holding
    [samples * channels * 2] bytes.  A frame that was never stamped has
    [pts = None] and no time base. *)
Record AudioFrame : Type := mkAudioFrame {
  format : string;
  layout : string;
  samples : Z;
  pts : option Z;
  time_base : option Fraction;
  sample_rate : Z;
  plane : bytes;
}.

Definition set_pts (v : option Z) (f : AudioFrame) : AudioFrame :=
  mkAudioFrame (format f) (layout f) (samples f) v (time_base f)
               (sample_rate f) (plane f).
Definition set_time_base (v : option Fraction) (f : AudioFrame) : AudioFrame :=
  mkAudioFrame (format f) (layout f) (samples f) (pts f) v
               (sample_rate f) (plane f).
Definition set_sample_rate (v : Z) (f : AudioFrame) : AudioFrame :=
  mkAudioFrame (format f) (layout f) (samples f) (pts f) (time_base f)
               v (plane f).

(** [AudioFrame(format="s16", layout=..., samples=n)]: a fresh frame whose
    single plane has [n * channels * 2] bytes. *)
Definition new_audio_frame (layout : string) (channels n : Z) : AudioFrame :=
  mkAudioFrame "s16" layout n None None 0 (zeros (n * channels * 2)).

(** A decoded video image; the plugin never looks inside it. *)
Record VideoFrame : Type := mkVideoFrame {
  vpts : option Z;
  vtime_base : option Fraction;
  image : bytes;
}.

End Av.

Import Av.

(** ** [avatario_plugin.py]: constants *)

Definition AUDIO_SAMPLE_RATE : Z := 48000.
Definition AUDIO_CHANNELS : Z := 1.
Definition AUDIO_SAMPLE_WIDTH : Z := 2.
(** [int(AUDIO_FRAME_DURATION_S * AUDIO_SAMPLE_RATE)], 20 ms at 48 kHz. *)
Definition AUDIO_SAMPLES_PER_FRAME : Z := 960.
Definition AUDIO_CHUNK_SIZE : Z :=
  AUDIO_SAMPLES_PER_FRAME * AUDIO_CHANNELS * AUDIO_SAMPLE_WIDTH.
Definition AUDIO_TIME_BASE_FRACTION : Fraction := mkFraction 1 AUDIO_SAMPLE_RATE.
Definition VIDEO_FRAME_RATE : Z := 25.
Definition VIDEO_TIME_BASE : Z := 90000.

(** How a loop was left. *)
Inductive loop_exit : Type :=
| CondFalse            (* the loop condition became false *)
| Broke (e : exn)      (* left through [break] in an [except] clause *)
| OutOfFuel.           (* the model ran out of fuel *)

(** ** [class AvatarioAudioTrack] *)

Module AvatarioAudioTrack.

(** The mutable attributes of a track.  [readyState] is inherited from
    the media-stream track base class: ["live"] until [stop()] is
    called, ["ended"] afterwards.  The attributes [sample_rate],
    [channels], [sample_width], [samples], [chunk_size] and
    [time_base_fraction] are assigned once in [__init__] from the module
    constants and never reassigned; the model reads the constants. *)
Record t : Type := mk {
  _timestamp : Z;
  queue : Queue AudioFrame;
  audio_data_buffer : bytes;
  frame_time : Z;
  _start_time : option Q;
  _shared_start_time : option Q;
  readyState : string;
}.

Definition sample_rate : Z := AUDIO_SAMPLE_RATE.
Definition channels : Z := AUDIO_CHANNELS.
Definition sample_width : Z := AUDIO_SAMPLE_WIDTH.
Definition time_base_fraction : Fraction := AUDIO_TIME_BASE_FRACTION.
Definition samples : Z := AUDIO_SAMPLES_PER_FRAME.
Definition chunk_size : Z := AUDIO_CHUNK_SIZE.

Definition set_timestamp (v : Z) (s : t) : t :=
  mk v (queue s) (audio_data_buffer s) (frame_time s) (_start_time s)
     (_shared_start_time s) (readyState s).
Definition set_queue (v : Queue AudioFrame) (s : t) : t :=
  mk (_timestamp s) v (audio_data_buffer s) (frame_time s) (_start_time s)
     (_shared_start_time s) (readyState s).
Definition set_audio_data_buffer (v : bytes) (s : t) : t :=
  mk (_timestamp s) (queue s) v (frame_time s) (_start_time s)
     (_shared_start_time s) (readyState s).
Definition set_frame_time (v : Z) (s : t) : t :=
  mk (_timestamp s) (queue s) (audio_data_buffer s) v (_start_time s)
     (_shared_start_time s) (readyState s).
Definition set_start_time (v : option Q) (s : t) : t :=
  mk (_timestamp s) (queue s) (audio_data_buffer s) (frame_time s) v
     (_shared_start_time s) (readyState s).
Definition set_shared_start_time (v : option Q) (s : t) : t :=
  mk (_timestamp s) (queue s) (audio_data_buffer s) (frame_time s)
     (_start_time s) v (readyState s).
Definition set_readyState (v : string) (s : t) : t :=
  mk (_timestamp s) (queue s) (audio_data_buffer s) (frame_time s)
     (_start_time s) (_shared_start_time s) v.

(** Queue operations on [self.queue]. *)
Definition on_queue {A} (m : M (Queue AudioFrame) A) : M t A :=
  zoom queue set_queue m.

Definition __init__ : t :=
  mk 0 (new_queue 10) [] 0 None None "live".

(** [stop()] of the base class ends the track. *)
Definition stop (self : t) : t := set_readyState "ended" self.

(** [interrupt]: drain the queue, clear the raw-byte buffer. *)
Fixpoint interrupt_loop (fuel : nat) : M t loop_exit :=
  match fuel with
  | O => ret OutOfFuel
  | S fuel' =>
      let! self := get in
      if negb (empty (queue self)) then
        let! r := try_except
                    (do! on_queue get_nowait in ret None)
                    (fun e => match e with
                              | QueueEmpty => ret (Some e)
                              | _ => raise e
                              end) in
        match r with
        | Some e => ret (Broke e)
        | None => interrupt_loop fuel'
        end
      else ret CondFalse
  end.

Definition interrupt : M t unit :=
  let! self := get in
  do! interrupt_loop (S (qsize (queue self))) in
  modify (set_audio_data_buffer []).

(** [buildAudioFrames]: pad an odd chunk, view it as int16 samples and
    wrap it in a frame.  The two warnings are printed, nothing else
    depends on them.  With one channel the reshape and the conversion
    accept every sample count. *)
Definition buildAudioFrames (chunk : bytes) : M t AudioFrame :=
  do! (if negb (len chunk =? chunk_size)%Z
       then emit (Stdout "Warning: Incorrect Avatario chunk size received")
       else ret tt) in
  let chunk := if negb (len chunk mod 2 =? 0)%Z
               then chunk ++ [Byte.x00] else chunk in
  let data_len := (len chunk / 2)%Z in
  let expected_samples := (samples * channels)%Z in
  do! (if negb (data_len =? expected_samples)%Z
       then emit (Stdout "Warning: Incorrect number of samples in Avatario chunk")
       else ret tt) in
  let layout := if (channels =? 1)%Z then "mono" else "stereo" in
  ret (mkAudioFrame "s16" layout (data_len / channels) None None 0 chunk).

(** The body of the [while] loop of [add_new_bytes]; [fuel] bounds the
    number of iterations. *)
Fixpoint add_new_bytes_loop (fuel : nat) : M t loop_exit :=
  match fuel with
  | O => ret OutOfFuel
  | S fuel' =>
      let! self := get in
      if (chunk_size <=? len (audio_data_buffer self))%Z then
        let chunk := slice_to chunk_size (audio_data_buffer self) in
        do! modify (set_audio_data_buffer
                      (slice_from chunk_size (audio_data_buffer self))) in
        let! r := try_except
                    (let! audio_frame := buildAudioFrames chunk in
                     let! self := get in
                     do! (if full (queue self)
                          then do! on_queue get_nowait in ret tt
                          else ret tt) in
                     do! on_queue (put_nowait audio_frame) in
                     ret None)
                    (fun e => ret (Some e)) in
        match r with
        | Some e => ret (Broke e)
        | None => add_new_bytes_loop fuel'
        end
      else ret CondFalse
  end.

Definition add_new_bytes (audio_data : bytes) : M t loop_exit :=
  do! modify (fun s => set_audio_data_buffer
                         (audio_data_buffer s ++ audio_data) s) in
  let! self := get in
  add_new_bytes_loop (S (length (audio_data_buffer self))).

Definition next_timestamp : M t (Z * Fraction) :=
  let! self := get in
  let pts := frame_time self in
  let time_base := time_base_fraction in
  do! modify (set_frame_time (frame_time self + samples)%Z) in
  ret (pts, time_base).

(** [_create_silence_frame]: a fresh frame whose plane is overwritten
    with [bytes(p.buffer_size)]. *)
Definition _create_silence_frame : AudioFrame :=
  let layout := if (channels =? 1)%Z then "mono" else "stereo" in
  let frame := new_audio_frame layout channels samples in
  let frame := mkAudioFrame (format frame) (Av.layout frame) (Av.samples frame)
                 (pts frame) (time_base frame) (Av.sample_rate frame)
                 (zeros (len (plane frame))) in
  set_sample_rate sample_rate frame.

(** The [try] block of [recv].  [t_first] and [t_now] are the readings
    of [time.time()], taken as rationals: [t_first] is read only when
    [_start_time] is unset, [t_now] is the reading used to compute the
    pacing delay. *)
Definition recv_try (t_first t_now : Q) : M t AudioFrame :=
  let! self := get in
  if negb (String.eqb (readyState self) "live") then raise MediaStreamError
  else
    do! (match _start_time self with
         | None =>
             modify (fun s => set_timestamp 0 (set_start_time (Some t_first) s))
         | Some _ =>
             modify (fun s => set_timestamp (_timestamp s + samples)%Z s)
         end) in
    let! self := get in
    match _start_time self with
    | None => raise (TypeError "unsupported operand type(s) for +")
    | Some start =>
        let wait := (start + inject_Z (_timestamp self) / inject_Z sample_rate
                     - t_now)%Q in
        do! (if negb (Qle_bool wait 0) then emit (Sleep wait) else ret tt) in
        let pts := _timestamp self in
        let time_base := time_base_fraction in
        let! frame := try_except (on_queue get_nowait)
                        (fun e => match e with
                                  | QueueEmpty => ret _create_silence_frame
                                  | _ => raise e
                                  end) in
        let frame := set_pts (Some pts) frame in
        let frame := set_time_base (Some time_base) frame in
        let frame := set_sample_rate sample_rate frame in
        ret frame
    end.

Definition recv (t_first t_now : Q) : M t AudioFrame :=
  try_except (recv_try t_first t_now)
    (fun e => do! emit (Traceback e) in ret _create_silence_frame).

Definition cleanup : M t unit :=
  do! interrupt in
  modify stop.

(** [add_frame]: [None] is ignored; a frame with another sample rate is
    relabelled; a full queue gives up its oldest frame first. *)
Definition add_frame (frame : option AudioFrame) : M t unit :=
  match frame with
  | None => ret tt
  | Some frame =>
      try_except
        (let! frame :=
           (if negb (Av.sample_rate frame =? sample_rate)%Z
            then do! emit (Stdout "frame has different sample rate then expected") in
                 ret (set_sample_rate sample_rate frame)
            else ret frame) in
         try_except
           (let! self := get in
            do! (if full (queue self)
                 then do! on_queue get_nowait in ret tt
                 else ret tt) in
            on_queue (put_nowait frame))
           (fun e => match e with
                     | QueueEmpty => ret tt
                     | QueueFull =>
                         emit (Stdout "Avatario: Audio frame queue is full. Frame dropped.")
                     | _ => raise e
                     end))
        (fun e => emit (Stdout "Error adding Avatario audio frame"))
  end.

End AvatarioAudioTrack.

(** ** [class AvatarioVideoTrack] *)

Module AvatarioVideoTrack.

Record t : Type := mk {
  queue : Queue VideoFrame;
  _timestamp : Z;
  _start_time : option Q;
  _frame_count : Z;
  _readyState : string;
  _shared_start_time : option Q;
}.

Definition set_queue (v : Queue VideoFrame) (s : t) : t :=
  mk v (_timestamp s) (_start_time s) (_frame_count s) (_readyState s)
     (_shared_start_time s).
Definition set_shared_start_time (v : option Q) (s : t) : t :=
  mk (queue s) (_timestamp s) (_start_time s) (_frame_count s)
     (_readyState s) v.

Definition on_queue {A} (m : M (Queue VideoFrame) A) : M t A :=
  zoom queue set_queue m.

Definition __init__ : t := mk (new_queue 2) 0 None 0 "live" None.

(** The [while not self.queue.empty()] loop of [add_frame]. *)
Fixpoint clear_loop (fuel : nat) : M t loop_exit :=
  match fuel with
  | O => ret OutOfFuel
  | S fuel' =>
      let! self := get in
      if negb (empty (queue self)) then
        let! r := try_except
                    (do! on_queue get_nowait in ret None)
                    (fun e => match e with
                              | QueueEmpty => ret (Some e)
                              | _ => raise e
                              end) in
        match r with
        | Some e => ret (Broke e)
        | None => clear_loop fuel'
        end
      else ret CondFalse
  end.

(** [add_frame]: empty the queue, then insert the new frame. *)
Definition add_frame (frame : VideoFrame) : M t unit :=
  let! self := get in
  do! clear_loop (S (qsize (queue self))) in
  try_except (on_queue (put_nowait frame))
    (fun e => match e with
              | QueueFull => ret tt
              | _ => raise e
              end).

(** [int(x)] of a float, taken as a rational: truncation towards zero. *)
Definition py_int (x : Q) : Z := Z.quot (Qnum x) (Z.pos (Qden x)).

(** The truth value of an optional float: [None] and [0.0] are false. *)
Definition truthy (x : option Q) : bool :=
  match x with
  | Some q => negb (Qnum q =? 0)%Z
  | None => false
  end.

Definition set_timestamp (v : Z) (s : t) : t :=
  mk (queue s) v (_start_time s) (_frame_count s) (_readyState s)
     (_shared_start_time s).
Definition set_start_time (v : option Q) (s : t) : t :=
  mk (queue s) (_timestamp s) v (_frame_count s) (_readyState s)
     (_shared_start_time s).
Definition set_frame_count (v : Z) (s : t) : t :=
  mk (queue s) (_timestamp s) (_start_time s) v (_readyState s)
     (_shared_start_time s).

(** [recv]: wait for a frame, fix the start time on the first one, stamp
    the frame with the elapsed time in 90 kHz units.  [t_first] is the
    reading of [time.time()] taken only when neither [_start_time] nor a
    usable [_shared_start_time] is there, [t_now] the reading of
    [current_time]. *)
Definition recv (t_first t_now : Q) : M t VideoFrame :=
  let! frame := on_queue queue_get in
  let! self := get in
  do! (match _start_time self with
       | None =>
           let start := if truthy (_shared_start_time self)
                        then _shared_start_time self else Some t_first in
           modify (fun s => set_timestamp 0 (set_start_time start s))
       | Some _ => ret tt
       end) in
  let! self := get in
  match _start_time self with
  | None => raise (TypeError "unsupported operand type(s) for -")
  | Some start =>
      let current_time := t_now in
      let elapsed := (current_time - start)%Q in
      do! modify (set_timestamp (py_int (elapsed * inject_Z VIDEO_TIME_BASE)%Q)) in
      let! self := get in
      let frame := mkVideoFrame (Some (_timestamp self))
                     (Some (mkFraction 1 VIDEO_TIME_BASE)) (image frame) in
      do! modify (fun s => set_frame_count (_frame_count s + 1)%Z s) in
      ret frame
  end.

End AvatarioVideoTrack.

(** ** [class AvatarioAvatar] *)

Module AvatarioAvatar.

(** [asyncio.Task]: [cancel()] on a task that is not done records a
    request; the task becomes done only when the event loop runs it
    again. *)
Record Task : Type := mkTask { done : bool; cancel_requests : nat }.

(** The [ipc_data] dictionary shared with the API client: a fixed set
    of four keys. *)
Record IpcData : Type := mkIpc {
  tts_audio : Queue bytes;
  output_audio : Queue AudioFrame;
  output_video : Queue VideoFrame;
  kill_signal : bool;             (* asyncio.Event *)
}.

Definition set_tts_audio (v : Queue bytes) (d : IpcData) : IpcData :=
  mkIpc v (output_audio d) (output_video d) (kill_signal d).
Definition set_output_audio (v : Queue AudioFrame) (d : IpcData) : IpcData :=
  mkIpc (tts_audio d) v (output_video d) (kill_signal d).
Definition set_output_video (v : Queue VideoFrame) (d : IpcData) : IpcData :=
  mkIpc (tts_audio d) (output_audio d) v (kill_signal d).
Definition set_kill_signal (v : bool) (d : IpcData) : IpcData :=
  mkIpc (tts_audio d) (output_audio d) (output_video d) v.

(** A Python value of no further interest. *)
Inductive pyobj : Type := PyNone | PyObject (id : nat).

(** The attributes assigned in [__init__] are the record fields;
    [__dict__] holds whatever other attribute somebody assigned on the
    instance from outside.  The class defines no class attributes and
    has no base class, so reading an attribute that is in neither
    place raises [AttributeError]. *)
Record t : Type := mk {
  _stream_start_time : option Q;
  audio_track : option AvatarioAudioTrack.t;
  run : bool;
  _is_speaking : bool;
  _speech_timeout_task : option Task;
  ready : bool;                   (* asyncio.Event *)
  _retry_count : Z;
  _last_error : option exn;
  _stopping : bool;
  _last_audio_time : Q;
  ipc_data : IpcData;
  video_streaming_task : bool;    (* has the task been created? *)
  audio_streaming_task : bool;
  video_track : AvatarioVideoTrack.t;
  __dict__ : gmap string pyobj;
}.

Definition set_stream_start_time (v : option Q) (s : t) : t :=
  mk v (audio_track s) (run s) (_is_speaking s) (_speech_timeout_task s)
     (ready s) (_retry_count s) (_last_error s) (_stopping s)
     (_last_audio_time s) (ipc_data s) (video_streaming_task s)
     (audio_streaming_task s) (video_track s) (__dict__ s).
Definition set_audio_track (v : option AvatarioAudioTrack.t) (s : t) : t :=
  mk (_stream_start_time s) v (run s) (_is_speaking s) (_speech_timeout_task s)
     (ready s) (_retry_count s) (_last_error s) (_stopping s)
     (_last_audio_time s) (ipc_data s) (video_streaming_task s)
     (audio_streaming_task s) (video_track s) (__dict__ s).
Definition set_run (v : bool) (s : t) : t :=
  mk (_stream_start_time s) (audio_track s) v (_is_speaking s)
     (_speech_timeout_task s) (ready s) (_retry_count s) (_last_error s)
     (_stopping s) (_last_audio_time s) (ipc_data s) (video_streaming_task s)
     (audio_streaming_task s) (video_track s) (__dict__ s).
Definition set_is_speaking (v : bool) (s : t) : t :=
  mk (_stream_start_time s) (audio_track s) (run s) v
     (_speech_timeout_task s) (ready s) (_retry_count s) (_last_error s)
     (_stopping s) (_last_audio_time s) (ipc_data s) (video_streaming_task s)
     (audio_streaming_task s) (video_track s) (__dict__ s).
Definition set_speech_timeout_task (v : option Task) (s : t) : t :=
  mk (_stream_start_time s) (audio_track s) (run s) (_is_speaking s) v
     (ready s) (_retry_count s) (_last_error s) (_stopping s)
     (_last_audio_time s) (ipc_data s) (video_streaming_task s)
     (audio_streaming_task s) (video_track s) (__dict__ s).
Definition set_ready (v : bool) (s : t) : t :=
  mk (_stream_start_time s) (audio_track s) (run s) (_is_speaking s)
     (_speech_timeout_task s) v (_retry_count s) (_last_error s)
     (_stopping s) (_last_audio_time s) (ipc_data s) (video_streaming_task s)
     (audio_streaming_task s) (video_track s) (__dict__ s).
Definition set_retry_count (v : Z) (s : t) : t :=
  mk (_stream_start_time s) (audio_track s) (run s) (_is_speaking s)
     (_speech_timeout_task s) (ready s) v (_last_error s) (_stopping s)
     (_last_audio_time s) (ipc_data s) (video_streaming_task s)
     (audio_streaming_task s) (video_track s) (__dict__ s).
Definition set_last_error (v : option exn) (s : t) : t :=
  mk (_stream_start_time s) (audio_track s) (run s) (_is_speaking s)
     (_speech_timeout_task s) (ready s) (_retry_count s) v (_stopping s)
     (_last_audio_time s) (ipc_data s) (video_streaming_task s)
     (audio_streaming_task s) (video_track s) (__dict__ s).
Definition set_stopping (v : bool) (s : t) : t :=
  mk (_stream_start_time s) (audio_track s) (run s) (_is_speaking s)
     (_speech_timeout_task s) (ready s) (_retry_count s) (_last_error s) v
     (_last_audio_time s) (ipc_data s) (video_streaming_task s)
     (audio_streaming_task s) (video_track s) (__dict__ s).
Definition set_last_audio_time (v : Q) (s : t) : t :=
  mk (_stream_start_time s) (audio_track s) (run s) (_is_speaking s)
     (_speech_timeout_task s) (ready s) (_retry_count s) (_last_error s)
     (_stopping s) v (ipc_data s) (video_streaming_task s)
     (audio_streaming_task s) (video_track s) (__dict__ s).
Definition set_ipc_data (v : IpcData) (s : t) : t :=
  mk (_stream_start_time s) (audio_track s) (run s) (_is_speaking s)
     (_speech_timeout_task s) (ready s) (_retry_count s) (_last_error s)
     (_stopping s) (_last_audio_time s) v (video_streaming_task s)
     (audio_streaming_task s) (video_track s) (__dict__ s).
Definition set_video_streaming_task (v : bool) (s : t) : t :=
  mk (_stream_start_time s) (audio_track s) (run s) (_is_speaking s)
     (_speech_timeout_task s) (ready s) (_retry_count s) (_last_error s)
     (_stopping s) (_last_audio_time s) (ipc_data s) v
     (audio_streaming_task s) (video_track s) (__dict__ s).
Definition set_audio_streaming_task (v : bool) (s : t) : t :=
  mk (_stream_start_time s) (audio_track s) (run s) (_is_speaking s)
     (_speech_timeout_task s) (ready s) (_retry_count s) (_last_error s)
     (_stopping s) (_last_audio_time s) (ipc_data s) (video_streaming_task s)
     v (video_track s) (__dict__ s).
Definition set_video_track (v : AvatarioVideoTrack.t) (s : t) : t :=
  mk (_stream_start_time s) (audio_track s) (run s) (_is_speaking s)
     (_speech_timeout_task s) (ready s) (_retry_count s) (_last_error s)
     (_stopping s) (_last_audio_time s) (ipc_data s) (video_streaming_task s)
     (audio_streaming_task s) v (__dict__ s).

(** [self.<name>] for a name that [__init__] does not assign. *)
Definition getattr (name : string) : M t pyobj :=
  let! self := get in
  match __dict__ self !! name with
  | Some v => ret v
  | None => raise (AttributeError name)
  end.

Definition __init__ : t :=
  mk None None true false None false 3 None false 0%Q
     (mkIpc (new_queue 0) (new_queue 0) (new_queue 0) false)
     false false AvatarioVideoTrack.__init__ ∅.

(** The event loop handed to [_initialize_connection]. *)
Inductive EventLoop : Type := the_loop.

(** [_initialize_connection(self, loop)].  [loop] is [None] when the call
    site passes no argument for it: binding the parameters then fails
    with [TypeError] before the body runs.  [backend n] is the outcome
    of the [n]-th coming call of [create_conversation]; [fuel] bounds the
    recursion depth. *)
Fixpoint _initialize_connection (fuel : nat) (backend : nat -> result unit)
    (loop : option EventLoop) : M t unit :=
  match fuel with
  | O => raise RecursionError
  | S fuel' =>
      match loop with
      | None =>
          raise (TypeError "_initialize_connection() missing 1 required positional argument: 'loop'")
      | Some loop =>
          let! self := get in
          if (_retry_count self =? 0)%Z then
            raise (Exception "Failed to connect to Avatario servers.")
          else
            try_except
              (do! emit (Call "create_conversation") in
               do! (fun s => (backend O, s, [])) in
               do! modify (set_ready true) in
               do! emit (CreateTask "_process_video_frames") in
               do! modify (set_video_streaming_task true) in
               do! emit (CreateTask "_process_audio_frames") in
               modify (set_audio_streaming_task true))
              (fun e =>
                 do! modify (set_last_error (Some e)) in
                 do! modify (fun s => set_retry_count (_retry_count s - 1)%Z s) in
                 let! self := get in
                 if (0 <? _retry_count self)%Z then
                   do! emit (Sleep 2) in
                   _initialize_connection fuel' (fun n => backend (S n)) None
                 else raise e)
      end
  end.

(** [connect]; [t_first] and [t_last] are the readings of
    [time.time()].  The optional [start()] calls on the tracks belong to
    the track base classes and are left out. *)
Definition connect (fuel : nat) (backend : nat -> result unit)
    (t_first t_last : Q) : M t unit :=
  let loop := the_loop in
  do! modify (set_audio_track (Some AvatarioAudioTrack.__init__)) in
  let! self := get in
  do! (match _stream_start_time self with
       | None =>
           do! modify (set_stream_start_time (Some t_first)) in
           do! modify (fun s => set_video_track
                         (AvatarioVideoTrack.set_shared_start_time
                            (Some t_first) (video_track s)) s) in
           modify (fun s => set_audio_track
                     (option_map (AvatarioAudioTrack.set_shared_start_time
                                    (Some t_first)) (audio_track s)) s)
       | Some _ => ret tt
       end) in
  do! _initialize_connection fuel backend (Some loop) in
  modify (set_last_audio_time t_last).

(** The guarded [cancel()] of the speech-timeout task. *)
Definition cancel_speech_timeout : M t unit :=
  let! self := get in
  match _speech_timeout_task self with
  | Some task =>
      if negb (done task) then
        do! emit CancelTask in
        modify (set_speech_timeout_task
                  (Some (mkTask (done task) (S (cancel_requests task)))))
      else ret tt
  | None => ret tt
  end.

Definition _cleanup_connections : M t unit :=
  do! modify (set_ready false) in
  do! modify (set_is_speaking false) in
  cancel_speech_timeout.

(** [_send_audio_data]: 6000-byte slices onto the [tts_audio] queue. *)
Definition _send_audio_data (data : bytes) : M t unit :=
  try_except
    (for_each (range 0 (len data) 6000)
       (fun i =>
          let chunk := slice i (i + 6000) data in
          zoom ipc_data set_ipc_data
            (zoom tts_audio set_tts_audio (queue_put chunk))))
    (fun e => emit (Stdout "Error sending audio data via data channel")).

Definition handle_audio_input (audio_data : bytes) : M t unit :=
  let! self := get in
  if negb (run self) || _stopping self then ret tt
  else if ready self then
    try_except
      (let audio_data := if negb (len audio_data mod 2 =? 0)%Z
                         then audio_data ++ [Byte.x00] else audio_data in
       _send_audio_data audio_data)
      (fun e => emit (Stdout "Error processing/sending audio data"))
  else
    let! ws := getattr "ws" in
    emit (Stdout "Avatario: Cannot send audio").

Definition aclose : M t unit :=
  let! self := get in
  if _stopping self then ret tt
  else
    do! modify (set_stopping true) in
    do! modify (set_run false) in
    do! cancel_speech_timeout in
    do! modify (fun s => set_ipc_data (set_kill_signal true (ipc_data s)) s) in
    _cleanup_connections.

(** [self.video_track.<method>(...)] and [self.audio_track.<method>(...)];
    the audio track is [None] until [connect] creates it, and a method
    call on [None] raises [AttributeError]. *)
Definition on_video_track {A} (m : M AvatarioVideoTrack.t A) : M t A :=
  zoom video_track set_video_track m.

Definition on_audio_track {A} (method : string) (m : M AvatarioAudioTrack.t A)
    : M t A :=
  fun s =>
    match audio_track s with
    | None => (Raise (AttributeError method), s, [])
    | Some track =>
        match m track with
        | (r, track1, tr) => (r, set_audio_track (Some track1) s, tr)
        end
    end.

Definition ipc_output_video {A} (m : M (Queue VideoFrame) A) : M t A :=
  zoom ipc_data set_ipc_data (zoom output_video set_output_video m).

Definition ipc_output_audio {A} (m : M (Queue AudioFrame) A) : M t A :=
  zoom ipc_data set_ipc_data (zoom output_audio set_output_audio m).

(** [_process_video_frames]: move the frames of the [output_video] queue
    into the video track while the avatar runs.  The queue carries
    frames, so the [None] test never fires; [frame_count] only feeds log
    lines.  [fuel] bounds the number of iterations. *)
Fixpoint _process_video_frames (fuel : nat) : M t loop_exit :=
  match fuel with
  | O => ret OutOfFuel
  | S fuel' =>
      let! self := get in
      if run self && negb (_stopping self) then
        let! r := try_except
                    (let! frame := ipc_output_video queue_get in
                     do! on_video_track (AvatarioVideoTrack.add_frame frame) in
                     ret None)
                    (fun e =>
                       do! emit (Stdout "Avatario: Video processing error") in
                       let! self := get in
                       if negb (run self) || _stopping self then ret (Some e)
                       else do! emit (Sleep (1 # 10)) in ret None) in
        match r with
        | Some e => ret (Broke e)
        | None => _process_video_frames fuel'
        end
      else ret CondFalse
  end.

(** [_process_audio_frames]: the same for audio; a frame is relabelled to
    the module's sample rate before it goes to the track, and an error
    while handing it over is logged and skipped. *)
Fixpoint _process_audio_frames (fuel : nat) : M t loop_exit :=
  match fuel with
  | O => ret OutOfFuel
  | S fuel' =>
      let! self := get in
      if run self && negb (_stopping self) then
        let! r := try_except
                    (let! frame := ipc_output_audio queue_get in
                     do! try_except
                           (let frame :=
                              if negb (Av.sample_rate frame =? AUDIO_SAMPLE_RATE)%Z
                              then set_sample_rate AUDIO_SAMPLE_RATE frame
                              else frame in
                            on_audio_track "add_frame"
                              (AvatarioAudioTrack.add_frame (Some frame)))
                           (fun frame_error =>
                              emit (Stdout "Avatario: Error processing audio frame")) in
                     ret None)
                    (fun e =>
                       do! emit (Stdout "Avatario: Audio processing error") in
                       let! self := get in
                       if negb (run self) || _stopping self then ret (Some e)
                       else do! emit (Sleep (1 # 10)) in ret None) in
        match r with
        | Some e => ret (Broke e)
        | None => _process_audio_frames fuel'
        end
      else ret CondFalse
  end.

End AvatarioAvatar.

(** ** [api.py]: the relay loops of the meeting handlers *)

Module Api.

Import AvatarioAvatar.

(** What [track.recv()] under [wait_for(..., timeout=2)] yields in one
    iteration. *)
Inductive recv_outcome (F : Type) : Type :=
| Received (frame : F)
| TimedOut
| RecvFailed (e : exn).
Arguments Received {F} frame.
Arguments TimedOut {F}.
Arguments RecvFailed {F} e.

(** One iteration as the environment shapes it: whether another task
    sets the kill signal while the loop is suspended in [wait_for], and
    what the receive yields. *)
Record turn (F : Type) : Type := mkTurn {
  kill_meanwhile : bool;
  received : recv_outcome F;
}.
Arguments mkTurn {F} kill_meanwhile received.
Arguments kill_meanwhile {F} t.
Arguments received {F} t.

Definition await_recv {F} (tn : turn F) : M IpcData F :=
  do! emit (WaitFor 2) in
  do! (if kill_meanwhile tn then modify (set_kill_signal true) else ret tt) in
  match received tn with
  | Received frame => ret frame
  | TimedOut => raise TimeoutError
  | RecvFailed e => raise e
  end.

Definition continue_on_timeout (m : M IpcData unit) : M IpcData unit :=
  try_except m
    (fun e => match e with
              | TimeoutError => ret tt
              | _ => raise e
              end).

(** [AvatarioParticipantHandler.get_output_audio]; the script lists the
    iterations the environment provides, and the loop is still running
    ([OutOfFuel]) when the script ends first. *)
Fixpoint get_output_audio (script : list (turn AudioFrame)) : M IpcData loop_exit :=
  let! ipc := get in
  if negb (kill_signal ipc) then
    match script with
    | [] => ret OutOfFuel
    | tn :: rest =>
        do! continue_on_timeout
              (let! frame := await_recv tn in
               zoom output_audio set_output_audio (queue_put frame)) in
        get_output_audio rest
    end
  else ret CondFalse.

(** [AvatarioParticipantHandler.get_output_video]. *)
Fixpoint get_output_video (script : list (turn VideoFrame)) : M IpcData loop_exit :=
  let! ipc := get in
  if negb (kill_signal ipc) then
    match script with
    | [] => ret OutOfFuel
    | tn :: rest =>
        do! continue_on_timeout
              (let! frame := await_recv tn in
               zoom output_video set_output_video (queue_put frame)) in
        get_output_video rest
    end
  else ret CondFalse.

(** [AvatarioMeetingHandler.send_tts_audio]: [while True] around a
    blocking [get] and a send in unreliable mode.  The queue carries
    byte strings, so the string warning never prints. *)
Fixpoint send_tts_audio (fuel : nat) : M IpcData loop_exit :=
  match fuel with
  | O => ret OutOfFuel
  | S fuel' =>
      let! audio_data := zoom tts_audio set_tts_audio queue_get in
      do! emit (Send audio_data) in
      send_tts_audio fuel'
  end.

End Api.

(** ** [meeting_utils.py] *)

Module MeetingUtils.

(** The environment variables the module reads. *)
Record Env : Type := mkEnv {
  VIDEOSDK_API_ENDPOINT : option string;
  BACKEND_VIDEOSDK_AUTH_TOKEN : option string;
  BACKEND_VIDEOSDK_API_KEY : option string;
  BACKEND_VIDEOSDK_SECRET_KEY : option string;
}.

(** JSON values as the room service sends them; [JNull] reads back as
    Python's [None]. *)
Inductive jval : Type :=
| JNull
| JString (s : string)
| JNumber (n : Z)
| JBool (b : bool).

Inductive json : Type :=
| JObject (fields : gmap string jval)
| JArray (items : list jval)
| JScalar (v : jval).

(** An HTTP response: the status and the body, [None] when the body is
    not JSON. *)
Record Response : Type := mkResponse {
  status_code : Z;
  body : option json;
}.

Record Request : Type := mkRequest {
  url : string;
  authorization : option string;
}.

(** The values stored in a token payload. *)
Inductive claim : Type :=
| CTime (seconds : Z)
| CStr (s : option string)
| CInt (n : Z)
| CList (l : list string)
| CJson (v : jval).

(** A signed token: the payload and the key it was signed with. *)
Inductive Token : Type := HS256 (payload : gmap string claim) (key : string).

Definition str_or_None (s : option string) : string := default "None" s.

(** [generate_token]; [now] is [datetime.datetime.now()] in seconds.
    The signing library rejects a missing key. *)
Definition generate_token (env : Env) (now : Z) (meeting_id : jval)
    : result Token :=
  let expiration_in_seconds := 600%Z in
  let expiration := (now + expiration_in_seconds)%Z in
  let payload : gmap string claim :=
    <["permissions" := CList ["allow_join"; "allow_mod"]]>
    (<["apikey" := CStr (BACKEND_VIDEOSDK_API_KEY env)]>
    (<["exp" := CTime expiration]> ∅)) in
  let payload :=
    match meeting_id with
    | JNull => payload
    | _ => <["roles" := CList ["rtc"]]> (<["version" := CInt 2]> payload)
    end in
  let payload := <["roomId" := CJson meeting_id]> payload in
  match BACKEND_VIDEOSDK_SECRET_KEY env with
  | Some key => Return (HS256 payload key)
  | None => Raise (TypeError "Expected a string value")
  end.

(** What [create_meeting] returns: the bare room id, or the dictionary
    with the id and the two tokens. *)
Inductive meeting : Type :=
| RoomId (room_id : jval)
| Credentials (id : jval) (token backend_token : Token).

(** [create_meeting]; [http] is [requests.post], which may itself
    raise. *)
Definition create_meeting (env : Env) (now : Z)
    (http : Request -> result Response) (auth_token : option string)
    : result meeting :=
  let url := str_or_None (VIDEOSDK_API_ENDPOINT env) +:+ "/rooms" in
  let generate_for_backend :=
    match auth_token with Some _ => false | None => true end in
  let headers_authorization :=
    match auth_token with
    | Some a => Some a
    | None => BACKEND_VIDEOSDK_AUTH_TOKEN env
    end in
  match http (mkRequest url headers_authorization) with
  | Raise e => Raise e
  | Blocked => Blocked
  | Return response =>
      match body response with
      | None => Raise JSONDecodeError
      | Some (JArray _) | Some (JScalar _) => Raise (AttributeError "get")
      | Some (JObject response_data) =>
          let room_id := default JNull (response_data !! "roomId") in
          if negb generate_for_backend then Return (RoomId room_id)
          else
            match generate_token env now room_id with
            | Raise e => Raise e
            | Blocked => Blocked
            | Return token =>
                match generate_token env now room_id with
                | Raise e => Raise e
                | Blocked => Blocked
                | Return backend_token =>
                    Return (Credentials room_id token backend_token)
                end
            end
      end
  end.

End MeetingUtils.


(** ** [api.py]: the API client and the meeting handler *)

Module AvatarioClient.

Import MeetingUtils.

Definition BASE_URL : string := "https://app.onezot.work/api/sdk".

(** The values of the negotiation payload: plain strings, the values of
    the caller's video info, and the nested transport dictionary with
    its [url] and [token]. *)
Inductive field : Type :=
| FStr (s : string)
| FJson (v : jval)
| FLivekit (url : jval) (token : Token).

(** The POST to the avatar backend: address, the [x-api-key] header and
    the JSON body. *)
Record SessionRequest : Type := mkSessionRequest {
  surl : string;
  x_api_key : string;
  payload : gmap string field;
}.

(** A participant as the meeting reports it. *)
Record Participant : Type := mkParticipant {
  display_name : string;
  id : string;
}.

(** [AvatarioAgentParticipant] together with the handler it registers:
    the meeting joined (its id and the token used), the
    [participant_joined] event, and the ids of the participants a
    [AvatarioParticipantHandler] was attached to. *)
Record AgentParticipant : Type := mkAgent {
  meeting : option (jval * Token);
  participant_joined : bool;
  listeners : list string;
}.

Definition new_agent : AgentParticipant := mkAgent None false [].

(** [join_meeting]: configure, initialise and join the meeting. *)
Definition join_meeting (meeting_id : jval) (token : Token)
    : M AgentParticipant unit :=
  do! modify (fun s => mkAgent (Some (meeting_id, token))
                         (participant_joined s) (listeners s)) in
  emit (Call "meeting.join").

(** [AvatarioMeetingHandler.on_participant_joined]. *)
Definition on_participant_joined (participant : Participant)
    : M AgentParticipant unit :=
  if String.eqb (display_name participant) "backend_participant" then
    do! modify (fun s => mkAgent (meeting s) (participant_joined s)
                           (listeners s ++ [id participant])) in
    do! modify (fun s => mkAgent (meeting s) true (listeners s)) in
    emit (CreateTask "send_tts_audio")
  else ret tt.

(** [await participant_joined.wait()]. *)
Definition wait_participant_joined : M AgentParticipant unit :=
  fun s => if participant_joined s then (Return tt, s, []) else (Blocked, s, []).

(** An external call that returns or raises. *)
Definition external {S A} (r : result A) : M S A := fun s => (r, s, []).

(** [AvatarioClient.create_conversation].  [rooms] is the room service
    behind [create_meeting], [session_post] the avatar backend;
    [arrivals] are the participants the meeting reports after the join,
    in order, while the call waits.  [raise_for_status] raises from
    status 400 on; reading a body that is not JSON raises. *)
Definition create_conversation (env : Env) (now : Z)
    (rooms : Request -> result Response)
    (session_post : SessionRequest -> result Response)
    (arrivals : list Participant)
    (api_key : string) (video_info : gmap string jval)
    : M AgentParticipant unit :=
  let url := BASE_URL +:+ "/start-session" in
  let! meeting_info := external (create_meeting env now rooms None) in
  match meeting_info with
  | RoomId _ => raise (TypeError "string indices must be integers")
  | Credentials meeting_id token backend_token =>
      let payload : gmap string field :=
        <["livekit" := FLivekit meeting_id backend_token]>
        (<["agent_id" := FStr "backend_participant"]> ∅) in
      let payload := (FJson <$> video_info) ∪ payload in
      let! r := external (session_post (mkSessionRequest url api_key payload)) in
      do! (if (400 <=? status_code r)%Z
           then raise (HTTPError (status_code r)) else ret tt) in
      do! (match body r with
           | None => raise JSONDecodeError
           | Some _ => ret tt
           end) in
      do! emit (Stdout "Created Avatario conversation") in
      do! join_meeting meeting_id token in
      do! for_each arrivals on_participant_joined in
      wait_participant_joined
  end.

End AvatarioClient.
(** * Vocabulary of the statements *)

(** The last [n] elements of a list, in order. *)
Definition last_n {A} (n : nat) (l : list A) : list A :=
  drop (length l - n) l.

(** What one push does to the items of a bounded queue that gives up its
    oldest element when full. *)
Definition push_drop_oldest {A} (c : nat) (l : list A) (x : A) : list A :=
  if c <=? length l then tail l ++ [x] else l ++ [x].

(** The capacity invariant of a bounded queue. *)
Definition within_capacity {A} (q : Queue A) : Prop :=
  (0 < maxsize q)%Z /\ (len (_queue q) <= maxsize q)%Z.

(** "Drop the oldest when full, then put": the step both producers of the
    audio queue perform. *)
Definition evict_then_put {A} (x : A) : M (Queue A) unit :=
  let! q := get in
  do! (if full q then do! get_nowait in ret tt else ret tt) in
  put_nowait x.

(** The frame as [AvatarioAudioTrack.add_frame] stores it: relabelled to
    the track's sample rate when it came with another one. *)
Definition relabel (f : AudioFrame) : AudioFrame :=
  if negb (Av.sample_rate f =? AvatarioAudioTrack.sample_rate)%Z
  then set_sample_rate AvatarioAudioTrack.sample_rate f else f.

Definition relabel_log (f : AudioFrame) : list event :=
  if negb (Av.sample_rate f =? AvatarioAudioTrack.sample_rate)%Z
  then [Stdout "frame has different sample rate then expected"] else [].

(** A run of pushes with nothing in between. *)
Definition audio_pushes (fs : list AudioFrame) : M AvatarioAudioTrack.t unit :=
  for_each fs (fun f => AvatarioAudioTrack.add_frame (Some f)).

Definition video_pushes (fs : list VideoFrame) : M AvatarioVideoTrack.t unit :=
  for_each fs AvatarioVideoTrack.add_frame.

(** The items of the two track queues. *)
Definition audio_items (s : AvatarioAudioTrack.t) : list AudioFrame :=
  _queue (AvatarioAudioTrack.queue s).
Definition video_items (s : AvatarioVideoTrack.t) : list VideoFrame :=
  _queue (AvatarioVideoTrack.queue s).

(** Sample frames for the concrete runs: a 20 ms mono frame filled with
    one byte value, and a picture tagged with one byte. *)
Definition tone (b : Byte.byte) : AudioFrame :=
  mkAudioFrame "s16" "mono" 960 None None 48000 (replicate 1920 b).

Definition picture (b : Byte.byte) : VideoFrame :=
  mkVideoFrame None None [b].

Definition eleven_tones : list AudioFrame :=
  map tone [Byte.x01; Byte.x02; Byte.x03; Byte.x04; Byte.x05; Byte.x06;
            Byte.x07; Byte.x08; Byte.x09; Byte.x0a; Byte.x0b].

Definition three_pictures : list VideoFrame :=
  map picture [Byte.x01; Byte.x02; Byte.x03].

(** The complete leading chunks of [c] elements of a list, and what is
    left after them. *)
Definition whole_chunks {A} (c : nat) (l : list A) : list (list A) :=
  map (fun k => take c (drop (k * c) l)) (seq 0 (length l / c)).

Definition remainder {A} (c : nat) (l : list A) : list A :=
  drop (c * (length l / c)) l.

(** The frame [buildAudioFrames] makes of a complete chunk. *)
Definition frame_of_chunk (chunk : bytes) : AudioFrame :=
  mkAudioFrame "s16" "mono" 960 None None 0 chunk.

(** The chunk size as a list length. *)
Definition CHUNK : nat := Z.to_nat AvatarioAudioTrack.chunk_size.

(** The guarded part of one iteration of [add_new_bytes]: build, evict
    when full, put; an exception becomes the reason of the [break]. *)
Definition enqueue_chunk (chunk : bytes) : M AvatarioAudioTrack.t (option exn) :=
  try_except
    (let! audio_frame := AvatarioAudioTrack.buildAudioFrames chunk in
     let! self := get in
     do! (if full (AvatarioAudioTrack.queue self)
          then do! AvatarioAudioTrack.on_queue get_nowait in ret tt
          else ret tt) in
     do! AvatarioAudioTrack.on_queue (put_nowait audio_frame) in
     ret None)
    (fun e => ret (Some e)).

(** 2000 bytes of input: one complete chunk and 80 bytes over. *)
Definition two_thousand_bytes : bytes := replicate 2000 Byte.x01.

(** What the producer side may do to the audio track between two pulls. *)
Inductive producer_op : Type :=
| Push (frame : option AudioFrame)   (* add_frame(frame) *)
| Feed (audio_data : bytes)          (* add_new_bytes(audio_data) *)
| Interrupt.                         (* interrupt() *)

Definition run_producer_op (op : producer_op) (s : AvatarioAudioTrack.t)
    : AvatarioAudioTrack.t :=
  match op with
  | Push frame => final (AvatarioAudioTrack.add_frame frame s)
  | Feed audio_data => final (AvatarioAudioTrack.add_new_bytes audio_data s)
  | Interrupt => final (AvatarioAudioTrack.interrupt s)
  end.

(** One pull of the transport: what the producer did since the last pull
    and the two clock readings the pull takes. *)
Record pull : Type := mkPull {
  before : list producer_op;
  t_first : Q;
  t_now : Q;
}.

(** Consecutive pulls: the outcomes of the [recv()] calls, in order, and
    the track afterwards. *)
Fixpoint pulls (ps : list pull) (s : AvatarioAudioTrack.t)
    : list (result AudioFrame) * AvatarioAudioTrack.t :=
  match ps with
  | [] => ([], s)
  | p :: rest =>
      let s1 := foldl (fun s op => run_producer_op op s) s (before p) in
      let r := AvatarioAudioTrack.recv (t_first p) (t_now p) s1 in
      let '(frames, s2) := pulls rest (final r) in
      (outcome r :: frames, s2)
  end.

(** The pts stamped on the frame a call returned, if it returned one and
    stamped it. *)
Definition pts_of (r : result AudioFrame) : option Z :=
  match r with
  | Return f => pts f
  | _ => None
  end.

(** The pacing state of a track: what [recv] reads besides the queue. *)
Definition pacing (s : AvatarioAudioTrack.t) : option Q * Z * string :=
  (AvatarioAudioTrack._start_time s, AvatarioAudioTrack._timestamp s,
   AvatarioAudioTrack.readyState s).

(** A computation that keeps an invariant of the object it runs on,
    however it ends. *)
Definition preserves {S A} (I : S -> Prop) (m : M S A) : Prop :=
  forall s, I s -> I (final (m s)).

(** A computation that leaves the pacing state alone. *)
Definition keeps_pacing {A} (m : M AvatarioAudioTrack.t A) : Prop :=
  forall p, preserves (fun s => pacing s = p) m.

(** The kill signal of a session is set. *)
Definition killed (d : AvatarioAvatar.IpcData) : Prop :=
  AvatarioAvatar.kill_signal d = true.

Definition latched (s : AvatarioAvatar.t) : Prop :=
  killed (AvatarioAvatar.ipc_data s).

(** The pts the next pull of a live track stamps. *)
Definition next_pts (s : AvatarioAudioTrack.t) : Z :=
  match AvatarioAudioTrack._start_time s with
  | None => 0
  | Some _ => AvatarioAudioTrack._timestamp s + AvatarioAudioTrack.samples
  end.

(** A pull with nothing done before it, clock readings at zero. *)
Definition idle_pull : pull := mkPull [] 0%Q 0%Q.

(** Three pulls: onto an empty queue, after two pushes, and after an
    interrupt. *)
Definition three_pulls : list pull :=
  [ idle_pull;
    mkPull [Push (Some (tone Byte.x01)); Push (Some (tone Byte.x02))] 0%Q 0%Q;
    mkPull [Feed two_thousand_bytes; Interrupt] 0%Q 0%Q ].

(** All the chunks of [c] elements of a list, in order: the complete ones
    and then, when something is left over, one shorter final chunk. *)
Definition chunks_of {A} (c : nat) (l : list A) : list (list A) :=
  whole_chunks c l ++
  match remainder c l with
  | [] => []
  | rest => [rest]
  end.

(** A byte string padded to an even length with one zero byte. *)
Definition padded (b : bytes) : bytes :=
  if Nat.odd (length b) then b ++ [Byte.x00] else b.

(** The size of the slices sent to the avatar backend. *)
Definition TTS_CHUNK : nat := Z.to_nat 6000.

(** The items of the [tts_audio] relay queue of an avatar. *)
Definition tts_items (s : AvatarioAvatar.t) : list bytes :=
  _queue (AvatarioAvatar.tts_audio (AvatarioAvatar.ipc_data s)).

(** The avatar with other items in its [tts_audio] queue. *)
Definition with_tts_items (items : list bytes) (s : AvatarioAvatar.t)
    : AvatarioAvatar.t :=
  AvatarioAvatar.set_ipc_data
    (AvatarioAvatar.set_tts_audio
       (mkQueue (maxsize (AvatarioAvatar.tts_audio (AvatarioAvatar.ipc_data s)))
          items)
       (AvatarioAvatar.ipc_data s)) s.

(** An avatar that is connected and not closing. *)
Definition ready_avatar : AvatarioAvatar.t :=
  AvatarioAvatar.set_ready true AvatarioAvatar.__init__.

(** 12001 bytes of speech: odd, so padded to 12002 = 6000 + 6000 + 2. *)
Definition speech : bytes := replicate (Z.to_nat 12001) Byte.x07.

(** A ready avatar with a speech-timeout task still pending. *)
Definition speaking_avatar : AvatarioAvatar.t :=
  AvatarioAvatar.set_speech_timeout_task
    (Some (AvatarioAvatar.mkTask false 0)) ready_avatar.

(** Backends for the connection attempts: the first call fails and the
    later ones succeed; every call fails. *)
Definition fail_then_succeed (n : nat) : result unit :=
  match n with
  | O => Raise (HTTPError 503)
  | S _ => Return tt
  end.

Definition always_fail (n : nat) : result unit := Raise (HTTPError 503).

(** The error of a call that leaves out the [loop] argument. *)
Definition missing_loop : exn :=
  TypeError "_initialize_connection() missing 1 required positional argument: 'loop'".

(** A session's shared data after [aclose]: the kill signal is set, two
    speech chunks are still waiting in the relay queue. *)
Definition killed_with_two_chunks : AvatarioAvatar.IpcData :=
  AvatarioAvatar.mkIpc (mkQueue 0 [[Byte.x01; Byte.x02]; [Byte.x03; Byte.x04]])
    (new_queue 0) (new_queue 0) true.

(** A fully configured environment, and a room service that answers 401
    with a JSON error body. *)
Definition configured_env : MeetingUtils.Env :=
  MeetingUtils.mkEnv (Some "https://api.videosdk.live/v2") (Some "auth-token")
    (Some "api-key") (Some "secret").

Definition unauthorized (_ : MeetingUtils.Request) : result MeetingUtils.Response :=
  Return (MeetingUtils.mkResponse 401
            (Some (MeetingUtils.JObject
                     {[ "error" := MeetingUtils.JString "Unauthorized" ]}))).



(** A live track holding two tones and 100 stray bytes. *)
Definition busy_track : AvatarioAudioTrack.t :=
  AvatarioAudioTrack.set_audio_data_buffer (replicate 100 Byte.x05)
    (final (audio_pushes [tone Byte.x01; tone Byte.x02]
              AvatarioAudioTrack.__init__)).

(** 5000 bytes arriving as 1000 and then 4000. *)
Definition first_bytes : bytes := replicate 1000 Byte.x03.
Definition more_bytes : bytes := replicate 4000 Byte.x04.


(** An avatar whose retry budget is down to its last attempt. *)
Definition last_attempt_avatar : AvatarioAvatar.t :=
  AvatarioAvatar.set_retry_count 1 AvatarioAvatar.__init__.

(** The avatar is closing or closed. *)
Definition stopping (s : AvatarioAvatar.t) : Prop :=
  AvatarioAvatar._stopping s = true.

(** The frames waiting in the two inbound relay queues of an avatar. *)
Definition inbound_audio (s : AvatarioAvatar.t) : list AudioFrame :=
  _queue (AvatarioAvatar.output_audio (AvatarioAvatar.ipc_data s)).
Definition inbound_video (s : AvatarioAvatar.t) : list VideoFrame :=
  _queue (AvatarioAvatar.output_video (AvatarioAvatar.ipc_data s)).

(** The avatar with other frames waiting in a relay queue. *)
Definition with_inbound_audio (items : list AudioFrame) (s : AvatarioAvatar.t)
    : AvatarioAvatar.t :=
  AvatarioAvatar.set_ipc_data
    (AvatarioAvatar.set_output_audio
       (mkQueue (maxsize (AvatarioAvatar.output_audio (AvatarioAvatar.ipc_data s)))
          items)
       (AvatarioAvatar.ipc_data s)) s.

Definition with_inbound_video (items : list VideoFrame) (s : AvatarioAvatar.t)
    : AvatarioAvatar.t :=
  AvatarioAvatar.set_ipc_data
    (AvatarioAvatar.set_output_video
       (mkQueue (maxsize (AvatarioAvatar.output_video (AvatarioAvatar.ipc_data s)))
          items)
       (AvatarioAvatar.ipc_data s)) s.

(** The track with other frames queued. *)
Definition with_audio_items (items : list AudioFrame) (tr : AvatarioAudioTrack.t)
    : AvatarioAudioTrack.t :=
  AvatarioAudioTrack.set_queue
    (mkQueue (maxsize (AvatarioAudioTrack.queue tr)) items) tr.

(** A connected avatar with three frames waiting in the audio relay
    queue, one of them labelled 44100 Hz; the same before [connect]. *)
Definition three_inbound : list AudioFrame :=
  [tone Byte.x01; set_sample_rate 44100 (tone Byte.x02); tone Byte.x03].

Definition connected_avatar : AvatarioAvatar.t :=
  with_inbound_audio three_inbound
    (AvatarioAvatar.set_audio_track (Some AvatarioAudioTrack.__init__)
       ready_avatar).

Definition unconnected_avatar : AvatarioAvatar.t :=
  with_inbound_audio three_inbound AvatarioAvatar.__init__.

Definition avatar_with_pictures : AvatarioAvatar.t :=
  with_inbound_video three_pictures AvatarioAvatar.__init__.

(** The avatar as [connect] has set it up when it starts to negotiate: a
    fresh audio track, and on the first connect the stream start time
    handed to both tracks. *)
Definition prepared (t_first : Q) (s : AvatarioAvatar.t) : AvatarioAvatar.t :=
  let s1 := AvatarioAvatar.set_audio_track (Some AvatarioAudioTrack.__init__) s in
  match AvatarioAvatar._stream_start_time s with
  | None =>
      AvatarioAvatar.set_audio_track
        (Some (AvatarioAudioTrack.set_shared_start_time (Some t_first)
                 AvatarioAudioTrack.__init__))
        (AvatarioAvatar.set_video_track
           (AvatarioVideoTrack.set_shared_start_time (Some t_first)
              (AvatarioAvatar.video_track s))
           (AvatarioAvatar.set_stream_start_time (Some t_first) s1))
  | Some _ => s1
  end.

(** The turns a relay loop goes through: up to and including the first
    one during which the kill signal is set. *)
Fixpoint until_kill {F} (script : list (Api.turn F)) : list (Api.turn F) :=
  match script with
  | [] => []
  | tn :: rest =>
      if Api.kill_meanwhile tn then [tn] else tn :: until_kill rest
  end.

(** The frames received in a run of turns, in order. *)
Definition received_frames {F} (script : list (Api.turn F)) : list F :=
  flat_map (fun tn => match Api.received tn with
                      | Api.Received frame => [frame]
                      | _ => []
                      end) script.

(** No receive of the script fails with an error of its own. *)
Definition no_failure {F} (script : list (Api.turn F)) : Prop :=
  Forall (fun tn => forall e, Api.received tn <> Api.RecvFailed e) script.

(** A relay run: a frame, a timeout, a frame while the session is being
    closed, and a frame that is never received. *)
Definition relay_script : list (Api.turn AudioFrame) :=
  [ Api.mkTurn false (Api.Received (tone Byte.x01));
    Api.mkTurn false Api.TimedOut;
    Api.mkTurn true (Api.Received (tone Byte.x02));
    Api.mkTurn false (Api.Received (tone Byte.x03)) ].

(** A relay run that breaks: a frame, then a receive that fails. *)
Definition broken_script : list (Api.turn AudioFrame) :=
  [ Api.mkTurn false (Api.Received (tone Byte.x01));
    Api.mkTurn false (Api.RecvFailed MediaStreamError);
    Api.mkTurn false (Api.Received (tone Byte.x03)) ].

(** The shared data of a fresh session. *)
Definition fresh_ipc : AvatarioAvatar.IpcData :=
  AvatarioAvatar.ipc_data AvatarioAvatar.__init__.

(** The request [create_meeting] sends: the rooms endpoint and the
    caller's token, or the backend's token when the caller gives none. *)
Definition rooms_request (env : MeetingUtils.Env) (auth_token : option string)
    : MeetingUtils.Request :=
  MeetingUtils.mkRequest
    (MeetingUtils.str_or_None (MeetingUtils.VIDEOSDK_API_ENDPOINT env) +:+ "/rooms")
    (match auth_token with
     | Some a => Some a
     | None => MeetingUtils.BACKEND_VIDEOSDK_AUTH_TOKEN env
     end).

(** The payload and the key of a token. *)
Definition token_payload (tok : MeetingUtils.Token)
    : gmap string MeetingUtils.claim :=
  match tok with MeetingUtils.HS256 payload _ => payload end.
Definition token_key (tok : MeetingUtils.Token) : string :=
  match tok with MeetingUtils.HS256 _ key => key end.

(** A room service that answers every request with room ["abc-123"]. *)
Definition room_abc (_ : MeetingUtils.Request) : result MeetingUtils.Response :=
  Return (MeetingUtils.mkResponse 200
            (Some (MeetingUtils.JObject
                     {[ "roomId" := MeetingUtils.JString "abc-123" ]}))).

(** A room service whose answer is not JSON. *)
Definition room_html (_ : MeetingUtils.Request) : result MeetingUtils.Response :=
  Return (MeetingUtils.mkResponse 502 None).

(** An environment without the signing secret. *)
Definition env_without_secret : MeetingUtils.Env :=
  MeetingUtils.mkEnv (Some "https://api.videosdk.live/v2") (Some "auth-token")
    (Some "api-key") None.

(** Is this participant the avatar backend? *)
Definition is_backend (p : AvatarioClient.Participant) : bool :=
  String.eqb (AvatarioClient.display_name p) "backend_participant".

(** The negotiation request for a room: the start-session address, the
    API key, the agent id, the room as transport url with some token, and
    every field of the video info. *)
Definition negotiates (room_id : MeetingUtils.jval) (api_key : string)
    (video_info : gmap string MeetingUtils.jval)
    (req : AvatarioClient.SessionRequest) : Prop :=
  AvatarioClient.surl req = AvatarioClient.BASE_URL +:+ "/start-session" /\
  AvatarioClient.x_api_key req = api_key /\
  AvatarioClient.payload req !! "agent_id"
    = Some (AvatarioClient.FStr "backend_participant") /\
  (exists tok,
     AvatarioClient.payload req !! "livekit"
       = Some (AvatarioClient.FLivekit room_id tok) /\
     token_payload tok !! "roomId" = Some (MeetingUtils.CJson room_id)) /\
  (forall k v, video_info !! k = Some v ->
               AvatarioClient.payload req !! k = Some (AvatarioClient.FJson v)).

(** The video info of the example agent. *)
Definition face_info : gmap string MeetingUtils.jval :=
  {[ "avatario_face_id" := MeetingUtils.JString "6d47156b";
     "video_height" := MeetingUtils.JNumber 720;
     "video_width" := MeetingUtils.JNumber 1280;
     "custom_background_url" := MeetingUtils.JNull ]}.

(** An avatar backend that accepts every request, and one that answers
    every request with 503. *)
Definition accepting (_ : AvatarioClient.SessionRequest)
    : result MeetingUtils.Response :=
  Return (MeetingUtils.mkResponse 200
            (Some (MeetingUtils.JObject ∅))).

Definition unavailable (_ : AvatarioClient.SessionRequest)
    : result MeetingUtils.Response :=
  Return (MeetingUtils.mkResponse 503 (Some (MeetingUtils.JObject ∅))).

(** A user joins, then the backend. *)
Definition user_then_backend : list AvatarioClient.Participant :=
  [ AvatarioClient.mkParticipant "alice" "p1";
    AvatarioClient.mkParticipant "backend_participant" "p2" ].

(** * Properties *)

(** ** The model on small inputs *)

Example range_three : range 0 12002 6000 = [0; 6000; 12000]%Z.
Proof. reflexivity. Qed.

Example range_exact : range 0 12000 6000 = [0; 6000]%Z.
Proof. reflexivity. Qed.

Example range_empty : range 0 0 6000 = [].
Proof. reflexivity. Qed.

Example slice_past_the_end : slice 4 6 [1; 2; 3; 4; 5] = [5].
Proof. reflexivity. Qed.

Example chunks_of_five : chunks_of 2 [1; 2; 3; 4; 5] = [[1; 2]; [3; 4]; [5]].
Proof. reflexivity. Qed.

Example whole_chunks_of_five :
  whole_chunks 2 [1; 2; 3; 4; 5] = [[1; 2]; [3; 4]] /\
  remainder 2 [1; 2; 3; 4; 5] = [5].
Proof. split; reflexivity. Qed.

Example last_two_of_three : last_n 2 [1; 2; 3] = [2; 3].
Proof. reflexivity. Qed.

Example bounded_queue_full :
  full (mkQueue 2 [1; 2]) = true /\ full (mkQueue 2 [1]) = false /\
  full (mkQueue 0 [1; 2; 3]) = false.
Proof. repeat split. Qed.

Example put_on_full_queue_raises :
  outcome (put_nowait 3 (mkQueue 2 [1; 2])) = Raise QueueFull.
Proof. reflexivity. Qed.

Example get_from_empty_queue_raises :
  outcome (get_nowait (mkQueue 2 (@nil nat))) = Raise QueueEmpty.
Proof. reflexivity. Qed.

Example fresh_track_first_pull :
  pts_of (outcome (AvatarioAudioTrack.recv 0 0 AvatarioAudioTrack.__init__))
    = Some 0%Z.
Proof. reflexivity. Qed.

Example connect_succeeds_at_once :
  outcome (AvatarioAvatar.connect 5 (fun _ => Return tt) 0 0 AvatarioAvatar.__init__)
    = Return tt /\
  AvatarioAvatar.ready
    (final (AvatarioAvatar.connect 5 (fun _ => Return tt) 0 0
              AvatarioAvatar.__init__)) = true.
Proof. split; reflexivity. Qed.

(** ** Lists: the last elements, and pushing with eviction *)

Section LastN.
Context {A : Type}.
Implicit Types (l : list A) (x : A) (c : nat).

Lemma last_n_length c l : length (last_n c l) = Nat.min c (length l).
Proof. unfold last_n. rewrite length_drop. lia. Qed.

Lemma last_n_all c l : length l <= c -> last_n c l = l.
Proof.
  intros H. unfold last_n. replace (length l - c) with 0 by lia. reflexivity.
Qed.

Lemma last_n_app_long c l1 l2 : c <= length l2 -> last_n c (l1 ++ l2) = last_n c l2.
Proof.
  intros H. unfold last_n. rewrite length_app.
  replace (length l1 + length l2 - c) with (length l1 + (length l2 - c)) by lia.
  rewrite <- drop_drop, drop_app_length. reflexivity.
Qed.

(** Appending one element to the last [c] and keeping the last [c]
    again is keeping the last [c] of the longer list. *)
Lemma last_n_snoc c l x : last_n c (last_n c l ++ [x]) = last_n c (l ++ [x]).
Proof.
  unfold last_n. rewrite !length_app, length_drop. simpl.
  destruct (decide (length l <= c)) as [Hle|Hgt].
  - replace (length l - c) with 0 by lia. rewrite Nat.sub_0_r. reflexivity.
  - assert (Hlt : c < length l) by lia.
    assert (E1 : length l - (length l - c) + 1 - c = 1) by lia.
    assert (E2 : length l + 1 - c = (length l - c) + 1) by lia.
    rewrite E1, E2, <- drop_drop.
    rewrite (drop_app_le l [x] (length l - c)) by lia.
    reflexivity.
Qed.

Lemma push_drop_oldest_last_n c l x :
  0 < c -> length l <= c -> push_drop_oldest c l x = last_n c (l ++ [x]).
Proof.
  intros Hc Hl. unfold push_drop_oldest.
  destruct (Nat.leb_spec c (length l)) as [Hfull|Hroom].
  - unfold last_n. rewrite length_app. simpl.
    replace (length l + 1 - c) with 1 by lia.
    destruct l as [|y l]; [simpl in *; lia|]. reflexivity.
  - rewrite last_n_all; [reflexivity|]. rewrite length_app. simpl. lia.
Qed.

Lemma foldl_push_last_n c l xs :
  0 < c -> length l <= c ->
  foldl (push_drop_oldest c) l xs = last_n c (l ++ xs).
Proof.
  intros Hc. revert l. induction xs as [|x xs IH]; intros l Hl.
  - simpl. rewrite app_nil_r, last_n_all; auto.
  - simpl. rewrite IH.
    + rewrite push_drop_oldest_last_n by assumption.
      rewrite (cons_middle x l xs), app_assoc.
      generalize (l ++ [x]). intros l'.
      clear IH Hl. revert l'. induction xs as [|y ys IHys] using rev_ind; intros l'.
      * rewrite !app_nil_r. unfold last_n at 1.
        rewrite last_n_length.
        replace (Nat.min c (length l') - c) with 0 by lia. reflexivity.
      * rewrite !app_assoc. rewrite <- last_n_snoc.
        rewrite IHys. apply last_n_snoc.
    + rewrite push_drop_oldest_last_n, last_n_length by assumption. lia.
Qed.

End LastN.

(** ** The effect monad *)

Lemma for_each_cons {S A} (x : A) (xs : list A) (body : A -> M S unit) (s : S) :
  for_each (x :: xs) body s =
    match body x s with
    | (Return _, s1, tr1) =>
        match for_each xs body s1 with
        | (r, s2, tr2) => (r, s2, tr1 ++ tr2)
        end
    | (Raise e, s1, tr1) => (Raise e, s1, tr1)
    | (Blocked, s1, tr1) => (Blocked, s1, tr1)
    end.
Proof. reflexivity. Qed.

(** ** The bounded queue *)

Section QueueFacts.
Context {A : Type}.
Implicit Types (q : Queue A) (x : A).

Lemma full_iff q :
  (0 < maxsize q)%Z -> full q = true <-> (maxsize q <= len (_queue q))%Z.
Proof.
  intros Hpos. unfold full, qsize, len.
  destruct (Z.leb_spec (maxsize q) 0); [lia|].
  destruct (Z.leb_spec (maxsize q) (Z.of_nat (length (_queue q)))); split;
    intros; try lia; try reflexivity; discriminate.
Qed.

Lemma full_unbounded q : (maxsize q <= 0)%Z -> full q = false.
Proof.
  intros H. unfold full. destruct (Z.leb_spec (maxsize q) 0); [reflexivity|lia].
Qed.

Lemma evict_then_put_spec q x :
  within_capacity q ->
  evict_then_put x q =
    (Return tt,
     mkQueue (maxsize q)
       (push_drop_oldest (Z.to_nat (maxsize q)) (_queue q) x), []).
Proof.
  intros [Hpos Hle]. destruct q as [c items]. unfold len in Hle. simpl in *.
  unfold evict_then_put, bind, get, push_drop_oldest.
  destruct (full (mkQueue c items)) eqn:Hfull.
  - apply full_iff in Hfull; [|exact Hpos]. unfold len in Hfull. simpl in Hfull.
    destruct items as [|y rest]; [simpl in *; lia|].
    unfold get_nowait, ret, put_nowait. simpl.
    assert (Hnf : full (mkQueue c rest) = false).
    { destruct (full (mkQueue c rest)) eqn:E; [|reflexivity].
      apply full_iff in E; [|exact Hpos]. unfold len in E. simpl in *. lia. }
    rewrite Hnf.
    destruct (Nat.leb_spec (Z.to_nat c) (S (length rest))); [reflexivity|].
    simpl in *. lia.
  - unfold ret, put_nowait. rewrite Hfull.
    destruct (Nat.leb_spec (Z.to_nat c) (length items)); [|reflexivity].
    assert (full (mkQueue c items) = true) as E.
    { apply full_iff; [exact Hpos|]. unfold len. simpl. lia. }
    congruence.
Qed.

Lemma within_capacity_push q x :
  within_capacity q ->
  within_capacity
    (mkQueue (maxsize q)
       (push_drop_oldest (Z.to_nat (maxsize q)) (_queue q) x)).
Proof.
  intros [Hpos Hle]. split; [exact Hpos|]. simpl.
  rewrite push_drop_oldest_last_n by (unfold len in Hle; lia).
  unfold len in *. rewrite last_n_length, length_app. simpl. lia.
Qed.

End QueueFacts.

(** ** The audio track as a producer: [add_frame] *)

Section AudioAddFrame.
Import AvatarioAudioTrack.
Implicit Types (self : t) (f : AudioFrame).

(** The inline eviction step of the track is [evict_then_put] on its
    queue. *)
Lemma track_push_eq self f :
  (let! self := get in
   do! (if full (queue self)
        then do! on_queue get_nowait in ret tt
        else ret tt) in
   on_queue (put_nowait f)) self
  = on_queue (evict_then_put f) self.
Proof.
  destruct self as [ts [c items] buf ft st sst rs].
  unfold on_queue, zoom, evict_then_put, bind, get, ret. simpl.
  destruct (full (mkQueue c items)); simpl.
  - unfold get_nowait. simpl. destruct items as [|y rest]; simpl; [reflexivity|].
    unfold set_queue. simpl. destruct (put_nowait f (mkQueue c rest)) as [[r q'] tr].
    reflexivity.
  - destruct (put_nowait f (mkQueue c items)) as [[r q'] tr]. reflexivity.
Qed.

Lemma audio_add_frame_spec self f :
  within_capacity (queue self) ->
  add_frame (Some f) self =
    (Return tt,
     set_queue (mkQueue (maxsize (queue self))
                  (push_drop_oldest (Z.to_nat (maxsize (queue self)))
                     (audio_items self) (relabel f))) self,
     relabel_log f).
Proof.
  intros Hcap. unfold add_frame, relabel, relabel_log, audio_items.
  unfold try_except at 1. unfold bind at 1.
  destruct (negb (Av.sample_rate f =? sample_rate)%Z).
  - unfold bind at 1. unfold emit at 1. unfold ret at 1.
    unfold try_except. rewrite track_push_eq.
    unfold on_queue, zoom. rewrite evict_then_put_spec by exact Hcap.
    reflexivity.
  - unfold ret at 1. unfold try_except. rewrite track_push_eq.
    unfold on_queue, zoom. rewrite evict_then_put_spec by exact Hcap.
    reflexivity.
Qed.

Lemma audio_add_frame_None self : add_frame None self = (Return tt, self, []).
Proof. reflexivity. Qed.

(** A run of pushes keeps the last [maxsize] frames. *)
Lemma audio_pushes_spec fs : forall self,
  within_capacity (queue self) ->
  outcome (audio_pushes fs self) = Return tt /\
  maxsize (queue (final (audio_pushes fs self))) = maxsize (queue self) /\
  audio_items (final (audio_pushes fs self)) =
    foldl (push_drop_oldest (Z.to_nat (maxsize (queue self))))
      (audio_items self) (map relabel fs).
Proof.
  induction fs as [|f fs IH]; intros self Hcap.
  - repeat split.
  - unfold audio_pushes in *. rewrite for_each_cons.
    rewrite audio_add_frame_spec by exact Hcap.
    set (self1 := set_queue _ self).
    assert (Hcap1 : within_capacity (queue self1)).
    { subst self1. simpl. apply (within_capacity_push (queue self) (relabel f) Hcap). }
    destruct (IH self1 Hcap1) as (Ho & Hm & Hi).
    destruct (for_each fs _ self1) as [[r s2] tr] eqn:E.
    unfold outcome, final in *. simpl in *.
    repeat split; [exact Ho|exact Hm|]. rewrite Hi. reflexivity.
Qed.

End AudioAddFrame.

(** ** The audio track: [interrupt] *)

Section AudioInterrupt.
Import AvatarioAudioTrack.

Lemma interrupt_loop_spec fuel : forall self,
  length (audio_items self) < fuel ->
  interrupt_loop fuel self =
    (Return CondFalse, set_queue (mkQueue (maxsize (queue self)) []) self, []).
Proof.
  induction fuel as [|fuel IH]; intros self Hfuel; [lia|].
  destruct self as [ts [c items] buf ft st sst rs].
  unfold audio_items in Hfuel. simpl in Hfuel.
  destruct items as [|x rest].
  - reflexivity.
  - cbn [interrupt_loop]. unfold bind at 1. unfold get at 1.
    cbn [queue empty _queue negb]. unfold bind at 1.
    unfold try_except, bind, on_queue, zoom, get_nowait, ret.
    cbn [queue _queue maxsize set_queue _timestamp audio_data_buffer frame_time
         _start_time _shared_start_time readyState app].
    rewrite IH by (unfold audio_items; simpl in *; lia). reflexivity.
Qed.

(** [interrupt] empties the queue and the raw-byte buffer, and nothing
    else. *)
Lemma interrupt_spec self :
  interrupt self =
    (Return tt,
     set_audio_data_buffer []
       (set_queue (mkQueue (maxsize (queue self)) []) self),
     []).
Proof.
  unfold interrupt, bind, get.
  rewrite interrupt_loop_spec by (unfold audio_items, qsize; lia).
  reflexivity.
Qed.

End AudioInterrupt.

(** ** The video track as a producer: [add_frame] *)

Section VideoAddFrame.
Import AvatarioVideoTrack.
Implicit Types (self : t) (f : VideoFrame).

Lemma empty_queue_not_full {A} (c : Z) : full (@mkQueue A c []) = false.
Proof.
  unfold full, qsize. simpl.
  destruct (Z.leb_spec c 0); [reflexivity|].
  apply Z.leb_gt. lia.
Qed.

(** The clearing loop empties the queue whatever it held. *)
Lemma clear_loop_spec fuel : forall self,
  length (video_items self) < fuel ->
  clear_loop fuel self =
    (Return CondFalse, set_queue (mkQueue (maxsize (queue self)) []) self, []).
Proof.
  induction fuel as [|fuel IH]; intros self Hfuel; [lia|].
  destruct self as [[c items] ts st fc rs sst].
  unfold video_items in Hfuel. simpl in Hfuel.
  destruct items as [|x rest].
  - reflexivity.
  - cbn [clear_loop]. unfold bind at 1. unfold get at 1.
    cbn [queue empty _queue negb]. unfold bind at 1.
    unfold try_except, bind, on_queue, zoom, get_nowait, ret.
    cbn [queue _queue maxsize set_queue _timestamp _start_time _frame_count
         _readyState _shared_start_time app].
    rewrite IH by (unfold video_items; simpl in *; lia). reflexivity.
Qed.

Lemma video_add_frame_spec self f :
  add_frame f self =
    (Return tt, set_queue (mkQueue (maxsize (queue self)) [f]) self, []).
Proof.
  unfold add_frame, bind, get.
  rewrite clear_loop_spec by (unfold video_items, qsize; lia).
  unfold try_except, on_queue, zoom, put_nowait. simpl.
  rewrite empty_queue_not_full. reflexivity.
Qed.

(** After any non-empty run of pushes the queue holds the last pushed
    frame and nothing else. *)
Lemma video_pushes_spec fs f : forall self,
  outcome (video_pushes (fs ++ [f]) self) = Return tt /\
  video_items (final (video_pushes (fs ++ [f]) self)) = [f].
Proof.
  induction fs as [|g fs IH]; intros self.
  - unfold video_pushes. simpl app. rewrite for_each_cons, video_add_frame_spec.
    simpl. split; reflexivity.
  - unfold video_pushes in *. simpl app. rewrite for_each_cons, video_add_frame_spec.
    specialize (IH (set_queue (mkQueue (maxsize (queue self)) [g]) self)).
    destruct (for_each (fs ++ [f]) add_frame _) as [[r s2] tr].
    exact IH.
Qed.

End VideoAddFrame.

(** ** C3: the bounded frame queues *)

(** C3, as stated, fails on the video queue: three pushes onto the fresh
    video track (capacity 2) do not leave the last two pictures, because
    [AvatarioVideoTrack.add_frame] empties the queue before it inserts. *)
Lemma C3_video_keeps_only_latest :
  video_items (final (video_pushes three_pictures AvatarioVideoTrack.__init__))
    <> last_n 2 three_pictures.
Proof. vm_compute. discriminate. Qed.

(** C3, amended.  Audio queue (capacity 10): a run of pushes through
    [add_frame] with no pops in between never fails, leaves exactly the
    last 10 of the frames held before and pushed since, in order; when
    more than 10 were pushed these are the last 10 pushed; the length
    never exceeds 10 after any prefix of the run; and a push onto a full
    queue drops exactly the oldest frame.  Video queue (capacity 2):
    [add_frame] clears the queue first, so after any run of pushes it
    holds exactly the last pushed picture. *)
Theorem C3_bounded_queues
    (a : AvatarioAudioTrack.t) (v : AvatarioVideoTrack.t)
    (fs : list AudioFrame) (gs : list VideoFrame) (g : VideoFrame) :
  maxsize (AvatarioAudioTrack.queue a) = 10%Z ->
  length (audio_items a) <= 10 ->
  (outcome (audio_pushes fs a) = Return tt /\
   audio_items (final (audio_pushes fs a))
     = last_n 10 (audio_items a ++ map relabel fs) /\
   (10 < length fs ->
    audio_items (final (audio_pushes fs a)) = last_n 10 (map relabel fs)) /\
   (forall n, length (audio_items (final (audio_pushes (take n fs) a))) <= 10) /\
   (forall f, length (audio_items a) = 10 ->
    audio_items (final (AvatarioAudioTrack.add_frame (Some f) a))
      = tail (audio_items a) ++ [relabel f])) /\
  (outcome (video_pushes (gs ++ [g]) v) = Return tt /\
   video_items (final (video_pushes (gs ++ [g]) v)) = [g]).
Proof.
  intros Hmax Hlen.
  assert (Hcap : within_capacity (AvatarioAudioTrack.queue a)).
  { split; [lia|]. unfold audio_items, len in *. lia. }
  assert (Hrun : forall l,
             outcome (audio_pushes l a) = Return tt /\
             audio_items (final (audio_pushes l a))
               = last_n 10 (audio_items a ++ map relabel l)).
  { intros l. destruct (audio_pushes_spec l a Hcap) as (Ho & _ & Hi).
    split; [exact Ho|]. rewrite Hi, Hmax.
    apply (foldl_push_last_n 10); [lia|exact Hlen]. }
  split; [|apply video_pushes_spec].
  destruct (Hrun fs) as [Ho Hi].
  split; [exact Ho|]. split; [exact Hi|]. split; [|split].
  - intros Hlong. rewrite Hi. apply last_n_app_long.
    rewrite length_map. lia.
  - intros n. destruct (Hrun (take n fs)) as [_ Hn]. rewrite Hn.
    rewrite last_n_length. lia.
  - intros f Hfull. rewrite audio_add_frame_spec by exact Hcap.
    unfold final, audio_items in *. simpl. rewrite Hmax.
    unfold push_drop_oldest. rewrite Hfull. reflexivity.
Qed.

(** The fresh tracks, eleven tones and three pictures. *)
Lemma C3_bounded_queues_witness :
  audio_items (final (audio_pushes eleven_tones AvatarioAudioTrack.__init__))
    = last_n 10 (map relabel eleven_tones) /\
  video_items (final (video_pushes three_pictures AvatarioVideoTrack.__init__))
    = [picture Byte.x03].
Proof.
  destruct (C3_bounded_queues AvatarioAudioTrack.__init__
              AvatarioVideoTrack.__init__ eleven_tones
              (map picture [Byte.x01; Byte.x02]) (picture Byte.x03))
    as [(_ & _ & Hlast & _) (_ & Hvideo)].
  - reflexivity.
  - simpl. lia.
  - split; [apply Hlast; simpl; lia|exact Hvideo].
Defined.

(** ** Cutting a byte string into complete chunks *)

Section WholeChunks.
Context {A : Type}.
Implicit Types (l : list A) (c : nat).

Lemma div_step c n : 0 < c -> c <= n -> n / c = S ((n - c) / c).
Proof.
  intros Hc Hn.
  replace n with ((n - c) + 1 * c) at 1 by lia.
  rewrite Nat.div_add by lia. lia.
Qed.

Lemma whole_chunks_short c l : 0 < c -> length l < c -> whole_chunks c l = [].
Proof.
  intros Hc Hl. unfold whole_chunks. rewrite Nat.div_small by lia. reflexivity.
Qed.

Lemma whole_chunks_step c l :
  0 < c -> c <= length l ->
  whole_chunks c l = take c l :: whole_chunks c (drop c l).
Proof.
  intros Hc Hl. unfold whole_chunks.
  rewrite (div_step c (length l)) by assumption.
  rewrite length_drop. simpl seq. simpl map. f_equal.
  rewrite <- seq_shift, map_map.
  apply map_ext. intros k. rewrite drop_drop. reflexivity.
Qed.

Lemma remainder_short c l : 0 < c -> length l < c -> remainder c l = l.
Proof.
  intros Hc Hl. unfold remainder. rewrite Nat.div_small by lia.
  rewrite Nat.mul_0_r. reflexivity.
Qed.

Lemma remainder_step c l :
  0 < c -> c <= length l -> remainder c l = remainder c (drop c l).
Proof.
  intros Hc Hl. unfold remainder.
  rewrite (div_step c (length l)) by assumption.
  rewrite length_drop, drop_drop. f_equal. lia.
Qed.

Lemma remainder_length c l : 0 < c -> length (remainder c l) < c.
Proof.
  intros Hc. unfold remainder. rewrite length_drop.
  pose proof (Nat.div_mod_eq (length l) c).
  pose proof (Nat.mod_upper_bound (length l) c). lia.
Qed.

Lemma whole_chunks_lengths c l :
  0 < c -> Forall (fun ch => length ch = c) (whole_chunks c l).
Proof.
  intros Hc. unfold whole_chunks. apply Forall_forall. intros ch Hin.
  apply list_elem_of_In, in_map_iff in Hin. destruct Hin as (k & <- & Hk).
  apply in_seq in Hk. rewrite length_take, length_drop.
  pose proof (Nat.div_mod_eq (length l) c).
  assert (S k * c <= length l / c * c) by (apply Nat.mul_le_mono_r; lia).
  lia.
Qed.

(** The chunks and the remainder, put back together, are the input. *)
Lemma whole_chunks_concat c l :
  0 < c -> concat (whole_chunks c l) ++ remainder c l = l.
Proof.
  intros Hc. remember (length l) as n eqn:Hn. revert l Hn.
  induction n as [n IH] using lt_wf_ind. intros l Hn.
  destruct (le_lt_dec c (length l)) as [Hge|Hlt].
  - rewrite whole_chunks_step, remainder_step by assumption.
    simpl concat. rewrite <- app_assoc.
    rewrite (IH (length (drop c l))); [apply take_drop| |reflexivity].
    rewrite length_drop. lia.
  - rewrite whole_chunks_short, remainder_short by assumption. reflexivity.
Qed.

End WholeChunks.

(** ** The audio track as a producer: [add_new_bytes] *)

Section AudioAddNewBytes.
Import AvatarioAudioTrack.
Local Arguments full : simpl never.
Implicit Types (self : t) (chunk data : bytes).

Lemma chunk_size_val : chunk_size = 1920%Z.
Proof. reflexivity. Qed.

Lemma CHUNK_val : Z.of_nat CHUNK = 1920%Z.
Proof. reflexivity. Qed.

Lemma CHUNK_pos : 0 < CHUNK.
Proof. pose proof CHUNK_val. lia. Qed.

(** A complete chunk always builds, silently, into a 960-sample frame. *)
Lemma buildAudioFrames_chunk self chunk :
  length chunk = CHUNK ->
  buildAudioFrames chunk self = (Return (frame_of_chunk chunk), self, []).
Proof.
  intros Hlen.
  assert (Hl : len chunk = 1920%Z) by (unfold len; rewrite Hlen; apply CHUNK_val).
  unfold buildAudioFrames. rewrite Hl. rewrite chunk_size_val.
  change (negb (1920 =? 1920)%Z) with false.
  change (negb (1920 mod 2 =? 0)%Z) with false.
  cbv iota. rewrite Hl. reflexivity.
Qed.

(** Building never fails, whatever the chunk. *)
Lemma buildAudioFrames_returns self chunk :
  exists frame tr, buildAudioFrames chunk self = (Return frame, self, tr).
Proof.
  unfold buildAudioFrames, bind, emit, ret.
  destruct (negb (len chunk =? chunk_size)%Z);
    destruct (negb (len (if negb (len chunk mod 2 =? 0)%Z
                         then chunk ++ [Byte.x00] else chunk) / 2
                    =? samples * channels)%Z); simpl; eauto.
Qed.

(** One iteration of the loop, spelled out. *)
Lemma add_new_bytes_loop_unfold fuel self :
  add_new_bytes_loop (S fuel) self =
    if (chunk_size <=? len (audio_data_buffer self))%Z then
      match enqueue_chunk (take CHUNK (audio_data_buffer self))
              (set_audio_data_buffer (drop CHUNK (audio_data_buffer self)) self)
      with
      | (Return (Some e), s2, tr) => (Return (Broke e), s2, tr)
      | (Return None, s2, tr) =>
          match add_new_bytes_loop fuel s2 with
          | (r, s3, tr3) => (r, s3, tr ++ tr3)
          end
      | (Raise e, s2, tr) => (Raise e, s2, tr)
      | (Blocked, s2, tr) => (Blocked, s2, tr)
      end
    else (Return CondFalse, self, []).
Proof.
  cbn [add_new_bytes_loop]. unfold bind at 1. unfold get at 1.
  destruct (chunk_size <=? len (audio_data_buffer self))%Z; [|reflexivity].
  unfold bind at 1. unfold modify at 1. unfold bind at 1.
  fold (enqueue_chunk (slice_to chunk_size (audio_data_buffer self))).
  change (slice_to chunk_size (audio_data_buffer self))
    with (take CHUNK (audio_data_buffer self)).
  change (slice_from chunk_size (audio_data_buffer self))
    with (drop CHUNK (audio_data_buffer self)).
  destruct (enqueue_chunk _ _) as [[[[e|]|e|] s2] tr]; try reflexivity.
  - unfold ret. rewrite app_nil_r. reflexivity.
  - destruct (add_new_bytes_loop fuel s2) as [[r s3] tr3]. reflexivity.
Qed.

(** The guarded part is: build the frame, then [evict_then_put] on the
    queue, with an exception turned into the reason of the [break]. *)
Lemma enqueue_chunk_eq self chunk :
  enqueue_chunk chunk self =
    match buildAudioFrames chunk self with
    | (Return frame, s1, tr) =>
        match evict_then_put frame (queue s1) with
        | (Return _, q2, tr2) => (Return None, set_queue q2 s1, tr ++ tr2)
        | (Raise e, q2, tr2) => (Return (Some e), set_queue q2 s1, tr ++ tr2)
        | (Blocked, q2, tr2) => (Blocked, set_queue q2 s1, tr ++ tr2)
        end
    | (Raise e, s1, tr) => (Return (Some e), s1, tr)
    | (Blocked, s1, tr) => (Blocked, s1, tr)
    end.
Proof.
  unfold enqueue_chunk, try_except, bind, get.
  destruct (buildAudioFrames chunk self) as [[[frame|e|] s1] tr];
    [|unfold ret; rewrite app_nil_r; reflexivity|reflexivity].
  destruct s1 as [ts [c items] buf ft st sst rs].
  unfold evict_then_put, bind, get, on_queue, zoom, ret, get_nowait, put_nowait.
  simpl.
  destruct (full (mkQueue c items)) eqn:Hfull; simpl.
  - destruct items as [|y rest]; simpl; [rewrite !app_nil_r; reflexivity|].
    destruct (full (mkQueue c rest)) eqn:Hfull'; simpl;
      rewrite ?app_nil_r; reflexivity.
  - rewrite Hfull. simpl. rewrite ?app_nil_r. reflexivity.
Qed.

(** The guarded part never touches the raw-byte buffer and never lets an
    exception out. *)
Lemma enqueue_chunk_buffer self chunk :
  audio_data_buffer (final (enqueue_chunk chunk self)) = audio_data_buffer self /\
  outcome (enqueue_chunk chunk self) <> Blocked /\
  forall e, outcome (enqueue_chunk chunk self) <> Raise e.
Proof.
  rewrite enqueue_chunk_eq.
  destruct (buildAudioFrames_returns self chunk) as (frame & tr & ->).
  unfold evict_then_put, bind, get, ret, get_nowait, put_nowait, outcome, final.
  destruct (full (queue self)) eqn:Hfull.
  - destruct (_queue (queue self)) as [|y rest]; simpl; [repeat split; discriminate|].
    destruct (full (mkQueue (maxsize (queue self)) rest));
      simpl; repeat split; discriminate.
  - rewrite Hfull. simpl. repeat split; discriminate.
Qed.

Lemma enqueue_chunk_capacity self chunk :
  length chunk = CHUNK ->
  within_capacity (queue self) ->
  enqueue_chunk chunk self =
    (Return None,
     set_queue (mkQueue (maxsize (queue self))
                  (push_drop_oldest (Z.to_nat (maxsize (queue self)))
                     (audio_items self) (frame_of_chunk chunk))) self,
     []).
Proof.
  intros Hlen Hcap. rewrite enqueue_chunk_eq.
  rewrite (buildAudioFrames_chunk self chunk Hlen).
  rewrite evict_then_put_spec by exact Hcap. reflexivity.
Qed.

Lemma chunk_test (buf : bytes) :
  (chunk_size <=? len buf)%Z = (CHUNK <=? length buf).
Proof.
  rewrite chunk_size_val. unfold len. pose proof CHUNK_val.
  destruct (Z.leb_spec 1920 (Z.of_nat (length buf)));
    destruct (Nat.leb_spec CHUNK (length buf)); try reflexivity; lia.
Qed.

(** When the loop is left because its condition fails, what remains in
    the buffer is the remainder of what was there. *)
Lemma add_new_bytes_loop_residual fuel : forall self,
  length (audio_data_buffer self) < fuel ->
  outcome (add_new_bytes_loop fuel self) = Return CondFalse ->
  audio_data_buffer (final (add_new_bytes_loop fuel self))
    = remainder CHUNK (audio_data_buffer self).
Proof.
  pose proof CHUNK_pos as Hc.
  induction fuel as [|fuel IH]; intros self Hfuel; [lia|].
  rewrite add_new_bytes_loop_unfold, chunk_test.
  destruct (Nat.leb_spec CHUNK (length (audio_data_buffer self))) as [Hge|Hlt].
  - destruct (enqueue_chunk_buffer
                (set_audio_data_buffer (drop CHUNK (audio_data_buffer self)) self)
                (take CHUNK (audio_data_buffer self))) as (Hbuf & _ & _).
    destruct (enqueue_chunk _ _) as [[[[e|]|e|] s2] tr];
      unfold outcome, final in *; simpl in *; try discriminate.
    specialize (IH s2).
    destruct (add_new_bytes_loop fuel s2) as [[r s3] tr3]. simpl in *.
    intros Hr.
    rewrite IH; [|rewrite Hbuf, length_drop; lia|exact Hr].
    rewrite Hbuf. symmetry. apply remainder_step; assumption.
  - intros _. unfold final. simpl. symmetry. apply remainder_short; assumption.
Qed.

(** With the queue within its capacity the loop never breaks: it turns
    every complete chunk into a frame and pushes it. *)
Lemma add_new_bytes_loop_capacity fuel : forall self,
  length (audio_data_buffer self) < fuel ->
  within_capacity (queue self) ->
  add_new_bytes_loop fuel self =
    (Return CondFalse,
     set_audio_data_buffer (remainder CHUNK (audio_data_buffer self))
       (set_queue
          (mkQueue (maxsize (queue self))
             (foldl (push_drop_oldest (Z.to_nat (maxsize (queue self))))
                (audio_items self)
                (map frame_of_chunk (whole_chunks CHUNK (audio_data_buffer self)))))
          self),
     []).
Proof.
  pose proof CHUNK_pos as Hc.
  induction fuel as [|fuel IH]; intros self Hfuel Hcap; [lia|].
  rewrite add_new_bytes_loop_unfold, chunk_test.
  destruct (Nat.leb_spec CHUNK (length (audio_data_buffer self))) as [Hge|Hlt].
  - rewrite enqueue_chunk_capacity;
      [|rewrite length_take; lia|exact Hcap].
    rewrite IH.
    + rewrite (whole_chunks_step CHUNK (audio_data_buffer self)) by assumption.
      rewrite (remainder_step CHUNK (audio_data_buffer self)) by assumption.
      destruct self as [ts [c items] buf ft st sst rs]. reflexivity.
    + simpl. rewrite length_drop. lia.
    + apply (within_capacity_push (queue self) _ Hcap).
  - rewrite whole_chunks_short, remainder_short by assumption.
    destruct self as [ts [c items] buf ft st sst rs]. reflexivity.
Qed.

(** The fuel handed to the loop is never used up: the loop is left
    because its condition fails or through the [break]. *)
Lemma add_new_bytes_loop_exits fuel : forall self,
  length (audio_data_buffer self) < fuel ->
  outcome (add_new_bytes_loop fuel self) = Return CondFalse \/
  exists e, outcome (add_new_bytes_loop fuel self) = Return (Broke e).
Proof.
  pose proof CHUNK_pos as Hc.
  induction fuel as [|fuel IH]; intros self Hfuel; [lia|].
  rewrite add_new_bytes_loop_unfold, chunk_test.
  destruct (Nat.leb_spec CHUNK (length (audio_data_buffer self))) as [Hge|Hlt];
    [|left; reflexivity].
  destruct (enqueue_chunk_buffer
              (set_audio_data_buffer (drop CHUNK (audio_data_buffer self)) self)
              (take CHUNK (audio_data_buffer self))) as (Hbuf & Hnb & Hnr).
  destruct (enqueue_chunk _ _) as [[[[e|]|e|] s2] tr];
    unfold outcome, final in *; simpl in *.
  - right. exists e. reflexivity.
  - specialize (IH s2).
    destruct (add_new_bytes_loop fuel s2) as [[r s3] tr3]. simpl in *.
    apply IH. rewrite Hbuf, length_drop. lia.
  - exfalso. apply (Hnr e). reflexivity.
  - exfalso. apply Hnb. reflexivity.
Qed.

Lemma add_new_bytes_unfold self data :
  add_new_bytes data self =
    add_new_bytes_loop (S (length (audio_data_buffer self ++ data)))
      (set_audio_data_buffer (audio_data_buffer self ++ data) self).
Proof.
  unfold add_new_bytes, bind, modify, get. cbv beta iota.
  change (audio_data_buffer (set_audio_data_buffer
            (audio_data_buffer self ++ data) self))
    with (audio_data_buffer self ++ data).
  destruct (add_new_bytes_loop (S (length (audio_data_buffer self ++ data))) _)
    as [[r s] tr]. reflexivity.
Qed.

Lemma add_new_bytes_exits self data :
  outcome (add_new_bytes data self) = Return CondFalse \/
  exists e, outcome (add_new_bytes data self) = Return (Broke e).
Proof.
  rewrite add_new_bytes_unfold. apply add_new_bytes_loop_exits. simpl. lia.
Qed.

(** On a track whose queue is within its capacity, [add_new_bytes] never
    breaks out of its loop and prints nothing. *)
Lemma add_new_bytes_returns self data :
  within_capacity (queue self) ->
  outcome (add_new_bytes data self) = Return CondFalse /\
  effects (add_new_bytes data self) = [].
Proof.
  intros Hcap. rewrite add_new_bytes_unfold.
  rewrite add_new_bytes_loop_capacity; [split; reflexivity|simpl; lia|exact Hcap].
Qed.

End AudioAddNewBytes.

(** ** C10: the raw-byte buffer of the audio track *)

(** C10.  [add_new_bytes] always returns: it leaves its loop because the
    buffer got short or through the [break] after an error.  When it
    returns without that error, fewer than [chunk_size] = 1920 bytes stay
    in the raw-byte buffer: they are what is left of the old buffer
    followed by the new bytes after its complete leading 1920-byte
    chunks, and chunks and remainder together are that byte string.  On a
    track whose queue is within its capacity no such error occurs, and
    the frames of these chunks were pushed in order behind the frames
    already queued, the queue keeping the last [maxsize]. *)
Theorem C10_add_new_bytes_buffer (self : AvatarioAudioTrack.t) (data : bytes) :
  let buffered := AvatarioAudioTrack.audio_data_buffer self ++ data in
  let after := final (AvatarioAudioTrack.add_new_bytes data self) in
  (outcome (AvatarioAudioTrack.add_new_bytes data self) = Return CondFalse \/
   exists e,
     outcome (AvatarioAudioTrack.add_new_bytes data self) = Return (Broke e)) /\
  (outcome (AvatarioAudioTrack.add_new_bytes data self) = Return CondFalse ->
   (len (AvatarioAudioTrack.audio_data_buffer after)
      < AvatarioAudioTrack.chunk_size)%Z /\
   AvatarioAudioTrack.audio_data_buffer after = remainder CHUNK buffered /\
   concat (whole_chunks CHUNK buffered)
     ++ AvatarioAudioTrack.audio_data_buffer after = buffered /\
   Forall (fun ch => len ch = AvatarioAudioTrack.chunk_size)
     (whole_chunks CHUNK buffered)) /\
  (within_capacity (AvatarioAudioTrack.queue self) ->
   outcome (AvatarioAudioTrack.add_new_bytes data self) = Return CondFalse /\
   audio_items after
     = last_n (Z.to_nat (maxsize (AvatarioAudioTrack.queue self)))
         (audio_items self ++ map frame_of_chunk (whole_chunks CHUNK buffered))).
Proof.
  intros buffered after.
  pose proof CHUNK_pos as Hc. pose proof CHUNK_val as Hv.
  split; [apply add_new_bytes_exits|]. split.
  - intros Hret.
    assert (Hres : AvatarioAudioTrack.audio_data_buffer after
                   = remainder CHUNK buffered).
    { subst after. revert Hret. rewrite add_new_bytes_unfold. intros Hret.
      rewrite add_new_bytes_loop_residual; [reflexivity|simpl; lia|exact Hret]. }
    split; [|split; [exact Hres|split]].
    + rewrite Hres, chunk_size_val. unfold len.
      pose proof (remainder_length CHUNK buffered Hc). lia.
    + rewrite Hres. apply whole_chunks_concat, Hc.
    + eapply Forall_impl; [apply whole_chunks_lengths, Hc|].
      intros ch Hch. simpl in Hch. unfold len. rewrite Hch, chunk_size_val. exact Hv.
  - intros Hcap. split; [apply add_new_bytes_returns, Hcap|].
    subst after. rewrite add_new_bytes_unfold.
    rewrite add_new_bytes_loop_capacity; [|simpl; lia|exact Hcap].
    unfold final, audio_items. simpl.
    destruct Hcap as [Hpos Hle]. unfold len in Hle.
    apply foldl_push_last_n; lia.
Qed.

(** The fresh track fed 2000 bytes keeps 80 of them and queues one frame. *)
Lemma C10_add_new_bytes_buffer_witness :
  (len (AvatarioAudioTrack.audio_data_buffer
          (final (AvatarioAudioTrack.add_new_bytes two_thousand_bytes
                    AvatarioAudioTrack.__init__)))
     < AvatarioAudioTrack.chunk_size)%Z /\
  audio_items (final (AvatarioAudioTrack.add_new_bytes two_thousand_bytes
                        AvatarioAudioTrack.__init__))
    = last_n 10 (map frame_of_chunk (whole_chunks CHUNK two_thousand_bytes)).
Proof.
  destruct (C10_add_new_bytes_buffer AvatarioAudioTrack.__init__ two_thousand_bytes)
    as (_ & Hbuf & Hq).
  assert (Hcap : within_capacity
                   (AvatarioAudioTrack.queue AvatarioAudioTrack.__init__))
    by (split; simpl; unfold len; simpl; lia).
  destruct (Hq Hcap) as (Hret & Hitems).
  destruct (Hbuf Hret) as (Hlt & _).
  split; [exact Hlt|exact Hitems].
Defined.

(** ** Invariants kept by a computation *)

Section Preserves.
Context {S : Type} (I : S -> Prop).

Lemma preserves_ret {A} (a : A) : preserves I (ret a).
Proof. intros s H. exact H. Qed.

Lemma preserves_raise {A} e : preserves I (@raise S A e).
Proof. intros s H. exact H. Qed.

Lemma preserves_emit ev : preserves I (emit ev).
Proof. intros s H. exact H. Qed.

Lemma preserves_get : preserves I get.
Proof. intros s H. exact H. Qed.

Lemma preserves_modify (f : S -> S) :
  (forall s, I s -> I (f s)) -> preserves I (modify f).
Proof. intros Hf s H. apply Hf, H. Qed.

Lemma preserves_bind {A B} (m : M S A) (k : A -> M S B) :
  preserves I m -> (forall a, preserves I (k a)) -> preserves I (bind m k).
Proof.
  intros Hm Hk s H. unfold bind. specialize (Hm s H).
  destruct (m s) as [[[a|e|] s1] tr1]; unfold final in *; simpl in *; try exact Hm.
  specialize (Hk a s1 Hm). destruct (k a s1) as [[r s2] tr2]. exact Hk.
Qed.

Lemma preserves_try_except {A} (m : M S A) (h : exn -> M S A) :
  preserves I m -> (forall e, preserves I (h e)) -> preserves I (try_except m h).
Proof.
  intros Hm Hh s H. unfold try_except. specialize (Hm s H).
  destruct (m s) as [[[a|e|] s1] tr1]; unfold final in *; simpl in *; try exact Hm.
  specialize (Hh e s1 Hm). destruct (h e s1) as [[r s2] tr2]. exact Hh.
Qed.

Lemma preserves_if {A} (b : bool) (m1 m2 : M S A) :
  preserves I m1 -> preserves I m2 -> preserves I (if b then m1 else m2).
Proof. destruct b; auto. Qed.

Lemma preserves_for_each {A} (xs : list A) (body : A -> M S unit) :
  (forall x, preserves I (body x)) -> preserves I (for_each xs body).
Proof.
  intros Hb. induction xs as [|x xs IH]; simpl.
  - apply preserves_ret.
  - apply preserves_bind; [apply Hb|intros _; exact IH].
Qed.

(** A computation on a component keeps the invariant when the component
    carries it. *)
Lemma preserves_zoom {T A} (J : T -> Prop) (proj : S -> T) (upd : T -> S -> S)
    (m : M T A) :
  preserves J m ->
  (forall s, I s -> J (proj s)) ->
  (forall t s, J t -> I (upd t s)) ->
  preserves I (zoom proj upd m).
Proof.
  intros Hm Hproj Hupd s H. unfold zoom. specialize (Hm (proj s) (Hproj s H)).
  destruct (m (proj s)) as [[r t1] tr]. apply Hupd. exact Hm.
Qed.

(** A computation on a component the invariant does not read. *)
Lemma preserves_zoom_frame {T A} (proj : S -> T) (upd : T -> S -> S) (m : M T A) :
  (forall t s, I s -> I (upd t s)) -> preserves I (zoom proj upd m).
Proof.
  intros Hupd s H. unfold zoom. destruct (m (proj s)) as [[r t1] tr].
  apply Hupd, H.
Qed.

End Preserves.

Create HintDb preserves.
#[local] Hint Resolve preserves_ret preserves_raise preserves_emit preserves_get
  : preserves.

(** Walk through a computation built from the pieces above. *)
Ltac preserves_step :=
  first
    [ apply preserves_bind; [|intros ?]
    | apply preserves_try_except; [|intros ?]
    | apply preserves_if
    | apply preserves_for_each; intros ?
    | solve [auto with preserves]
    | apply preserves_modify; solve [intros; assumption | intros [] ; auto]
    | apply preserves_zoom_frame; solve [intros; assumption]
    | match goal with
      | |- preserves _ (match ?x with _ => _ end) => destruct x
      end ].

(** ** The producer side leaves the pacing state alone *)

Section Pacing.
Import AvatarioAudioTrack.

Lemma keeps_pacing_interrupt_loop fuel : keeps_pacing (interrupt_loop fuel).
Proof.
  intros p. induction fuel as [|fuel IH]; simpl; repeat preserves_step.
Qed.

Lemma keeps_pacing_interrupt : keeps_pacing interrupt.
Proof.
  intros p. unfold interrupt. repeat preserves_step.
  apply keeps_pacing_interrupt_loop.
Qed.

Lemma keeps_pacing_buildAudioFrames chunk : keeps_pacing (buildAudioFrames chunk).
Proof. intros p. unfold buildAudioFrames. repeat preserves_step. Qed.

Lemma keeps_pacing_add_new_bytes_loop fuel : keeps_pacing (add_new_bytes_loop fuel).
Proof.
  intros p. induction fuel as [|fuel IH]; simpl; repeat preserves_step;
    apply keeps_pacing_buildAudioFrames.
Qed.

Lemma keeps_pacing_add_new_bytes data : keeps_pacing (add_new_bytes data).
Proof.
  intros p. unfold add_new_bytes. repeat preserves_step.
  apply keeps_pacing_add_new_bytes_loop.
Qed.

Lemma keeps_pacing_add_frame frame : keeps_pacing (add_frame frame).
Proof. intros p. unfold add_frame. destruct frame; repeat preserves_step. Qed.

Lemma run_producer_op_pacing op s : pacing (run_producer_op op s) = pacing s.
Proof.
  destruct op; simpl.
  - apply (keeps_pacing_add_frame frame (pacing s) s). reflexivity.
  - apply (keeps_pacing_add_new_bytes audio_data (pacing s) s). reflexivity.
  - apply (keeps_pacing_interrupt (pacing s) s). reflexivity.
Qed.

Lemma run_producer_ops_pacing ops : forall s,
  pacing (foldl (fun s op => run_producer_op op s) s ops) = pacing s.
Proof.
  induction ops as [|op ops IH]; intros s; [reflexivity|].
  simpl. rewrite IH. apply run_producer_op_pacing.
Qed.

End Pacing.

(** ** The audio pacer: [recv] *)

Section Recv.
Import AvatarioAudioTrack.
Implicit Types (s : t).

Lemma silence_frame_payload :
  plane _create_silence_frame = zeros 1920 /\
  len (plane _create_silence_frame) = (samples * channels * 2)%Z /\
  Av.samples _create_silence_frame = 960%Z /\
  layout _create_silence_frame = "mono" /\
  pts _create_silence_frame = None.
Proof. repeat split. Qed.

(** A track that is not live answers with an unstamped silence frame and
    does not advance. *)
Lemma recv_not_live s t1 t2 :
  readyState s <> "live" ->
  recv t1 t2 s =
    (Return _create_silence_frame, s, [Traceback MediaStreamError]).
Proof.
  intros Hrs. apply String.eqb_neq in Hrs.
  unfold recv, recv_try, try_except, bind, get. rewrite Hrs. reflexivity.
Qed.

(** A live track answers with a frame stamped [next_pts]: the oldest
    queued frame, or silence when the queue is empty. *)
Lemma recv_live s t1 t2 :
  readyState s = "live" ->
  exists f,
    outcome (recv t1 t2 s) = Return f /\
    pts f = Some (next_pts s) /\
    time_base f = Some time_base_fraction /\
    Av.sample_rate f = sample_rate /\
    plane f = match audio_items s with
              | [] => zeros 1920
              | x :: _ => plane x
              end /\
    audio_items (final (recv t1 t2 s)) = tail (audio_items s) /\
    readyState (final (recv t1 t2 s)) = "live" /\
    next_pts (final (recv t1 t2 s)) = (next_pts s + samples)%Z.
Proof.
  intros Hrs. destruct s as [ts [c items] buf ft st sst rs].
  simpl in Hrs. subst rs.
  unfold recv, recv_try, try_except, bind, get, modify, ret, emit, on_queue,
    zoom, get_nowait, outcome, final, next_pts, audio_items.
  simpl.
  destruct st as [start|]; simpl.
  - destruct (Qle_bool _ 0); simpl; destruct items as [|x rest]; simpl;
      eexists; repeat split.
  - destruct (Qle_bool _ 0); simpl; destruct items as [|x rest]; simpl;
      eexists; repeat split.
Qed.

End Recv.

(** ** C1 and C2: the pts sequence and the liveness of [recv] *)

Section Pulls.
Import AvatarioAudioTrack.

Lemma pacing_next_pts s s' : pacing s' = pacing s -> next_pts s' = next_pts s.
Proof.
  unfold pacing, next_pts. intros H. injection H as -> -> _. reflexivity.
Qed.

Lemma pacing_readyState s s' :
  pacing s' = pacing s -> readyState s' = readyState s.
Proof. unfold pacing. intros H. injection H as _ _ ->. reflexivity. Qed.

(** From a live track on, consecutive pulls stamp an arithmetic sequence
    of step [samples], whatever the producer does in between. *)
Lemma pulls_pts ps : forall s,
  readyState s = "live" ->
  map pts_of (pulls ps s).1 =
    map (fun k => Some (next_pts s + samples * Z.of_nat k)%Z) (seq 0 (length ps)).
Proof.
  induction ps as [|p ps IH]; intros s Hlive; [reflexivity|].
  cbn [pulls].
  set (s1 := foldl (fun s op => run_producer_op op s) s (before p)).
  assert (Hp : pacing s1 = pacing s) by apply run_producer_ops_pacing.
  assert (Hlive1 : readyState s1 = "live")
    by (rewrite (pacing_readyState _ _ Hp); exact Hlive).
  destruct (recv_live s1 (t_first p) (t_now p) Hlive1)
    as (f & Hf & Hpts & _ & _ & _ & _ & Hlive2 & Hnext).
  specialize (IH (final (recv (t_first p) (t_now p) s1)) Hlive2).
  destruct (pulls ps (final (recv (t_first p) (t_now p) s1))) as [frames s2].
  cbn [fst map length seq] in *. rewrite Hf. cbn [pts_of].
  rewrite Hpts, (pacing_next_pts _ _ Hp). f_equal.
  - f_equal. lia.
  - rewrite IH, Hnext, (pacing_next_pts _ _ Hp).
    rewrite <- seq_shift, map_map. apply map_ext. intros k. f_equal. lia.
Qed.

Lemma pulls_return ps : forall s,
  readyState s = "live" ->
  Forall (fun r => exists f, r = Return f) (pulls ps s).1.
Proof.
  induction ps as [|p ps IH]; intros s Hlive; [constructor|].
  cbn [pulls].
  set (s1 := foldl (fun s op => run_producer_op op s) s (before p)).
  assert (Hp : pacing s1 = pacing s) by apply run_producer_ops_pacing.
  assert (Hlive1 : readyState s1 = "live")
    by (rewrite (pacing_readyState _ _ Hp); exact Hlive).
  destruct (recv_live s1 (t_first p) (t_now p) Hlive1)
    as (f & Hf & _ & _ & _ & _ & _ & Hlive2 & _).
  specialize (IH (final (recv (t_first p) (t_now p) s1)) Hlive2).
  destruct (pulls ps (final (recv (t_first p) (t_now p) s1))) as [frames s2].
  cbn [fst] in *. constructor; [eauto|exact IH].
Qed.

End Pulls.

(** C1, as stated, fails on a track that is not live: the first pull of a
    stopped track returns a silence frame that carries no pts at all. *)
Lemma C1_stopped_track_unstamped :
  map pts_of (pulls [idle_pull]
                (AvatarioAudioTrack.stop AvatarioAudioTrack.__init__)).1
    <> [Some 0%Z].
Proof. vm_compute. discriminate. Qed.

(** C1, amended.  On a track that is live and has not been pulled yet,
    K consecutive pulls all return a frame, and the pts stamped on them
    are 0, 960, ..., 960*(K-1), whatever the producer pushed, fed or
    flushed before each pull, hence whether the frame came from the queue
    or is silence. *)
Theorem C1_pts_sequence (ps : list pull) (s : AvatarioAudioTrack.t) :
  AvatarioAudioTrack.readyState s = "live" ->
  AvatarioAudioTrack._start_time s = None ->
  Forall (fun r => exists f, r = Return f) (pulls ps s).1 /\
  map pts_of (pulls ps s).1 =
    map (fun k => Some (960 * Z.of_nat k)%Z) (seq 0 (length ps)).
Proof.
  intros Hlive Hfresh. split; [apply pulls_return, Hlive|].
  rewrite pulls_pts by exact Hlive.
  unfold next_pts. rewrite Hfresh. reflexivity.
Qed.

(** Three pulls of the fresh track: silence, a queued tone, silence again
    after the interrupt; stamped 0, 960, 1920. *)
Lemma C1_pts_sequence_witness :
  map pts_of (pulls three_pulls AvatarioAudioTrack.__init__).1
    = [Some 0%Z; Some 960%Z; Some 1920%Z].
Proof.
  apply (C1_pts_sequence three_pulls AvatarioAudioTrack.__init__);
    reflexivity.
Defined.

(** C2.  [recv] returns a frame from every state of the track and with
    every clock reading: no exception leaves it and it never suspends for
    good.  When the queue is empty at the pull the frame is silence: its
    payload is [samples * channels * 2] = 1920 zero bytes. *)
Theorem C2_recv_always_returns (s : AvatarioAudioTrack.t) (t1 t2 : Q) :
  exists f,
    outcome (AvatarioAudioTrack.recv t1 t2 s) = Return f /\
    (audio_items s = [] ->
     plane f = zeros 1920 /\
     len (plane f) = (AvatarioAudioTrack.samples * AvatarioAudioTrack.channels * 2)%Z /\
     len (plane f) = 1920%Z /\
     Forall (fun b => b = Byte.x00) (plane f)).
Proof.
  assert (Hz : len (zeros 1920) = 1920%Z /\
               Forall (fun b => b = Byte.x00) (zeros 1920)).
  { split; [reflexivity|]. unfold zeros. apply Forall_replicate. reflexivity. }
  destruct (decide (AvatarioAudioTrack.readyState s = "live")) as [Hlive|Hdead].
  - destruct (recv_live s t1 t2 Hlive) as (f & Hf & _ & _ & _ & Hplane & _).
    exists f. split; [exact Hf|]. intros Hempty. rewrite Hempty in Hplane.
    rewrite Hplane. destruct Hz as [Hlen Hall]. repeat split; assumption.
  - rewrite (recv_not_live s t1 t2 Hdead).
    exists AvatarioAudioTrack._create_silence_frame.
    split; [reflexivity|]. intros _.
    destruct silence_frame_payload as (Hplane & _). rewrite Hplane.
    destruct Hz as [Hlen Hall]. repeat split; assumption.
Qed.

(** The fresh track, pulled with nothing queued. *)
Lemma C2_recv_always_returns_witness :
  exists f,
    outcome (AvatarioAudioTrack.recv 0 0 AvatarioAudioTrack.__init__) = Return f /\
    plane f = zeros 1920.
Proof.
  destruct (C2_recv_always_returns AvatarioAudioTrack.__init__ 0 0)
    as (f & Hf & Hsilence).
  exists f. split; [exact Hf|]. apply Hsilence. reflexivity.
Defined.

(** ** Chunking with a shorter final chunk, and [range] *)

Section ChunksOf.
Context {A : Type}.
Implicit Types (l : list A) (c : nat).

Lemma chunks_of_nil c : 0 < c -> chunks_of c (@nil A) = [].
Proof.
  intros Hc. unfold chunks_of.
  rewrite whole_chunks_short, remainder_short by (simpl; lia). reflexivity.
Qed.

Lemma chunks_of_step c l :
  0 < c -> l <> [] -> chunks_of c l = take c l :: chunks_of c (drop c l).
Proof.
  intros Hc Hl. unfold chunks_of.
  destruct (le_lt_dec c (length l)) as [Hge|Hlt].
  - rewrite whole_chunks_step, (remainder_step c l) by assumption. reflexivity.
  - rewrite whole_chunks_short, remainder_short by assumption.
    rewrite take_ge, drop_ge by lia.
    rewrite whole_chunks_short, remainder_short by (simpl; lia).
    destruct l; [contradiction|reflexivity].
Qed.

Lemma chunks_of_concat c l : 0 < c -> concat (chunks_of c l) = l.
Proof.
  intros Hc. unfold chunks_of. rewrite concat_app.
  rewrite <- (whole_chunks_concat c l Hc) at 3. f_equal.
  destruct (remainder c l); simpl; [reflexivity|].
  rewrite app_nil_r. reflexivity.
Qed.

(** Every chunk is non-empty and at most [c] long. *)
Lemma chunks_of_bounds c l :
  0 < c -> Forall (fun ch => 0 < length ch <= c) (chunks_of c l).
Proof.
  intros Hc. unfold chunks_of. apply Forall_app. split.
  - eapply Forall_impl; [apply whole_chunks_lengths, Hc|].
    intros ch Hch. simpl in Hch. lia.
  - pose proof (remainder_length c l Hc) as Hr.
    destruct (remainder c l) as [|x rest]; constructor; [|constructor].
    simpl in *. lia.
Qed.

Lemma chunks_of_length c l :
  0 < c ->
  length (chunks_of c l) =
    length l / c + (if length l mod c =? 0 then 0 else 1).
Proof.
  intros Hc. unfold chunks_of. rewrite length_app.
  unfold whole_chunks at 1. rewrite length_map, length_seq. f_equal.
  assert (Hr : length (remainder c l) = length l mod c).
  { unfold remainder. rewrite length_drop.
    pose proof (Nat.div_mod_eq (length l) c). lia. }
  destruct (remainder c l) as [|x rest]; simpl in Hr; rewrite <- Hr; reflexivity.
Qed.

End ChunksOf.

Section Range.

Lemma range_nil start stop step :
  (0 < step)%Z -> (stop <= start)%Z -> range start stop step = [].
Proof.
  intros Hstep Hle. unfold range.
  replace (Z.to_nat ((stop - start + step - 1) / step)) with 0; [reflexivity|].
  assert ((stop - start + step - 1) / step <= 0)%Z; [|lia].
  apply Z.lt_succ_r. apply Z.div_lt_upper_bound; lia.
Qed.

Lemma range_cons start stop step :
  (0 < step)%Z -> (start < stop)%Z ->
  range start stop step = start :: range (start + step) stop step.
Proof.
  intros Hstep Hlt. unfold range.
  replace (stop - start + step - 1)%Z
    with ((stop - (start + step) + step - 1) + 1 * step)%Z by lia.
  rewrite Z.div_add by lia.
  assert (0 <= (stop - (start + step) + step - 1) / step)%Z
    by (apply Z.div_pos; lia).
  rewrite Z2Nat.inj_add by lia.
  rewrite Nat.add_comm. change (Z.to_nat 1) with 1. simpl seq. simpl map.
  f_equal; [lia|].
  rewrite <- seq_shift, map_map. apply map_ext. intros k. lia.
Qed.

(** The slices a [for i in range(0, len(data), c)] loop takes are the
    chunks of the data. *)
Lemma range_slices {A} (c : Z) (data : list A) :
  (0 < c)%Z ->
  forall n start,
    length data - Z.to_nat start <= n -> (0 <= start)%Z ->
    map (fun i => slice i (i + c) data) (range start (len data) c)
      = chunks_of (Z.to_nat c) (drop (Z.to_nat start) data).
Proof.
  intros Hc. induction n as [|n IH]; intros start Hn Hstart.
  - rewrite range_nil by (unfold len; lia).
    rewrite drop_ge by lia. rewrite chunks_of_nil by lia. reflexivity.
  - destruct (Z_lt_le_dec start (len data)) as [Hlt|Hge].
    + rewrite range_cons by assumption. simpl map.
      rewrite IH by (unfold len in *; lia).
      rewrite (chunks_of_step (Z.to_nat c) (drop (Z.to_nat start) data)).
      * unfold slice. replace (start + c - start)%Z with c by lia.
        rewrite drop_drop, Z2Nat.inj_add by lia. reflexivity.
      * lia.
      * intros Hnil. apply (f_equal length) in Hnil.
        rewrite length_drop in Hnil. unfold len in Hlt. simpl in Hnil. lia.
    + rewrite range_nil by assumption.
      rewrite drop_ge by (unfold len in Hge; lia).
      rewrite chunks_of_nil by lia. reflexivity.
Qed.

End Range.

(** ** The speech chunker: [handle_audio_input] *)

Section Chunker.
Import AvatarioAvatar.
Implicit Types (self : t) (data : bytes).

Lemma parity_test data :
  negb (len data mod 2 =? 0)%Z = Nat.odd (length data).
Proof.
  unfold len. destruct (Nat.Even_or_Odd (length data)) as [[m Hm]|[m Hm]].
  - rewrite Hm at 2. rewrite Nat.odd_even.
    replace (Z.of_nat (length data)) with (0 + Z.of_nat m * 2)%Z by lia.
    rewrite Z_mod_plus_full. reflexivity.
  - rewrite Hm at 2. rewrite Nat.odd_odd.
    replace (Z.of_nat (length data)) with (1 + Z.of_nat m * 2)%Z by lia.
    rewrite Z_mod_plus_full. reflexivity.
Qed.

Lemma with_tts_items_same self : with_tts_items (tts_items self) self = self.
Proof.
  destruct self as [a b c d e f g h i j [[m items] oa ov k] l n o p].
  reflexivity.
Qed.

Lemma with_tts_items_twice l1 l2 self :
  with_tts_items l2 (with_tts_items l1 self) = with_tts_items l2 self.
Proof. reflexivity. Qed.

Lemma put_chunk (chunk : bytes) self :
  (maxsize (tts_audio (ipc_data self)) <= 0)%Z ->
  zoom ipc_data set_ipc_data
    (zoom tts_audio set_tts_audio (queue_put chunk)) self
  = (Return tt, with_tts_items (tts_items self ++ [chunk]) self, []).
Proof.
  intros Hmax. unfold zoom, queue_put. cbv beta.
  rewrite (full_unbounded _ Hmax). reflexivity.
Qed.

(** On an unbounded relay queue the loop appends every slice, in order,
    and nothing else happens. *)
Lemma put_slices data (indices : list Z) : forall self,
  (maxsize (tts_audio (ipc_data self)) <= 0)%Z ->
  for_each indices
    (fun i =>
       zoom ipc_data set_ipc_data
         (zoom tts_audio set_tts_audio (queue_put (slice i (i + 6000) data))))
    self
  = (Return tt,
     with_tts_items
       (tts_items self ++ map (fun i => slice i (i + 6000) data) indices) self,
     []).
Proof.
  induction indices as [|i indices IH]; intros self Hmax.
  - simpl. rewrite app_nil_r, with_tts_items_same. reflexivity.
  - rewrite for_each_cons, put_chunk by exact Hmax.
    rewrite IH by exact Hmax.
    rewrite with_tts_items_twice. unfold tts_items at 1. simpl.
    rewrite <- app_assoc. reflexivity.
Qed.

Lemma _send_audio_data_spec data self :
  (maxsize (tts_audio (ipc_data self)) <= 0)%Z ->
  _send_audio_data data self =
    (Return tt,
     with_tts_items (tts_items self ++ chunks_of TTS_CHUNK data) self, []).
Proof.
  intros Hmax. unfold _send_audio_data, try_except.
  rewrite put_slices by exact Hmax.
  rewrite (range_slices 6000 data ltac:(lia) (length data) 0%Z) by lia.
  reflexivity.
Qed.

Lemma handle_audio_input_ready data self :
  run self = true -> _stopping self = false -> ready self = true ->
  (maxsize (tts_audio (ipc_data self)) <= 0)%Z ->
  handle_audio_input data self =
    (Return tt,
     with_tts_items (tts_items self ++ chunks_of TTS_CHUNK (padded data)) self,
     []).
Proof.
  intros Hrun Hstop Hready Hmax.
  unfold handle_audio_input, bind, get. rewrite Hrun, Hstop, Hready. simpl.
  unfold try_except. rewrite parity_test. fold (padded data).
  rewrite _send_audio_data_spec by exact Hmax. reflexivity.
Qed.

End Chunker.

(** ** C6: padding and chunking of the speech audio *)

(** C6.  On an avatar that is running, not closing and ready (its relay
    queue unbounded, as it is created), [handle_audio_input b] returns
    normally and silently, and appends to the [tts_audio] queue, behind
    what was queued, the chunks of the padded data in order; the padded
    data is [b] followed by one zero byte when [len b] is odd and [b]
    itself otherwise; the chunks put together are the padded data; all
    chunks are 6000 bytes long except a final one that holds the
    remaining fewer than 6000 bytes, when there are any. *)
Theorem C6_handle_audio_input_chunks (self : AvatarioAvatar.t) (b : bytes) :
  AvatarioAvatar.run self = true ->
  AvatarioAvatar._stopping self = false ->
  AvatarioAvatar.ready self = true ->
  (maxsize (AvatarioAvatar.tts_audio (AvatarioAvatar.ipc_data self)) <= 0)%Z ->
  AvatarioAvatar.handle_audio_input b self =
    (Return tt,
     with_tts_items (tts_items self ++ chunks_of TTS_CHUNK (padded b)) self,
     []) /\
  padded b = (if Nat.odd (length b) then b ++ [Byte.x00] else b) /\
  concat (chunks_of TTS_CHUNK (padded b)) = padded b /\
  chunks_of TTS_CHUNK (padded b) =
    whole_chunks TTS_CHUNK (padded b) ++
    match remainder TTS_CHUNK (padded b) with
    | [] => []
    | rest => [rest]
    end /\
  Forall (fun ch => len ch = 6000%Z) (whole_chunks TTS_CHUNK (padded b)) /\
  (len (remainder TTS_CHUNK (padded b)) < 6000)%Z.
Proof.
  intros Hrun Hstop Hready Hmax.
  assert (Hc : 0 < TTS_CHUNK) by (unfold TTS_CHUNK; lia).
  split; [apply handle_audio_input_ready; assumption|].
  split; [reflexivity|].
  split; [apply chunks_of_concat, Hc|].
  split; [reflexivity|].
  split.
  - eapply Forall_impl; [apply whole_chunks_lengths, Hc|].
    intros ch Hch. simpl in Hch. unfold len. rewrite Hch. unfold TTS_CHUNK. lia.
  - pose proof (remainder_length TTS_CHUNK (padded b) Hc) as Hr.
    unfold len. unfold TTS_CHUNK in Hr at 2. lia.
Qed.

(** 12001 bytes of speech on the ready avatar: three chunks, of 6000,
    6000 and 2 bytes. *)
Lemma C6_handle_audio_input_chunks_witness :
  map len (tts_items (final (AvatarioAvatar.handle_audio_input speech ready_avatar)))
    = [6000%Z; 6000%Z; 2%Z].
Proof.
  destruct (C6_handle_audio_input_chunks ready_avatar speech) as (Hrun & _);
    [reflexivity|reflexivity|reflexivity|simpl; lia|].
  rewrite Hrun. vm_compute. reflexivity.
Defined.

(** ** C8: closing twice *)

Section Close.
Import AvatarioAvatar.
Implicit Types (self : t).

Lemma aclose_when_stopping self :
  _stopping self = true -> aclose self = (Return tt, self, []).
Proof. intros H. unfold aclose, bind, get. rewrite H. reflexivity. Qed.

(** What the first, effective call does, field by field. *)
Lemma aclose_first self :
  _stopping self = false ->
  outcome (aclose self) = Return tt /\
  _stopping (final (aclose self)) = true /\
  run (final (aclose self)) = false /\
  ready (final (aclose self)) = false /\
  _is_speaking (final (aclose self)) = false /\
  kill_signal (ipc_data (final (aclose self))) = true.
Proof.
  intros H. destruct self as [a b c d e f g h i j k l m n o].
  simpl in H. subst i.
  destruct e as [[[|] cr]|]; repeat split.
Qed.

Lemma aclose_stops self : _stopping (final (aclose self)) = true.
Proof.
  destruct (_stopping self) eqn:H.
  - rewrite aclose_when_stopping by exact H. exact H.
  - apply aclose_first, H.
Qed.

End Close.

(** C8.  [aclose] never fails; a second call after a first one returns at
    once, performs no effect and leaves the avatar exactly as the first
    call left it; and after a first call on an avatar that was not yet
    closing, the kill signal is set, [run] and [ready] are cleared and
    [_stopping] is set. *)
Theorem C8_aclose_idempotent (self : AvatarioAvatar.t) :
  let once := AvatarioAvatar.aclose self in
  let twice := AvatarioAvatar.aclose (final once) in
  outcome once = Return tt /\
  twice = (Return tt, final once, []) /\
  (AvatarioAvatar._stopping self = false ->
   AvatarioAvatar.kill_signal (AvatarioAvatar.ipc_data (final twice)) = true /\
   AvatarioAvatar.run (final twice) = false /\
   AvatarioAvatar.ready (final twice) = false /\
   AvatarioAvatar._stopping (final twice) = true).
Proof.
  intros once twice.
  assert (Htwice : twice = (Return tt, final once, []))
    by (apply aclose_when_stopping, aclose_stops).
  split; [|split; [exact Htwice|]].
  - subst once. destruct (AvatarioAvatar._stopping self) eqn:H.
    + rewrite aclose_when_stopping by exact H. reflexivity.
    + apply aclose_first, H.
  - intros H. rewrite Htwice. unfold final at 1 3 5 7. simpl.
    destruct (aclose_first self H) as (_ & Hs & Hr & Hy & _ & Hk).
    repeat split; assumption.
Qed.

(** Closing the avatar that is ready and has a pending speech timeout:
    the first call cancels the timer (the guarded [cancel()] runs in
    [aclose] and again in [_cleanup_connections]), the second does
    nothing. *)
Lemma C8_aclose_idempotent_witness :
  effects (AvatarioAvatar.aclose speaking_avatar) = [CancelTask; CancelTask] /\
  effects (AvatarioAvatar.aclose (final (AvatarioAvatar.aclose speaking_avatar)))
    = [] /\
  AvatarioAvatar.kill_signal
    (AvatarioAvatar.ipc_data
       (final (AvatarioAvatar.aclose
                 (final (AvatarioAvatar.aclose speaking_avatar))))) = true.
Proof.
  destruct (C8_aclose_idempotent speaking_avatar) as (_ & _ & Hflags).
  split; [reflexivity|]. split; [reflexivity|].
  apply Hflags. reflexivity.
Defined.

(** ** C5: audio input before the session is ready *)

Section NotReady.
Import AvatarioAvatar.

(** While closing, the input is dropped silently. *)
Lemma handle_audio_input_closing data self :
  run self = false \/ _stopping self = true ->
  handle_audio_input data self = (Return tt, self, []).
Proof.
  intros H. unfold handle_audio_input, bind, get.
  destruct H as [-> | ->]; [reflexivity|].
  rewrite orb_true_r. reflexivity.
Qed.

(** Not ready and not closing: building the log line reads [self.ws],
    which no code of the class ever assigns, so the call raises instead
    of logging.  Nothing is queued. *)
Lemma handle_audio_input_not_ready data self :
  run self = true -> _stopping self = false -> ready self = false ->
  __dict__ self !! "ws" = None ->
  handle_audio_input data self = (Raise (AttributeError "ws"), self, []).
Proof.
  intros Hrun Hstop Hready Hws.
  unfold handle_audio_input, bind, get, getattr.
  rewrite Hrun, Hstop, Hready. cbn [negb orb]. cbv beta iota.
  unfold bind, get. rewrite Hws. reflexivity.
Qed.

End NotReady.

(** C5, evaluated on the code: on the avatar as [__init__] leaves it
    (running, not closing, not ready), [handle_audio_input] does not fail
    silently; it raises [AttributeError] for [ws] and prints nothing.
    The [tts_audio] queue stays as it was. *)
Theorem C5_not_ready_raises_attribute_error :
  AvatarioAvatar.handle_audio_input [Byte.x01; Byte.x02] AvatarioAvatar.__init__
    = (Raise (AttributeError "ws"), AvatarioAvatar.__init__, []).
Proof.
  apply handle_audio_input_not_ready; reflexivity.
Qed.

(** ** C4: the connection retries *)

Section Retry.
Import AvatarioAvatar.

(** After a first failed attempt with budget left, the retry is a call
    that passes no [loop]: it fails on entry, whatever the backend would
    answer next. *)
Lemma _initialize_connection_first_failure fuel backend self e :
  backend O = Raise e ->
  (1 < _retry_count self)%Z ->
  _initialize_connection (S (S fuel)) backend (Some the_loop) self =
    (Raise missing_loop,
     set_retry_count (_retry_count self - 1)%Z (set_last_error (Some e) self),
     [Call "create_conversation"; Sleep 2]).
Proof.
  intros Hfail Hbudget.
  cbn [_initialize_connection]. unfold bind at 1. unfold get at 1.
  destruct (Z.eqb_spec (_retry_count self) 0) as [H0|_]; [lia|].
  unfold try_except, bind, emit, modify, get. rewrite Hfail. simpl.
  destruct (Z.ltb_spec 0 (_retry_count self - 1)) as [_|H]; [|lia].
  reflexivity.
Qed.

(** A first attempt that succeeds marks the avatar ready and starts the
    two relay tasks. *)
Lemma _initialize_connection_success fuel backend self :
  backend O = Return tt ->
  _retry_count self <> 0%Z ->
  _initialize_connection (S fuel) backend (Some the_loop) self =
    (Return tt,
     set_audio_streaming_task true
       (set_video_streaming_task true (set_ready true self)),
     [Call "create_conversation"; CreateTask "_process_video_frames";
      CreateTask "_process_audio_frames"]).
Proof.
  intros Hok Hbudget.
  cbn [_initialize_connection]. unfold bind at 1. unfold get at 1.
  destruct (Z.eqb_spec (_retry_count self) 0) as [H0|_]; [contradiction|].
  unfold try_except, bind, emit, modify, get. rewrite Hok. reflexivity.
Qed.

End Retry.

(** C4, evaluated on the code.  When the first attempt fails and the
    second would succeed, [connect] does not succeed: after one attempt
    and one 2-second sleep it raises the [TypeError] of the retry call
    that leaves out [loop], and the avatar is not ready.  When every
    attempt would fail, the run is the same: one attempt, one sleep, the
    same [TypeError], and two attempts of the budget left unused. *)
Theorem C4_retry_call_raises_type_error :
  (outcome (AvatarioAvatar.connect 5 fail_then_succeed 0 0 AvatarioAvatar.__init__)
     = Raise missing_loop /\
   effects (AvatarioAvatar.connect 5 fail_then_succeed 0 0 AvatarioAvatar.__init__)
     = [Call "create_conversation"; Sleep 2] /\
   AvatarioAvatar.ready
     (final (AvatarioAvatar.connect 5 fail_then_succeed 0 0 AvatarioAvatar.__init__))
     = false) /\
  (outcome (AvatarioAvatar.connect 5 always_fail 0 0 AvatarioAvatar.__init__)
     = Raise missing_loop /\
   effects (AvatarioAvatar.connect 5 always_fail 0 0 AvatarioAvatar.__init__)
     = [Call "create_conversation"; Sleep 2] /\
   AvatarioAvatar._retry_count
     (final (AvatarioAvatar.connect 5 always_fail 0 0 AvatarioAvatar.__init__))
     = 2%Z).
Proof. repeat split. Qed.

(** ** C7: the kill signal and the loops of [api.py] *)

Section KillSignal.
Import AvatarioAvatar Api.
Local Arguments full : simpl never.

(** A relay loop that finds the signal set stops before receiving. *)
Lemma get_output_audio_killed script ipc :
  kill_signal ipc = true ->
  get_output_audio script ipc = (Return CondFalse, ipc, []).
Proof.
  intros Hk. destruct script; simpl; unfold bind, get; rewrite Hk; reflexivity.
Qed.

Lemma get_output_video_killed script ipc :
  kill_signal ipc = true ->
  get_output_video script ipc = (Return CondFalse, ipc, []).
Proof.
  intros Hk. destruct script; simpl; unfold bind, get; rewrite Hk; reflexivity.
Qed.

(** A relay loop that is suspended in its receive when the signal is set
    finishes that one iteration, bounded by the 2-second timeout, and
    stops at the next test. *)
Lemma get_output_audio_stops_within_one_turn tn script ipc :
  kill_signal ipc = false ->
  kill_meanwhile tn = true ->
  (forall e, received tn <> RecvFailed e) ->
  (maxsize (output_audio ipc) <= 0)%Z ->
  outcome (get_output_audio (tn :: script) ipc) = Return CondFalse /\
  effects (get_output_audio (tn :: script) ipc) = [WaitFor 2] /\
  kill_signal (final (get_output_audio (tn :: script) ipc)) = true.
Proof.
  intros Hk Hm Hr Hmax. destruct tn as [km [frame| |e]]; simpl in Hm; subst km.
  - destruct ipc as [ta [m items] ov k]. simpl in Hk, Hmax. subst k.
    assert (Hnf : full (mkQueue m items) = false) by (apply full_unbounded, Hmax).
    cbn [get_output_audio].
    unfold bind, get, continue_on_timeout, try_except, await_recv, emit, modify,
      ret, zoom, queue_put, outcome, effects, final.
    simpl. rewrite Hnf. simpl.
    destruct script; repeat split.
  - destruct ipc as [ta oa ov k]. simpl in Hk. subst k.
    cbn [get_output_audio].
    unfold bind, get, continue_on_timeout, try_except, await_recv, emit, modify,
      ret, raise, outcome, effects, final.
    simpl. destruct script; repeat split.
  - exfalso. apply (Hr e). reflexivity.
Qed.

Lemma get_output_video_stops_within_one_turn tn script ipc :
  kill_signal ipc = false ->
  kill_meanwhile tn = true ->
  (forall e, received tn <> RecvFailed e) ->
  (maxsize (output_video ipc) <= 0)%Z ->
  outcome (get_output_video (tn :: script) ipc) = Return CondFalse /\
  effects (get_output_video (tn :: script) ipc) = [WaitFor 2] /\
  kill_signal (final (get_output_video (tn :: script) ipc)) = true.
Proof.
  intros Hk Hm Hr Hmax. destruct tn as [km [frame| |e]]; simpl in Hm; subst km.
  - destruct ipc as [ta oa [m items] k]. simpl in Hk, Hmax. subst k.
    assert (Hnf : full (mkQueue m items) = false) by (apply full_unbounded, Hmax).
    cbn [get_output_video].
    unfold bind, get, continue_on_timeout, try_except, await_recv, emit, modify,
      ret, zoom, queue_put, outcome, effects, final.
    simpl. rewrite Hnf. simpl.
    destruct script; repeat split.
  - destruct ipc as [ta oa ov k]. simpl in Hk. subst k.
    cbn [get_output_video].
    unfold bind, get, continue_on_timeout, try_except, await_recv, emit, modify,
      ret, raise, outcome, effects, final.
    simpl. destruct script; repeat split.
  - exfalso. apply (Hr e). reflexivity.
Qed.

(** The sender loop does not read the kill signal: setting it changes
    nothing in what the loop does. *)
Lemma send_tts_audio_kill_blind fuel : forall ipc,
  send_tts_audio fuel (set_kill_signal true ipc) =
    match send_tts_audio fuel ipc with
    | (r, ipc', tr) => (r, set_kill_signal true ipc', tr)
    end.
Proof.
  induction fuel as [|fuel IH]; intros ipc; [reflexivity|].
  destruct ipc as [[m items] oa ov k]. destruct items as [|chunk rest].
  - reflexivity.
  - specialize (IH (mkIpc (mkQueue m rest) oa ov k)).
    unfold set_kill_signal in IH. simpl in IH.
    cbn [send_tts_audio].
    unfold bind, zoom, queue_get, emit, set_kill_signal, set_tts_audio. simpl.
    rewrite IH.
    destruct (send_tts_audio fuel (mkIpc (mkQueue m rest) oa ov k)) as [[r s] tr].
    reflexivity.
Qed.

(** The sender loop never leaves its loop: it is either suspended in
    [get] on an empty queue or still running. *)
Lemma send_tts_audio_never_returns fuel : forall ipc,
  outcome (send_tts_audio fuel ipc) = Blocked \/
  outcome (send_tts_audio fuel ipc) = Return OutOfFuel.
Proof.
  induction fuel as [|fuel IH]; intros ipc; [right; reflexivity|].
  destruct ipc as [[m items] oa ov k]. destruct items as [|chunk rest].
  - left. reflexivity.
  - specialize (IH (mkIpc (mkQueue m rest) oa ov k)).
    cbn [send_tts_audio].
    unfold bind, zoom, queue_get, emit, outcome, set_tts_audio in *. simpl.
    destruct (send_tts_audio fuel (mkIpc (mkQueue m rest) oa ov k)) as [[r s] tr].
    exact IH.
Qed.

End KillSignal.

(** ** The kill signal is a latch *)

Section Latch.
Import AvatarioAvatar Api.

Ltac latch_step :=
  first
    [ preserves_step
    | apply preserves_modify; solve [intros; reflexivity]
    | solve [intros ? ?; assumption]
    | apply (preserves_zoom latched killed);
        [apply preserves_zoom_frame; solve [intros; assumption]
        |solve [intros; assumption]
        |solve [intros; assumption]] ].

Lemma latched_cancel_speech_timeout : preserves latched cancel_speech_timeout.
Proof. unfold cancel_speech_timeout. repeat latch_step. Qed.

Lemma latched_aclose : preserves latched aclose.
Proof.
  unfold aclose, _cleanup_connections. repeat latch_step;
    apply latched_cancel_speech_timeout.
Qed.

Lemma latched_handle_audio_input data : preserves latched (handle_audio_input data).
Proof.
  unfold handle_audio_input, _send_audio_data, getattr. repeat latch_step.
Qed.

Lemma latched__initialize_connection fuel : forall backend loop,
  preserves latched (_initialize_connection fuel backend loop).
Proof.
  induction fuel as [|fuel IH]; intros backend loop; simpl; repeat latch_step.
Qed.

Lemma latched_connect fuel backend t1 t2 :
  preserves latched (connect fuel backend t1 t2).
Proof.
  unfold connect. repeat latch_step. apply latched__initialize_connection.
Qed.

(** [aclose] sets the signal whenever it does anything. *)
Lemma aclose_latches self : latched (final (aclose self)) \/ aclose self = (Return tt, self, []).
Proof.
  destruct (_stopping self) eqn:H.
  - right. apply aclose_when_stopping, H.
  - left. apply aclose_first, H.
Qed.

Lemma killed_get_output_audio script : preserves killed (get_output_audio script).
Proof.
  intros ipc H. rewrite get_output_audio_killed by exact H. exact H.
Qed.

Lemma killed_get_output_video script : preserves killed (get_output_video script).
Proof.
  intros ipc H. rewrite get_output_video_killed by exact H. exact H.
Qed.

Lemma killed_send_tts_audio fuel : preserves killed (send_tts_audio fuel).
Proof.
  induction fuel as [|fuel IH]; simpl; repeat preserves_step.
Qed.

End Latch.

(** C7, evaluated on the code.  The outbound sender loop
    [send_tts_audio] does not observe the kill signal: run with the
    signal set, it does exactly what it does with the signal clear; it
    never leaves its loop (it ends suspended in [get] or is still
    running); and with the signal set and two chunks queued it sends
    both and then stays suspended. *)
Theorem C7_tts_sender_ignores_kill_signal
    (fuel : nat) (ipc : AvatarioAvatar.IpcData) :
  Api.send_tts_audio fuel (AvatarioAvatar.set_kill_signal true ipc) =
    (match Api.send_tts_audio fuel ipc with
     | (r, ipc', tr) => (r, AvatarioAvatar.set_kill_signal true ipc', tr)
     end) /\
  (outcome (Api.send_tts_audio fuel ipc) = Blocked \/
   outcome (Api.send_tts_audio fuel ipc) = Return OutOfFuel) /\
  outcome (Api.send_tts_audio 5 killed_with_two_chunks) = Blocked /\
  effects (Api.send_tts_audio 5 killed_with_two_chunks)
    = [Send [Byte.x01; Byte.x02]; Send [Byte.x03; Byte.x04]].
Proof.
  split; [apply send_tts_audio_kill_blind|].
  split; [apply send_tts_audio_never_returns|].
  split; reflexivity.
Qed.

(** ** C9: room creation and the HTTP status *)

(** C9, evaluated on the code.  [create_meeting] never looks at the
    status of the response: with a JSON object as body it returns the
    same for every status as for 200; and for a 401 answer with an error
    body it returns credentials, the room id being [None] and both
    tokens signed for that. *)
Theorem C9_create_meeting_ignores_status
    (env : MeetingUtils.Env) (now status : Z)
    (fields : gmap string MeetingUtils.jval) (auth_token : option string) :
  MeetingUtils.create_meeting env now
    (fun _ => Return (MeetingUtils.mkResponse status
                        (Some (MeetingUtils.JObject fields)))) auth_token
  = MeetingUtils.create_meeting env now
      (fun _ => Return (MeetingUtils.mkResponse 200
                          (Some (MeetingUtils.JObject fields)))) auth_token /\
  exists token backend_token,
    MeetingUtils.create_meeting configured_env 0 unauthorized None
      = Return (MeetingUtils.Credentials MeetingUtils.JNull token backend_token).
Proof.
  split; [reflexivity|].
  eexists. eexists. reflexivity.
Qed.

(** * Further properties of the code *)

(** ** The audio track: flushing, stopping, building frames *)

Section AudioTrackMore.
Import AvatarioAudioTrack.

(** X1.  [interrupt] never fails; it empties the frame queue and the
    raw-byte buffer and leaves the pacing state alone, so the next pull
    of a live track is a silence frame stamped with the pts that was due
    anyway. *)
Theorem interrupt_flushes_and_keeps_the_clock (s : t) (t1 t2 : Q) :
  readyState s = "live" ->
  outcome (interrupt s) = Return tt /\
  audio_items (final (interrupt s)) = [] /\
  audio_data_buffer (final (interrupt s)) = [] /\
  pacing (final (interrupt s)) = pacing s /\
  exists f,
    outcome (recv t1 t2 (final (interrupt s))) = Return f /\
    plane f = zeros 1920 /\
    pts f = Some (next_pts s).
Proof.
  intros Hlive.
  assert (Hp : pacing (final (interrupt s)) = pacing s)
    by (apply (keeps_pacing_interrupt (pacing s) s); reflexivity).
  assert (Hitems : audio_items (final (interrupt s)) = [])
    by (rewrite interrupt_spec; reflexivity).
  split; [rewrite interrupt_spec; reflexivity|].
  split; [exact Hitems|].
  split; [rewrite interrupt_spec; reflexivity|].
  split; [exact Hp|].
  assert (Hlive' : readyState (final (interrupt s)) = "live")
    by (rewrite (pacing_readyState _ _ Hp); exact Hlive).
  destruct (recv_live (final (interrupt s)) t1 t2 Hlive')
    as (f & Hf & Hpts & _ & _ & Hplane & _).
  exists f. split; [exact Hf|]. split.
  - rewrite Hplane, Hitems. reflexivity.
  - rewrite Hpts. f_equal. apply pacing_next_pts, Hp.
Qed.

Lemma interrupt_flushes_and_keeps_the_clock_witness :
  audio_items (final (interrupt busy_track)) = [] /\
  audio_data_buffer (final (interrupt busy_track)) = [] /\
  exists f,
    outcome (recv 0 0 (final (interrupt busy_track))) = Return f /\
    plane f = zeros 1920 /\ pts f = Some 0%Z.
Proof.
  destruct (interrupt_flushes_and_keeps_the_clock busy_track 0 0)
    as (_ & Hq & Hb & _ & Hf); [reflexivity|].
  split; [exact Hq|]. split; [exact Hb|exact Hf].
Defined.

(** X2.  [cleanup] never fails and leaves the track flushed and ended;
    from then on, whatever the producer pushes, feeds or flushes, every
    pull answers with the unstamped silence frame, logs the
    [MediaStreamError] and changes nothing: a queued frame is never
    delivered by a track that was cleaned up. *)
Theorem cleanup_ends_the_track (s : t) (ops : list producer_op) (t1 t2 : Q) :
  outcome (cleanup s) = Return tt /\
  audio_items (final (cleanup s)) = [] /\
  audio_data_buffer (final (cleanup s)) = [] /\
  readyState (final (cleanup s)) = "ended" /\
  let s' := foldl (fun s op => run_producer_op op s) (final (cleanup s)) ops in
  recv t1 t2 s' = (Return _create_silence_frame, s', [Traceback MediaStreamError]).
Proof.
  assert (Hc : cleanup s =
               (Return tt,
                stop (set_audio_data_buffer []
                        (set_queue (mkQueue (maxsize (queue s)) []) s)), [])).
  { unfold cleanup, bind. rewrite interrupt_spec. reflexivity. }
  rewrite Hc. repeat split.
  intros s'. apply recv_not_live.
  subst s'. rewrite (pacing_readyState _ _ (run_producer_ops_pacing ops _)).
  discriminate.
Qed.

(** X3.  [buildAudioFrames] accepts every chunk and leaves the track as
    it is: the frame's payload is the chunk, followed by one zero byte
    when its length is odd, so it always holds whole 16-bit samples, and
    the frame counts half as many samples as the payload has bytes.  It
    is silent exactly for chunks of [chunk_size] bytes. *)
Theorem buildAudioFrames_pads_to_whole_samples (s : t) (chunk : bytes) :
  exists f tr,
    buildAudioFrames chunk s = (Return f, s, tr) /\
    plane f = padded chunk /\
    Nat.even (length (plane f)) = true /\
    (2 * Av.samples f = len (plane f))%Z /\
    pts f = None /\
    (tr = [] <-> len chunk = chunk_size).
Proof.
  assert (Heven : Nat.even (length (padded chunk)) = true).
  { unfold padded. destruct (Nat.odd (length chunk)) eqn:Ho.
    - rewrite length_app. simpl. rewrite Nat.add_1_r, Nat.even_succ. exact Ho.
    - unfold Nat.odd in Ho. apply negb_false_iff in Ho. exact Ho. }
  assert (Hhalf : (2 * (len (padded chunk) / 2 / channels)
                   = len (padded chunk))%Z).
  { change channels with 1%Z. rewrite Z.div_1_r.
    apply Nat.even_spec in Heven. destruct Heven as [m Hm].
    unfold len. rewrite Hm.
    replace (Z.of_nat (2 * m)) with (Z.of_nat m * 2)%Z by lia.
    rewrite Z.div_mul by lia. lia. }
  unfold buildAudioFrames. rewrite parity_test.
  change (if Nat.odd (length chunk) then chunk ++ [Byte.x00] else chunk)
    with (padded chunk).
  destruct (Z.eqb_spec (len chunk) chunk_size) as [Hlen|Hlen]; cbn [negb].
  - assert (Hp : padded chunk = chunk).
    { unfold padded. rewrite <- parity_test, Hlen. reflexivity. }
    assert (Hs : (len (padded chunk) / 2 =? samples * channels)%Z = true)
      by (rewrite Hp, Hlen; reflexivity).
    rewrite Hs. cbn [negb].
    eexists. eexists. split; [reflexivity|]. cbn [plane Av.samples pts].
    repeat split; try assumption; try reflexivity.
    intros _. exact Hlen.
  - destruct (negb (len (padded chunk) / 2 =? samples * channels)%Z);
      eexists; eexists; (split; [reflexivity|]); cbn [plane Av.samples pts];
      repeat split; try assumption; try reflexivity;
      intros H; first [contradiction | discriminate H].
Qed.

End AudioTrackMore.

(** ** The audio track: what goes in comes out *)

Section AudioRoundTrip.
Import AvatarioAudioTrack.








Lemma within_capacity_foldl_push (q : Queue AudioFrame) (xs : list AudioFrame) :
  within_capacity q ->
  within_capacity
    (mkQueue (maxsize q)
       (foldl (push_drop_oldest (Z.to_nat (maxsize q))) (_queue q) xs)).
Proof.
  revert q. induction xs as [|x xs IH]; intros q Hcap.
  - destruct q. exact Hcap.
  - simpl. apply (IH (mkQueue (maxsize q) _)).
    apply within_capacity_push, Hcap.
Qed.

(** What [add_new_bytes] does on a track whose queue is within its
    capacity. *)
Lemma add_new_bytes_capacity s data :
  within_capacity (queue s) ->
  add_new_bytes data s =
    (Return CondFalse,
     set_audio_data_buffer (remainder CHUNK (audio_data_buffer s ++ data))
       (set_queue
          (mkQueue (maxsize (queue s))
             (foldl (push_drop_oldest (Z.to_nat (maxsize (queue s))))
                (audio_items s)
                (map frame_of_chunk
                   (whole_chunks CHUNK (audio_data_buffer s ++ data)))))
          s),
     []).
Proof.
  intros Hcap. rewrite add_new_bytes_unfold.
  rewrite add_new_bytes_loop_capacity; [|simpl; lia|exact Hcap].
  destruct s. reflexivity.
Qed.



End AudioRoundTrip.

(** ** The audio track: the byte stream does not depend on how it is cut *)

Section Streaming.
Context {A : Type}.
Implicit Types (l : list A) (c : nat).

Lemma chunks_app c l2 : 0 < c -> forall n l1, length l1 <= n ->
  whole_chunks c (l1 ++ l2) = whole_chunks c l1 ++ whole_chunks c (remainder c l1 ++ l2) /\
  remainder c (l1 ++ l2) = remainder c (remainder c l1 ++ l2).
Proof.
  intros Hc. induction n as [|n IH]; intros l1 Hn.
  - destruct l1; [|simpl in Hn; lia].
    rewrite (whole_chunks_short c []), (remainder_short c []) by (simpl; lia).
    split; reflexivity.
  - destruct (le_lt_dec c (length l1)) as [Hge|Hlt].
    + assert (Hge' : c <= length (l1 ++ l2)) by (rewrite length_app; lia).
      rewrite (whole_chunks_step c (l1 ++ l2)), (remainder_step c (l1 ++ l2))
        by assumption.
      rewrite (whole_chunks_step c l1), (remainder_step c l1) by assumption.
      rewrite take_app_le, drop_app_le by lia.
      destruct (IH (drop c l1)) as [H1 H2]; [rewrite length_drop; lia|].
      rewrite H1, H2. split; reflexivity.
    + rewrite (whole_chunks_short c l1), (remainder_short c l1) by assumption.
      split; reflexivity.
Qed.

End Streaming.

Section StreamingTrack.
Import AvatarioAudioTrack.

(** X6.  Feeding a byte stream in two calls is the same as feeding it in
    one: on a track whose queue is within its capacity,
    [add_new_bytes d1] followed by [add_new_bytes d2] leaves the track
    exactly as [add_new_bytes (d1 ++ d2)] does, and neither breaks off. *)
Theorem add_new_bytes_is_incremental (s : t) (d1 d2 : bytes) :
  within_capacity (queue s) ->
  add_new_bytes d2 (final (add_new_bytes d1 s)) = add_new_bytes (d1 ++ d2) s /\
  outcome (add_new_bytes (d1 ++ d2) s) = Return CondFalse.
Proof.
  intros Hcap. pose proof CHUNK_pos as Hc.
  rewrite (add_new_bytes_capacity s d1 Hcap).
  rewrite (add_new_bytes_capacity s (d1 ++ d2) Hcap).
  split; [|reflexivity].
  unfold final. cbn [fst snd].
  rewrite add_new_bytes_capacity.
  - destruct (chunks_app CHUNK d2 Hc (length (audio_data_buffer s ++ d1))
                (audio_data_buffer s ++ d1) (Nat.le_refl _)) as [H1 H2].
    destruct s as [ts [c items] buf ft st sst rs].
    unfold audio_items. simpl in *.
    rewrite app_assoc, H1, H2, map_app, foldl_app. reflexivity.
  - destruct s as [ts [c items] buf ft st sst rs]. simpl.
    apply (within_capacity_foldl_push (mkQueue c items) _ Hcap).
Qed.

Lemma add_new_bytes_is_incremental_witness :
  add_new_bytes more_bytes (final (add_new_bytes first_bytes __init__))
    = add_new_bytes (first_bytes ++ more_bytes) __init__.
Proof.
  apply (add_new_bytes_is_incremental __init__ first_bytes more_bytes).
  split; simpl; unfold len; simpl; lia.
Defined.

End StreamingTrack.

(** ** The video track: [recv] *)

Section VideoRecv.
Import AvatarioVideoTrack.

Lemma video_recv_empty s t1 t2 :
  video_items s = [] -> recv t1 t2 s = (Blocked, s, []).
Proof.
  intros H. destruct s as [[c items] ts st fc rs sst].
  unfold video_items in H. simpl in H. subst items. reflexivity.
Qed.


(** What [recv] does when a frame is waiting. *)
Lemma video_recv_frame s g rest t1 t2 :
  video_items s = g :: rest ->
  exists start,
    Some start = match _start_time s with
                 | Some st => Some st
                 | None => if truthy (_shared_start_time s)
                           then _shared_start_time s else Some t1
                 end /\
    recv t1 t2 s =
      (Return (mkVideoFrame
                 (Some (py_int ((t2 - start) * inject_Z VIDEO_TIME_BASE)%Q))
                 (Some (mkFraction 1 VIDEO_TIME_BASE)) (image g)),
       mk (mkQueue (maxsize (queue s)) rest)
          (py_int ((t2 - start) * inject_Z VIDEO_TIME_BASE)%Q)
          (Some start) (_frame_count s + 1)%Z (_readyState s)
          (_shared_start_time s),
       []).
Proof.
  intros H. destruct s as [[c items] ts st fc rs sst].
  unfold video_items in H. simpl in H. subst items.
  destruct st as [st|].
  - exists st. split; reflexivity.
  - destruct sst as [q|]; simpl.
    + destruct (negb (Qnum q =? 0)%Z) eqn:Hq.
      * exists q. split; [reflexivity|].
        unfold recv, bind, get, modify, ret, on_queue, zoom, queue_get. simpl.
        rewrite Hq. reflexivity.
      * exists t1. split; [reflexivity|].
        unfold recv, bind, get, modify, ret, on_queue, zoom, queue_get. simpl.
        rewrite Hq. reflexivity.
    + exists t1. split; reflexivity.
Qed.

(** X7.  The video track hands out the latest picture only, and only
    once: after any run of pushes ending with [g], [recv] returns a frame
    with the image of [g] and the 1/90000 time base and empties the
    queue, and the next [recv] finds nothing, stays suspended and
    changes nothing. *)
Theorem video_recv_latest_wins
    (s : t) (fs : list VideoFrame) (g : VideoFrame) (t1 t2 t3 t4 : Q) :
  let pushed := final (video_pushes (fs ++ [g]) s) in
  exists f,
    outcome (recv t1 t2 pushed) = Return f /\
    image f = image g /\
    vtime_base f = Some (mkFraction 1 90000) /\
    video_items (final (recv t1 t2 pushed)) = [] /\
    recv t3 t4 (final (recv t1 t2 pushed))
      = (Blocked, final (recv t1 t2 pushed), []).
Proof.
  intros pushed.
  destruct (video_pushes_spec fs g s) as [_ Hitems]. fold pushed in Hitems.
  destruct (video_recv_frame pushed g [] t1 t2 Hitems) as (start & _ & Hr).
  rewrite Hr. eexists. split; [reflexivity|].
  split; [reflexivity|]. split; [reflexivity|]. split; [reflexivity|].
  apply video_recv_empty. reflexivity.
Qed.



End VideoRecv.

(** ** The avatar: closing, speaking, connecting *)

Section AvatarMore.
Import AvatarioAvatar Api.

Ltac stopping_step :=
  first
    [ preserves_step
    | solve [intros ? ?; assumption] ].

Lemma stopping__initialize_connection fuel : forall backend loop,
  preserves stopping (_initialize_connection fuel backend loop).
Proof.
  induction fuel as [|fuel IH]; intros backend loop; simpl;
    repeat stopping_step.
Qed.

Lemma stopping_connect fuel backend t1 t2 :
  preserves stopping (connect fuel backend t1 t2).
Proof.
  unfold connect. repeat stopping_step. apply stopping__initialize_connection.
Qed.

(** X9.  A closed session stays closed: after [aclose], and even after a
    later [connect], successful or not, [handle_audio_input] drops its
    input silently and a further [aclose] does nothing. *)
Theorem closed_session_stays_closed
    (s : t) (fuel : nat) (backend : nat -> result unit) (t1 t2 : Q)
    (data : bytes) :
  let closed := final (aclose s) in
  let again := final (connect fuel backend t1 t2 closed) in
  handle_audio_input data closed = (Return tt, closed, []) /\
  handle_audio_input data again = (Return tt, again, []) /\
  aclose again = (Return tt, again, []).
Proof.
  intros closed again.
  assert (Hc : stopping closed) by apply aclose_stops.
  assert (Ha : stopping again) by (apply stopping_connect, Hc).
  split; [apply handle_audio_input_closing; right; exact Hc|].
  split; [apply handle_audio_input_closing; right; exact Ha|].
  apply aclose_when_stopping, Ha.
Qed.

(** The sender loop takes the queued chunks oldest first, one send per
    chunk; when the queue is empty it is suspended in [get]. *)
Lemma send_tts_audio_spec fuel : forall ipc,
  send_tts_audio fuel ipc =
    (if fuel <=? length (_queue (tts_audio ipc))
     then Return OutOfFuel else Blocked,
     set_tts_audio (mkQueue (maxsize (tts_audio ipc))
                      (drop fuel (_queue (tts_audio ipc)))) ipc,
     map Send (take fuel (_queue (tts_audio ipc)))).
Proof.
  induction fuel as [|fuel IH]; intros ipc.
  - destruct ipc as [[m items] oa ov k]. reflexivity.
  - destruct ipc as [[m items] oa ov k]. destruct items as [|chunk rest].
    + reflexivity.
    + specialize (IH (mkIpc (mkQueue m rest) oa ov k)).
      cbn [send_tts_audio].
      unfold bind, zoom, queue_get, emit, set_tts_audio in *. simpl in *.
      rewrite IH. reflexivity.
Qed.

(** X10.  Speech reaches the transport whole and in order: what
    [handle_audio_input] queued on a ready avatar with an empty relay
    queue, the sender loop sends as one message per chunk, oldest first;
    the messages put together are the input padded to an even length;
    then the queue is empty and the loop waits for more. *)
Theorem speech_is_sent_whole_and_in_order (self : t) (b : bytes) (fuel : nat) :
  run self = true -> _stopping self = false -> ready self = true ->
  (maxsize (tts_audio (ipc_data self)) <= 0)%Z ->
  tts_items self = [] ->
  length (chunks_of TTS_CHUNK (padded b)) < fuel ->
  let queued := ipc_data (final (handle_audio_input b self)) in
  effects (send_tts_audio fuel queued)
    = map Send (chunks_of TTS_CHUNK (padded b)) /\
  concat (chunks_of TTS_CHUNK (padded b)) = padded b /\
  outcome (send_tts_audio fuel queued) = Blocked /\
  _queue (tts_audio (final (send_tts_audio fuel queued))) = [].
Proof.
  intros Hrun Hstop Hready Hmax Hempty Hfuel queued.
  assert (Hq : _queue (tts_audio queued) = chunks_of TTS_CHUNK (padded b)).
  { subst queued. rewrite handle_audio_input_ready by assumption.
    rewrite Hempty. reflexivity. }
  rewrite send_tts_audio_spec. unfold effects, outcome, final. cbn [fst snd].
  rewrite Hq.
  assert (Hle : length (chunks_of TTS_CHUNK (padded b)) <= fuel)
    by apply Nat.lt_le_incl, Hfuel.
  match goal with
  | |- context [?n <=? ?m] => destruct (Nat.leb_spec n m) as [Hge|_]
  end;
    [exfalso; apply (Nat.lt_irrefl fuel);
     apply (Nat.le_lt_trans _ _ _ Hge), Hfuel|].
  rewrite firstn_all2, drop_ge by exact Hle.
  split; [reflexivity|]. split; [|split; reflexivity].
  apply chunks_of_concat. unfold TTS_CHUNK. lia.
Qed.

Lemma speech_is_sent_whole_and_in_order_witness :
  effects (send_tts_audio 5
             (ipc_data (final (handle_audio_input speech ready_avatar))))
    = map Send (chunks_of TTS_CHUNK (padded speech)).
Proof.
  assert (Hmax : (maxsize (tts_audio (ipc_data ready_avatar)) <= 0)%Z)
    by (simpl; lia).
  assert (Hfuel : length (chunks_of TTS_CHUNK (padded speech)) < 5)
    by (vm_compute; lia).
  exact (proj1 (speech_is_sent_whole_and_in_order ready_avatar speech 5
                  eq_refl eq_refl eq_refl Hmax eq_refl Hfuel)).
Defined.

(** X11.  A first [connect] whose negotiation succeeds at once: one
    backend call, the avatar ready, the two relay tasks created, the
    retry budget untouched, a fresh audio track with an empty queue, and
    both tracks and the avatar sharing the first clock reading as stream
    start. *)
Theorem connect_success_first_time
    (s : t) (fuel : nat) (backend : nat -> result unit) (t1 t2 : Q) :
  backend O = Return tt ->
  _retry_count s <> 0%Z ->
  _stream_start_time s = None ->
  let r := connect (S fuel) backend t1 t2 s in
  outcome r = Return tt /\
  effects r = [Call "create_conversation"; CreateTask "_process_video_frames";
               CreateTask "_process_audio_frames"] /\
  ready (final r) = true /\
  video_streaming_task (final r) = true /\
  audio_streaming_task (final r) = true /\
  _retry_count (final r) = _retry_count s /\
  _stream_start_time (final r) = Some t1 /\
  AvatarioVideoTrack._shared_start_time (video_track (final r)) = Some t1 /\
  audio_track (final r)
    = Some (AvatarioAudioTrack.set_shared_start_time (Some t1)
              AvatarioAudioTrack.__init__) /\
  _last_audio_time (final r) = t2.
Proof.
  intros Hok Hbudget Hfirst r. subst r.
  destruct s as [sst at_ rn sp tk rd rc le st la ipc vt au vtr dict].
  simpl in Hbudget, Hfirst. subst sst.
  unfold connect, bind, modify, get, outcome, effects, final.
  cbn [_stream_start_time set_audio_track set_stream_start_time set_video_track
       set_last_audio_time audio_track video_track option_map fst snd].
  cbn [_initialize_connection].
  unfold bind, modify, get, try_except, emit.
  cbn [_retry_count]. rewrite Hok.
  apply Z.eqb_neq in Hbudget.
  cbn. rewrite Hbudget. cbn. repeat split.
Qed.

Lemma connect_success_first_time_witness :
  ready (final (connect 1 (fun _ => Return tt) 3 4 __init__)) = true /\
  _stream_start_time (final (connect 1 (fun _ => Return tt) 3 4 __init__))
    = Some (3 # 1).
Proof.
  destruct (connect_success_first_time __init__ 0 (fun _ => Return tt) 3 4)
    as (_ & _ & Hr & _ & _ & _ & Hs & _);
    [reflexivity|discriminate|reflexivity|].
  split; [exact Hr|exact Hs].
Defined.

End AvatarMore.

(** ** The avatar: the retry budget *)

Section Budget.
Import AvatarioAvatar.

Ltac budget_done :=
  unfold outcome, effects, final; cbn;
  repeat split; intros; try lia; try congruence; try contradiction;
  try discriminate.

Lemma connect_unfold fuel backend t1 t2 s :
  connect fuel backend t1 t2 s =
    match _initialize_connection fuel backend (Some the_loop) (prepared t1 s) with
    | (Return _, s2, tr) => (Return tt, set_last_audio_time t2 s2, tr)
    | (Raise e, s2, tr) => (Raise e, s2, tr)
    | (Blocked, s2, tr) => (Blocked, s2, tr)
    end.
Proof.
  destruct s as [sst at_ rn sp tk rd rc le st la ipc vt au vtr dict].
  destruct sst as [start|];
    unfold connect, prepared, bind, modify, get, ret; cbn;
    match goal with
    | |- context [_initialize_connection fuel backend (Some the_loop) ?s0] =>
        destruct (_initialize_connection fuel backend (Some the_loop) s0)
          as [[[[]|e|] s2] tr]
    end; cbn; rewrite ?app_nil_r; reflexivity.
Qed.

Lemma _initialize_connection_exhausted fuel backend s :
  _retry_count s = 0%Z ->
  _initialize_connection (S fuel) backend (Some the_loop) s =
    (Raise (Exception "Failed to connect to Avatario servers."), s, []).
Proof.
  intros H. cbn [_initialize_connection]. unfold bind, get. rewrite H.
  reflexivity.
Qed.

Lemma _initialize_connection_last_attempt fuel backend s e :
  _retry_count s = 1%Z ->
  backend O = Raise e ->
  _initialize_connection (S fuel) backend (Some the_loop) s =
    (Raise e, set_retry_count 0 (set_last_error (Some e) s),
     [Call "create_conversation"]).
Proof.
  intros H Hb. cbn [_initialize_connection]. unfold bind at 1. unfold get at 1.
  rewrite H. cbn [Z.eqb].
  unfold try_except, bind, emit, modify, get. rewrite Hb. cbn.
  rewrite H. reflexivity.
Qed.

Lemma _initialize_connection_suspended fuel backend s :
  _retry_count s <> 0%Z ->
  backend O = Blocked ->
  _initialize_connection (S fuel) backend (Some the_loop) s =
    (Blocked, s, [Call "create_conversation"]).
Proof.
  intros H Hb. apply Z.eqb_neq in H.
  cbn [_initialize_connection]. unfold bind at 1. unfold get at 1.
  rewrite H.
  unfold try_except, bind, emit, modify, get. rewrite Hb. reflexivity.
Qed.

Lemma prepared_keeps s t1 :
  _retry_count (prepared t1 s) = _retry_count s /\
  ready (prepared t1 s) = ready s.
Proof. unfold prepared. destruct (_stream_start_time s); split; reflexivity. Qed.

(** X12.  The retry budget only goes down, by at most one per [connect],
    and never below zero.  With the budget at zero [connect] raises the
    "Failed to connect" exception without calling the backend; with one
    attempt left, a failing backend call is made once, its own error is
    recorded and raised again without any sleep, and the budget is then
    zero. *)
Theorem connect_retry_budget
    (s : t) (fuel : nat) (backend : nat -> result unit) (t1 t2 : Q) :
  (0 <= _retry_count s)%Z ->
  let r := connect (S (S fuel)) backend t1 t2 s in
  (0 <= _retry_count (final r) <= _retry_count s)%Z /\
  (_retry_count s - 1 <= _retry_count (final r))%Z /\
  (_retry_count s = 0%Z ->
   outcome r = Raise (Exception "Failed to connect to Avatario servers.") /\
   effects r = []) /\
  (forall e, _retry_count s = 1%Z -> backend O = Raise e ->
   outcome r = Raise e /\
   effects r = [Call "create_conversation"] /\
   _retry_count (final r) = 0%Z /\
   _last_error (final r) = Some e /\
   ready (final r) = ready s).
Proof.
  intros Hrc r. subst r. rewrite connect_unfold.
  destruct (prepared_keeps s t1) as [Hk Hr].
  set (p := prepared t1 s) in *. clearbody p.
  destruct (Z.eq_dec (_retry_count s) 0%Z) as [H0|Hn0].
  - rewrite _initialize_connection_exhausted by congruence. budget_done.
  - destruct (backend O) as [[]|e|] eqn:Hb.
    + rewrite _initialize_connection_success by congruence. budget_done.
    + destruct (Z.eq_dec (_retry_count s) 1%Z) as [H1|Hn1].
      * rewrite (_initialize_connection_last_attempt _ _ _ e) by congruence.
        budget_done.
      * rewrite (_initialize_connection_first_failure _ _ _ e)
          by (try lia; congruence).
        budget_done.
    + rewrite _initialize_connection_suspended by congruence. budget_done.
Qed.

(** The last attempt of an avatar fails: the backend's 503 comes out of
    [connect] and the budget is used up. *)
Lemma connect_retry_budget_witness :
  outcome (connect 2 always_fail 0 0 last_attempt_avatar)
    = Raise (HTTPError 503) /\
  _retry_count (final (connect 2 always_fail 0 0 last_attempt_avatar)) = 0%Z.
Proof.
  destruct (connect_retry_budget last_attempt_avatar 0 always_fail 0 0)
    as (_ & _ & _ & Hlast); [simpl; lia|].
  destruct (Hlast (HTTPError 503) eq_refl eq_refl) as (Ho & _ & Hrc & _).
  split; [exact Ho|exact Hrc].
Defined.

End Budget.

(** ** The avatar: the loops that feed the tracks *)

Section FeedLoops.
Import AvatarioAvatar.

Lemma relabel_relabel f : relabel (relabel f) = relabel f.
Proof.
  unfold relabel.
  destruct (negb (Av.sample_rate f =? AvatarioAudioTrack.sample_rate)%Z) eqn:H;
    [|rewrite H; reflexivity].
  reflexivity.
Qed.

Lemma relabel_log_relabel f : relabel_log (relabel f) = [].
Proof.
  unfold relabel_log, relabel.
  destruct (negb (Av.sample_rate f =? AvatarioAudioTrack.sample_rate)%Z) eqn:H;
    [|rewrite H; reflexivity].
  reflexivity.
Qed.

(** One iteration of the audio loop on an avatar that runs and has a
    track: the oldest waiting frame goes, relabelled, into the track. *)
Lemma _process_audio_frames_step fuel s track f rest :
  run s = true -> _stopping s = false ->
  audio_track s = Some track ->
  within_capacity (AvatarioAudioTrack.queue track) ->
  inbound_audio s = f :: rest ->
  _process_audio_frames (S fuel) s =
    _process_audio_frames fuel
      (set_audio_track
         (Some (with_audio_items
                  (push_drop_oldest
                     (Z.to_nat (maxsize (AvatarioAudioTrack.queue track)))
                     (audio_items track) (relabel f)) track))
         (with_inbound_audio rest s)).
Proof.
  intros Hrun Hstop Htrack Hcap Hin.
  pose proof (audio_add_frame_spec track (relabel f) Hcap) as Hadd.
  rewrite relabel_relabel, relabel_log_relabel in Hadd.
  destruct s as [sst at_ rn sp tk rd rc le st la [ta [m items] ov k] vt au vtr dict].
  unfold inbound_audio in Hin. simpl in Hrun, Hstop, Htrack, Hin. subst.
  cbn [_process_audio_frames]. unfold bind at 1. unfold get at 1.
  cbn [run _stopping andb negb]. unfold bind at 1.
  unfold try_except at 1. unfold bind at 1.
  unfold ipc_output_audio, zoom, queue_get.
  cbn [ipc_data output_audio _queue maxsize set_output_audio set_ipc_data
       tts_audio output_video kill_signal].
  unfold bind at 1. unfold try_except at 1. unfold on_audio_track.
  cbn [audio_track set_ipc_data].
  change (if negb (Av.sample_rate f =? AUDIO_SAMPLE_RATE)%Z
          then set_sample_rate AUDIO_SAMPLE_RATE f else f) with (relabel f).
  rewrite Hadd. unfold ret at 1.
  unfold with_audio_items, with_inbound_audio.
  cbn [ipc_data output_audio maxsize set_output_audio set_ipc_data set_audio_track
       tts_audio output_video kill_signal app].
  match goal with
  | |- context [_process_audio_frames fuel ?s0] =>
      destruct (_process_audio_frames fuel s0) as [[r s2] tr]
  end.
  reflexivity.
Qed.

Lemma _process_audio_frames_waits fuel s :
  run s = true -> _stopping s = false ->
  inbound_audio s = [] ->
  _process_audio_frames (S fuel) s = (Blocked, s, []).
Proof.
  intros Hrun Hstop Hin.
  destruct s as [sst at_ rn sp tk rd rc le st la [ta [m items] ov k] vt au vtr dict].
  unfold inbound_audio in Hin. simpl in Hrun, Hstop, Hin. subst.
  reflexivity.
Qed.

(** The audio loop on an avatar that runs and has a track: every waiting
    frame goes into the track, oldest first, and the loop then waits. *)
Lemma _process_audio_frames_all frames : forall fuel s track,
  run s = true -> _stopping s = false ->
  audio_track s = Some track ->
  within_capacity (AvatarioAudioTrack.queue track) ->
  inbound_audio s = frames ->
  length frames < fuel ->
  _process_audio_frames fuel s =
    (Blocked,
     set_audio_track
       (Some (with_audio_items
                (foldl (push_drop_oldest
                          (Z.to_nat (maxsize (AvatarioAudioTrack.queue track))))
                   (audio_items track) (map relabel frames)) track))
       (with_inbound_audio [] s),
     []).
Proof.
  induction frames as [|f rest IH]; intros fuel s track Hrun Hstop Htrack Hcap Hin Hfuel.
  - destruct fuel as [|fuel]; [simpl in Hfuel; lia|].
    rewrite _process_audio_frames_waits by assumption.
    destruct s as [sst at_ rn sp tk rd rc le st la [ta [m items] ov k] vt au vtr dict].
    unfold inbound_audio in Hin. simpl in Htrack, Hin. subst.
    destruct track as [ts [c qi] buf ft st0 sst0 rs]. reflexivity.
  - destruct fuel as [|fuel]; [simpl in Hfuel; lia|].
    rewrite (_process_audio_frames_step fuel s track f rest) by assumption.
    rewrite (IH fuel _ (with_audio_items
                          (push_drop_oldest
                             (Z.to_nat (maxsize (AvatarioAudioTrack.queue track)))
                             (audio_items track) (relabel f)) track)).
    + reflexivity.
    + exact Hrun.
    + exact Hstop.
    + reflexivity.
    + apply (within_capacity_push (AvatarioAudioTrack.queue track) _ Hcap).
    + reflexivity.
    + simpl in Hfuel. lia.
Qed.

(** X13.  The audio feed loop moves every frame waiting in the
    [output_audio] queue into the audio track, oldest first, relabelled
    to 48000 Hz and without a log line; the track keeps the last 10 of
    its frames, its pacing state is not touched, and the loop ends
    suspended on the empty queue. *)
Theorem process_audio_frames_feeds_the_track
    (s : t) (track : AvatarioAudioTrack.t) (fuel : nat) :
  run s = true -> _stopping s = false ->
  audio_track s = Some track ->
  maxsize (AvatarioAudioTrack.queue track) = 10%Z ->
  length (audio_items track) <= 10 ->
  length (inbound_audio s) < fuel ->
  let r := _process_audio_frames fuel s in
  outcome r = Blocked /\
  effects r = [] /\
  inbound_audio (final r) = [] /\
  exists track',
    audio_track (final r) = Some track' /\
    audio_items track'
      = last_n 10 (audio_items track ++ map relabel (inbound_audio s)) /\
    pacing track' = pacing track /\
    AvatarioAudioTrack.audio_data_buffer track'
      = AvatarioAudioTrack.audio_data_buffer track.
Proof.
  intros Hrun Hstop Htrack Hmax Hlen Hfuel r. subst r.
  assert (Hcap : within_capacity (AvatarioAudioTrack.queue track)).
  { split; [lia|]. unfold audio_items, len in *. lia. }
  rewrite (_process_audio_frames_all (inbound_audio s) fuel s track)
    by (try assumption; reflexivity).
  unfold outcome, effects, final. cbn [fst snd].
  split; [reflexivity|]. split; [reflexivity|]. split; [reflexivity|].
  eexists. split; [reflexivity|].
  split; [|split; reflexivity].
  unfold with_audio_items, audio_items at 1. cbn. rewrite Hmax.
  apply (foldl_push_last_n 10); [lia|exact Hlen].
Qed.

Lemma process_audio_frames_feeds_the_track_witness :
  exists track',
    audio_track (final (_process_audio_frames 4 connected_avatar)) = Some track' /\
    audio_items track' = map relabel three_inbound.
Proof.
  destruct (process_audio_frames_feeds_the_track connected_avatar
              AvatarioAudioTrack.__init__ 4)
    as (_ & _ & _ & track' & Ht & Hitems & _);
    [reflexivity|reflexivity|reflexivity|reflexivity|simpl; lia|simpl; lia|].
  exists track'. split; [exact Ht|exact Hitems].
Defined.

Lemma _process_audio_frames_drop fuel s f rest :
  run s = true -> _stopping s = false ->
  audio_track s = None ->
  inbound_audio s = f :: rest ->
  _process_audio_frames (S fuel) s =
    match _process_audio_frames fuel (with_inbound_audio rest s) with
    | (r, s2, tr) =>
        (r, s2, Stdout "Avatario: Error processing audio frame" :: tr)
    end.
Proof.
  intros Hrun Hstop Htrack Hin.
  destruct s as [sst at_ rn sp tk rd rc le st la [ta [m items] ov k] vt au vtr dict].
  unfold inbound_audio in Hin. simpl in Hrun, Hstop, Htrack, Hin. subst.
  cbn [_process_audio_frames]. unfold bind at 1. unfold get at 1.
  cbn [run _stopping andb negb]. unfold bind at 1.
  unfold try_except, bind, ipc_output_audio, zoom, queue_get, on_audio_track,
    emit, ret, with_inbound_audio.
  cbn.
  match goal with
  | |- context [_process_audio_frames fuel ?s0] =>
      destruct (_process_audio_frames fuel s0) as [[r s2] tr]
  end.
  reflexivity.
Qed.

(** X14.  Before [connect] has created the audio track, the audio feed
    loop does not fail: it takes every waiting frame, drops it with one
    log line, and ends suspended on the empty queue, the avatar being
    otherwise unchanged. *)
Theorem process_audio_frames_without_track (s : t) (fuel : nat) :
  run s = true -> _stopping s = false ->
  audio_track s = None ->
  length (inbound_audio s) < fuel ->
  _process_audio_frames fuel s =
    (Blocked, with_inbound_audio [] s,
     map (fun _ => Stdout "Avatario: Error processing audio frame")
       (inbound_audio s)).
Proof.
  remember (inbound_audio s) as frames eqn:Hin. symmetry in Hin.
  revert fuel s Hin.
  induction frames as [|f rest IH]; intros fuel s Hin Hrun Hstop Htrack Hfuel.
  - destruct fuel as [|fuel]; [simpl in Hfuel; lia|].
    rewrite _process_audio_frames_waits by assumption.
    destruct s as [sst at_ rn sp tk rd rc le st la [ta [m items] ov k] vt au vtr dict].
    unfold inbound_audio in Hin. simpl in Hin. subst. reflexivity.
  - destruct fuel as [|fuel]; [simpl in Hfuel; lia|].
    rewrite (_process_audio_frames_drop fuel s f rest) by assumption.
    rewrite (IH fuel (with_inbound_audio rest s));
      [reflexivity|reflexivity|exact Hrun|exact Hstop|exact Htrack|].
    simpl in Hfuel. lia.
Qed.

Lemma process_audio_frames_without_track_witness :
  effects (_process_audio_frames 4 unconnected_avatar)
    = replicate 3 (Stdout "Avatario: Error processing audio frame") /\
  outcome (_process_audio_frames 4 unconnected_avatar) = Blocked.
Proof.
  rewrite (process_audio_frames_without_track unconnected_avatar 4);
    [split; reflexivity|reflexivity|reflexivity|reflexivity|simpl; lia].
Defined.

Lemma _process_video_frames_step fuel s f rest :
  run s = true -> _stopping s = false ->
  inbound_video s = f :: rest ->
  _process_video_frames (S fuel) s =
    _process_video_frames fuel
      (set_video_track
         (AvatarioVideoTrack.set_queue
            (mkQueue (maxsize (AvatarioVideoTrack.queue (video_track s))) [f])
            (video_track s))
         (with_inbound_video rest s)).
Proof.
  intros Hrun Hstop Hin.
  pose proof (video_add_frame_spec (video_track s) f) as Hadd.
  destruct s as [sst at_ rn sp tk rd rc le st la [ta oa [m items] k] vt au vtr dict].
  unfold inbound_video in Hin. simpl in Hrun, Hstop, Hin, Hadd. subst.
  cbn [_process_video_frames]. unfold bind at 1. unfold get at 1.
  cbn [run _stopping andb negb]. unfold bind at 1.
  unfold try_except at 1. unfold bind at 1.
  unfold ipc_output_video, zoom at 1 2, queue_get.
  cbn [ipc_data output_video _queue maxsize set_output_video set_ipc_data
       tts_audio output_audio kill_signal].
  unfold bind at 1. unfold on_video_track, zoom.
  cbn [video_track set_ipc_data].
  rewrite Hadd. unfold ret at 1.
  unfold with_inbound_video.
  cbn [ipc_data output_video maxsize set_output_video set_ipc_data set_video_track
       tts_audio output_audio kill_signal app video_track].
  match goal with
  | |- context [_process_video_frames fuel ?s0] =>
      destruct (_process_video_frames fuel s0) as [[r s2] tr]
  end.
  reflexivity.
Qed.

Lemma _process_video_frames_waits fuel s :
  run s = true -> _stopping s = false ->
  inbound_video s = [] ->
  _process_video_frames (S fuel) s = (Blocked, s, []).
Proof.
  intros Hrun Hstop Hin.
  destruct s as [sst at_ rn sp tk rd rc le st la [ta oa [m items] k] vt au vtr dict].
  unfold inbound_video in Hin. simpl in Hrun, Hstop, Hin. subst.
  reflexivity.
Qed.

(** X15.  The video feed loop takes every picture waiting in the
    [output_video] queue and leaves only the last one in the video
    track: the earlier ones are replaced before anybody could pull them.
    The loop is silent and ends suspended on the empty queue. *)
Theorem process_video_frames_keeps_the_latest
    (frames : list VideoFrame) (g : VideoFrame) : forall (fuel : nat) (s : t),
  run s = true -> _stopping s = false ->
  inbound_video s = frames ++ [g] ->
  length (frames ++ [g]) < fuel ->
  outcome (_process_video_frames fuel s) = Blocked /\
  effects (_process_video_frames fuel s) = [] /\
  inbound_video (final (_process_video_frames fuel s)) = [] /\
  video_items (video_track (final (_process_video_frames fuel s))) = [g].
Proof.
  induction frames as [|f rest IH]; intros fuel s Hrun Hstop Hin Hfuel.
  - destruct fuel as [|[|fuel]]; [simpl in Hfuel; lia|simpl in Hfuel; lia|].
    rewrite (_process_video_frames_step _ s g []) by assumption.
    rewrite _process_video_frames_waits by reflexivity || assumption.
    repeat split.
  - destruct fuel as [|fuel]; [simpl in Hfuel; lia|].
    rewrite (_process_video_frames_step fuel s f (rest ++ [g])) by assumption.
    apply IH; [exact Hrun|exact Hstop|reflexivity|].
    simpl in Hfuel. lia.
Qed.

Lemma process_video_frames_keeps_the_latest_witness :
  video_items
    (video_track (final (_process_video_frames 4 avatar_with_pictures)))
    = [picture Byte.x03].
Proof.
  apply (process_video_frames_keeps_the_latest
           [picture Byte.x01; picture Byte.x02] (picture Byte.x03) 4
           avatar_with_pictures);
    [reflexivity|reflexivity|reflexivity|simpl; lia].
Defined.


End FeedLoops.

(** ** [api.py]: what the relay loops forward *)

Section Relay.
Import AvatarioAvatar Api.
Local Arguments full : simpl never.

Lemma get_output_audio_run script : forall ipc,
  kill_signal ipc = false ->
  (maxsize (output_audio ipc) <= 0)%Z ->
  no_failure script ->
  get_output_audio script ipc =
    (Return (if existsb kill_meanwhile script then CondFalse else OutOfFuel),
     set_kill_signal (existsb kill_meanwhile script)
       (set_output_audio
          (mkQueue (maxsize (output_audio ipc))
             (_queue (output_audio ipc) ++ received_frames (until_kill script)))
          ipc),
     map (fun _ => WaitFor 2) (until_kill script)).
Proof.
  induction script as [|tn script IH]; intros ipc Hk Hmax Hnf.
  - destruct ipc as [ta [m items] ov k]. simpl in Hk. subst k.
    simpl. unfold bind, get, ret. simpl. rewrite app_nil_r. reflexivity.
  - inversion Hnf as [|? ? Htn Hrest]; subst.
    destruct ipc as [ta [m items] ov k]. simpl in Hk, Hmax. subst k.
    assert (Hfull : forall l : list AudioFrame, full (mkQueue m l) = false)
      by (intros l; apply full_unbounded; exact Hmax).
    destruct tn as [km [frame| |e]]; [| |exfalso; apply (Htn e); reflexivity].
    + destruct km.
      * cbn [get_output_audio].
        unfold bind, get, continue_on_timeout, try_except, await_recv, emit,
          modify, ret, zoom, queue_put, set_output_audio, set_kill_signal in *.
        simpl. rewrite Hfull. simpl.
        rewrite get_output_audio_killed by reflexivity. reflexivity.
      * specialize (IH (mkIpc ta (mkQueue m (items ++ [frame])) ov false)
                       eq_refl Hmax Hrest).
        cbn [get_output_audio].
        unfold bind, get, continue_on_timeout, try_except, await_recv, emit,
          modify, ret, zoom, queue_put, set_output_audio, set_kill_signal in *.
        simpl. rewrite Hfull. simpl. simpl in IH. rewrite IH.
        rewrite <- app_assoc. reflexivity.
    + destruct km.
      * cbn [get_output_audio].
        unfold bind, get, continue_on_timeout, try_except, await_recv, emit,
          modify, ret, raise, set_output_audio, set_kill_signal in *.
        simpl.
        rewrite get_output_audio_killed by reflexivity.
        simpl. rewrite app_nil_r. reflexivity.
      * specialize (IH (mkIpc ta (mkQueue m items) ov false) eq_refl Hmax Hrest).
        cbn [get_output_audio].
        unfold bind, get, continue_on_timeout, try_except, await_recv, emit,
          modify, ret, raise, set_output_audio, set_kill_signal in *.
        simpl. simpl in IH. rewrite IH. reflexivity.
Qed.

Lemma get_output_video_run script : forall ipc,
  kill_signal ipc = false ->
  (maxsize (output_video ipc) <= 0)%Z ->
  no_failure script ->
  get_output_video script ipc =
    (Return (if existsb kill_meanwhile script then CondFalse else OutOfFuel),
     set_kill_signal (existsb kill_meanwhile script)
       (set_output_video
          (mkQueue (maxsize (output_video ipc))
             (_queue (output_video ipc) ++ received_frames (until_kill script)))
          ipc),
     map (fun _ => WaitFor 2) (until_kill script)).
Proof.
  induction script as [|tn script IH]; intros ipc Hk Hmax Hnf.
  - destruct ipc as [ta oa [m items] k]. simpl in Hk. subst k.
    simpl. unfold bind, get, ret. simpl. rewrite app_nil_r. reflexivity.
  - inversion Hnf as [|? ? Htn Hrest]; subst.
    destruct ipc as [ta oa [m items] k]. simpl in Hk, Hmax. subst k.
    assert (Hfull : forall l : list VideoFrame, full (mkQueue m l) = false)
      by (intros l; apply full_unbounded; exact Hmax).
    destruct tn as [km [frame| |e]]; [| |exfalso; apply (Htn e); reflexivity].
    + destruct km.
      * cbn [get_output_video].
        unfold bind, get, continue_on_timeout, try_except, await_recv, emit,
          modify, ret, zoom, queue_put, set_output_video, set_kill_signal in *.
        simpl. rewrite Hfull. simpl.
        rewrite get_output_video_killed by reflexivity. reflexivity.
      * specialize (IH (mkIpc ta oa (mkQueue m (items ++ [frame])) false)
                       eq_refl Hmax Hrest).
        cbn [get_output_video].
        unfold bind, get, continue_on_timeout, try_except, await_recv, emit,
          modify, ret, zoom, queue_put, set_output_video, set_kill_signal in *.
        simpl. rewrite Hfull. simpl. simpl in IH. rewrite IH.
        rewrite <- app_assoc. reflexivity.
    + destruct km.
      * cbn [get_output_video].
        unfold bind, get, continue_on_timeout, try_except, await_recv, emit,
          modify, ret, raise, set_output_video, set_kill_signal in *.
        simpl.
        rewrite get_output_video_killed by reflexivity.
        simpl. rewrite app_nil_r. reflexivity.
      * specialize (IH (mkIpc ta oa (mkQueue m items) false) eq_refl Hmax Hrest).
        cbn [get_output_video].
        unfold bind, get, continue_on_timeout, try_except, await_recv, emit,
          modify, ret, raise, set_output_video, set_kill_signal in *.
        simpl. simpl in IH. rewrite IH. reflexivity.
Qed.

(** A turn without kill and without failure, then the rest. *)
Lemma get_output_audio_quiet_turn tn script ipc :
  kill_signal ipc = false ->
  (maxsize (output_audio ipc) <= 0)%Z ->
  kill_meanwhile tn = false ->
  (forall e, received tn <> RecvFailed e) ->
  get_output_audio (tn :: script) ipc =
    match get_output_audio script
            (set_output_audio
               (mkQueue (maxsize (output_audio ipc))
                  (_queue (output_audio ipc) ++ received_frames [tn])) ipc)
    with
    | (r, s, tr) => (r, s, WaitFor 2 :: tr)
    end.
Proof.
  intros Hk Hmax Hkm Hnf.
  destruct ipc as [ta [m items] ov k]. simpl in Hk, Hmax. subst k.
  assert (Hfull : forall l : list AudioFrame, full (mkQueue m l) = false)
    by (intros l; apply full_unbounded; exact Hmax).
  destruct tn as [km [frame| |e]]; simpl in Hkm; subst km;
    [| |exfalso; apply (Hnf e); reflexivity].
  - cbn [get_output_audio].
    unfold bind, get, continue_on_timeout, try_except, await_recv, emit,
      modify, ret, zoom, queue_put, set_output_audio, received_frames.
    simpl. rewrite Hfull. simpl.
    destruct (get_output_audio script _) as [[r s] tr]. reflexivity.
  - cbn [get_output_audio].
    unfold bind, get, continue_on_timeout, try_except, await_recv, emit,
      modify, ret, raise, set_output_audio, received_frames.
    simpl. rewrite app_nil_r.
    destruct (get_output_audio script _) as [[r s] tr]. reflexivity.
Qed.

(** A receive that fails with an error other than the timeout ends the
    loop with that error. *)
Lemma get_output_audio_failing_turn tn script ipc e :
  kill_signal ipc = false ->
  received tn = RecvFailed e ->
  e <> TimeoutError ->
  get_output_audio (tn :: script) ipc =
    (Raise e, set_kill_signal (kill_meanwhile tn) ipc, [WaitFor 2]).
Proof.
  intros Hk Hr He.
  destruct ipc as [ta oa ov k]. simpl in Hk. subst k.
  destruct tn as [km r]. simpl in Hr. subst r.
  cbn [get_output_audio].
  unfold bind, get, continue_on_timeout, try_except, await_recv, emit,
    modify, ret, raise, set_kill_signal.
  destruct km; destruct e; simpl; try reflexivity; contradiction.
Qed.

(** X17.  The inbound relay loops forward what they receive, in order
    and nothing else: with no receive failing, the frames received up to
    and including the turn during which the kill signal is set are
    appended to the relay queue in the order received, timeouts add
    nothing, each turn is one [wait_for] of 2 seconds, no turn is taken
    after that one, and the loop has returned exactly when the signal
    was set during the run. *)
Theorem relay_forwards_in_order
    (script : list (turn AudioFrame)) (vscript : list (turn VideoFrame))
    (ipc : IpcData) :
  kill_signal ipc = false ->
  (maxsize (output_audio ipc) <= 0)%Z ->
  (maxsize (output_video ipc) <= 0)%Z ->
  no_failure script -> no_failure vscript ->
  let a := get_output_audio script ipc in
  let v := get_output_video vscript ipc in
  (_queue (output_audio (final a))
     = _queue (output_audio ipc) ++ received_frames (until_kill script) /\
   effects a = map (fun _ => WaitFor 2) (until_kill script) /\
   outcome a = Return (if existsb kill_meanwhile script
                       then CondFalse else OutOfFuel) /\
   kill_signal (final a) = existsb kill_meanwhile script) /\
  (_queue (output_video (final v))
     = _queue (output_video ipc) ++ received_frames (until_kill vscript) /\
   effects v = map (fun _ => WaitFor 2) (until_kill vscript) /\
   outcome v = Return (if existsb kill_meanwhile vscript
                       then CondFalse else OutOfFuel) /\
   kill_signal (final v) = existsb kill_meanwhile vscript).
Proof.
  intros Hk Ha Hv Hnf Hnfv a v. subst a v.
  rewrite get_output_audio_run, get_output_video_run by assumption.
  repeat split.
Qed.

Lemma relay_forwards_in_order_witness :
  _queue (output_audio (final (get_output_audio relay_script fresh_ipc)))
    = [tone Byte.x01; tone Byte.x02] /\
  outcome (get_output_audio relay_script fresh_ipc) = Return CondFalse.
Proof.
  destruct (relay_forwards_in_order relay_script [] fresh_ipc)
    as ((Hq & _ & Ho & _) & _).
  - reflexivity.
  - simpl. lia.
  - simpl. lia.
  - repeat constructor; discriminate.
  - constructor.
  - split; [exact Hq|exact Ho].
Defined.

(** X18.  A relay loop does not survive a receive error: when a receive
    fails with anything but the timeout, after turns in which nothing
    failed and the kill signal was not set, the loop ends with that
    error; the frames received before it stay forwarded, in order. *)
Theorem relay_ends_on_receive_error
    (before_it : list (turn AudioFrame)) (tn : turn AudioFrame)
    (rest : list (turn AudioFrame)) (e : exn) : forall (ipc : IpcData),
  kill_signal ipc = false ->
  (maxsize (output_audio ipc) <= 0)%Z ->
  no_failure before_it ->
  existsb kill_meanwhile before_it = false ->
  received tn = RecvFailed e ->
  e <> TimeoutError ->
  let r := get_output_audio (before_it ++ tn :: rest) ipc in
  outcome r = Raise e /\
  _queue (output_audio (final r))
    = _queue (output_audio ipc) ++ received_frames before_it /\
  effects r = replicate (S (length before_it)) (WaitFor 2).
Proof.
  induction before_it as [|t0 before_it IH];
    intros ipc Hk Hmax Hnf Hnk Hr He r; subst r.
  - simpl app. rewrite (get_output_audio_failing_turn tn rest ipc e) by assumption.
    unfold outcome, final, effects. cbn [fst snd].
    split; [reflexivity|]. split; [|reflexivity].
    simpl. rewrite app_nil_r. destruct ipc. reflexivity.
  - inversion Hnf as [|? ? Ht0 Hrest]; subst.
    simpl in Hnk. apply orb_false_iff in Hnk. destruct Hnk as [Hk0 Hnk].
    simpl app. rewrite get_output_audio_quiet_turn by assumption.
    destruct ipc as [ta [m items] ov k]. simpl in Hk, Hmax.
    destruct (IH (mkIpc ta (mkQueue m (items ++ received_frames [t0])) ov k)
                Hk Hmax Hrest Hnk Hr He) as (Ho & Hq & Hev).
    unfold set_output_audio. cbn [tts_audio output_audio output_video kill_signal
                                   maxsize _queue].
    destruct (get_output_audio (before_it ++ tn :: rest) _) as [[r s] tr].
    unfold outcome, final, effects in *. cbn [fst snd] in *.
    split; [exact Ho|]. split.
    + rewrite Hq. cbn [output_audio _queue]. unfold received_frames. simpl.
      rewrite app_nil_r, <- app_assoc. reflexivity.
    + rewrite Hev. reflexivity.
Qed.

Lemma relay_ends_on_receive_error_witness :
  outcome (get_output_audio broken_script fresh_ipc) = Raise MediaStreamError /\
  _queue (output_audio (final (get_output_audio broken_script fresh_ipc)))
    = [tone Byte.x01].
Proof.
  destruct (relay_ends_on_receive_error
              [mkTurn false (Received (tone Byte.x01))]
              (mkTurn false (RecvFailed MediaStreamError))
              [mkTurn false (Received (tone Byte.x03))]
              MediaStreamError fresh_ipc)
    as (Ho & Hq & _).
  - reflexivity.
  - simpl. lia.
  - repeat constructor; discriminate.
  - reflexivity.
  - reflexivity.
  - discriminate.
  - split; [exact Ho|exact Hq].
Defined.

(** X19.  The sender loop is first in, first out: run for [fuel] rounds
    it sends the first [fuel] queued chunks, oldest first, one message
    per chunk, leaves the later ones queued and touches nothing else of
    the shared data; when fewer chunks were queued it has sent them all
    and is suspended in [get]. *)
Theorem tts_sender_is_fifo (fuel : nat) (ipc : IpcData) :
  let r := send_tts_audio fuel ipc in
  effects r = map Send (take fuel (_queue (tts_audio ipc))) /\
  _queue (tts_audio (final r)) = drop fuel (_queue (tts_audio ipc)) /\
  output_audio (final r) = output_audio ipc /\
  output_video (final r) = output_video ipc /\
  kill_signal (final r) = kill_signal ipc /\
  (length (_queue (tts_audio ipc)) < fuel -> outcome r = Blocked).
Proof.
  intros r. subst r. rewrite send_tts_audio_spec.
  unfold outcome, final, effects. cbn [fst snd].
  repeat split.
  intros H. apply Nat.leb_gt in H. rewrite H. reflexivity.
Qed.

Lemma tts_sender_is_fifo_witness :
  outcome (send_tts_audio 5 killed_with_two_chunks) = Blocked /\
  effects (send_tts_audio 5 killed_with_two_chunks)
    = [Send [Byte.x01; Byte.x02]; Send [Byte.x03; Byte.x04]].
Proof.
  destruct (tts_sender_is_fifo 5 killed_with_two_chunks)
    as (He & _ & _ & _ & _ & Ho).
  split; [apply Ho; simpl; lia|exact He].
Defined.

End Relay.

(** ** [meeting_utils.py]: tokens and rooms *)

Section Rooms.
Import MeetingUtils.

(** X20.  Every token [generate_token] mints is signed with the
    configured secret, expires 600 seconds after it was issued, carries
    the API key, the join and moderate permissions and the room id it
    was asked for; it carries version 2 and the [rtc] role exactly when
    the room id is not [None]. *)
Theorem generate_token_claims (env : Env) (now : Z) (meeting_id : jval) (key : string) :
  BACKEND_VIDEOSDK_SECRET_KEY env = Some key ->
  exists tok,
    generate_token env now meeting_id = Return tok /\
    token_key tok = key /\
    token_payload tok !! "exp" = Some (CTime (now + 600)) /\
    token_payload tok !! "apikey" = Some (CStr (BACKEND_VIDEOSDK_API_KEY env)) /\
    token_payload tok !! "permissions" = Some (CList ["allow_join"; "allow_mod"]) /\
    token_payload tok !! "roomId" = Some (CJson meeting_id) /\
    (meeting_id <> JNull ->
     token_payload tok !! "version" = Some (CInt 2) /\
     token_payload tok !! "roles" = Some (CList ["rtc"])) /\
    (meeting_id = JNull ->
     token_payload tok !! "version" = None /\
     token_payload tok !! "roles" = None).
Proof.
  intros Hkey. unfold generate_token. rewrite Hkey.
  eexists. split; [reflexivity|]. cbn [token_key token_payload].
  split; [reflexivity|].
  destruct meeting_id; repeat split; intros; try congruence;
    simplify_map_eq; reflexivity.
Qed.

(** The part of it the callers rely on. *)
Lemma generate_token_parts env now meeting_id key :
  BACKEND_VIDEOSDK_SECRET_KEY env = Some key ->
  exists tok,
    generate_token env now meeting_id = Return tok /\
    token_key tok = key /\
    token_payload tok !! "roomId" = Some (CJson meeting_id).
Proof.
  intros Hkey. unfold generate_token. rewrite Hkey.
  eexists. split; [reflexivity|]. split; [reflexivity|].
  cbn [token_payload]. apply lookup_insert_eq.
Qed.

Lemma generate_token_claims_witness :
  exists tok,
    generate_token configured_env 1000 (JString "abc-123") = Return tok /\
    token_payload tok !! "exp" = Some (CTime 1600) /\
    token_payload tok !! "version" = Some (CInt 2).
Proof.
  destruct (generate_token_claims configured_env 1000 (JString "abc-123") "secret")
    as (tok & Ht & _ & Hexp & _ & _ & _ & Hv & _); [reflexivity|].
  exists tok. split; [exact Ht|]. split; [exact Hexp|].
  apply Hv. discriminate.
Defined.

(** X21.  The two modes of [create_meeting], when the room service
    answers the request sent (the rooms endpoint with the chosen token in
    the authorization header) with a JSON object.  Given a token, it
    returns the bare room id and mints nothing, so the signing secret is
    not needed.  Given none, it authorises with the backend's token and
    returns the room id with two tokens, both signed with the secret and
    bound to that room.  A body without [roomId] gives the room id
    [None] in both modes. *)
Theorem create_meeting_modes
    (env : Env) (now status : Z) (http : Request -> result Response)
    (fields : gmap string jval) (auth_token : option string) :
  http (rooms_request env auth_token)
    = Return (mkResponse status (Some (JObject fields))) ->
  let room_id := default JNull (fields !! "roomId") in
  (forall a, auth_token = Some a ->
   create_meeting env now http auth_token = Return (RoomId room_id)) /\
  (forall key, auth_token = None -> BACKEND_VIDEOSDK_SECRET_KEY env = Some key ->
   exists token backend_token,
     create_meeting env now http auth_token
       = Return (Credentials room_id token backend_token) /\
     token_key token = key /\ token_key backend_token = key /\
     token_payload token !! "roomId" = Some (CJson room_id) /\
     token_payload backend_token !! "roomId" = Some (CJson room_id)).
Proof.
  intros Hhttp room_id. split.
  - intros a ->. unfold create_meeting. unfold rooms_request in Hhttp.
    rewrite Hhttp. reflexivity.
  - intros key -> Hkey.
    destruct (generate_token_parts env now room_id key Hkey)
      as (tok & Ht & Hk & Hr).
    exists tok, tok. unfold create_meeting. unfold rooms_request in Hhttp.
    rewrite Hhttp. cbn [body negb]. fold room_id. rewrite Ht.
    repeat split; assumption.
Qed.

Lemma create_meeting_modes_witness :
  create_meeting env_without_secret 0 room_abc (Some "playground-token")
    = Return (RoomId (JString "abc-123")).
Proof.
  destruct (create_meeting_modes env_without_secret 0 200 room_abc
              {[ "roomId" := JString "abc-123" ]} (Some "playground-token"))
    as (Hplay & _); [reflexivity|].
  apply (Hplay "playground-token"). reflexivity.
Defined.

(** How [create_meeting] fails.  An error of the HTTP call comes
    out unchanged; a body that is not JSON raises the decoding error
    and a JSON body that is not an object raises [AttributeError],
    whatever the status; and without a token from the caller, a missing
    signing secret makes the minting fail after the room was created. *)
Lemma create_meeting_failures
    (env : Env) (now : Z) (http : Request -> result Response)
    (auth_token : option string) :
  let answer := http (rooms_request env auth_token) in
  (forall e, answer = Raise e ->
   create_meeting env now http auth_token = Raise e) /\
  (forall status, answer = Return (mkResponse status None) ->
   create_meeting env now http auth_token = Raise JSONDecodeError) /\
  (forall status items, answer = Return (mkResponse status (Some (JArray items))) ->
   create_meeting env now http auth_token = Raise (AttributeError "get")) /\
  (forall status v, answer = Return (mkResponse status (Some (JScalar v))) ->
   create_meeting env now http auth_token = Raise (AttributeError "get")) /\
  (forall status fields,
   answer = Return (mkResponse status (Some (JObject fields))) ->
   auth_token = None -> BACKEND_VIDEOSDK_SECRET_KEY env = None ->
   create_meeting env now http auth_token
     = Raise (TypeError "Expected a string value")).
Proof.
  intros answer. subst answer. unfold rooms_request, create_meeting.
  repeat split.
  - intros e ->. reflexivity.
  - intros status ->. reflexivity.
  - intros status items ->. reflexivity.
  - intros status v ->. reflexivity.
  - intros status fields Hh -> Hkey. rewrite Hh. cbn [body negb].
    unfold generate_token. rewrite Hkey. reflexivity.
Qed.

Lemma create_meeting_failures_witness :
  create_meeting configured_env 0 room_html None = Raise JSONDecodeError /\
  create_meeting env_without_secret 0 room_abc None
    = Raise (TypeError "Expected a string value").
Proof.
  split.
  - destruct (create_meeting_failures configured_env 0 room_html None)
      as (_ & Hjson & _).
    apply (Hjson 502%Z). reflexivity.
  - destruct (create_meeting_failures env_without_secret 0 room_abc None)
      as (_ & _ & _ & _ & Hsecret).
    apply (Hsecret 200%Z {[ "roomId" := JString "abc-123" ]}); reflexivity.
Defined.

End Rooms.

(** ** [api.py]: negotiating the session *)

Section Negotiation.
Import MeetingUtils AvatarioClient.

(** What a run of participant events does to the agent. *)
Lemma arrivals_spec arrivals : forall agent,
  for_each arrivals on_participant_joined agent =
    (Return tt,
     mkAgent (meeting agent)
       (participant_joined agent || existsb is_backend arrivals)
       (listeners agent ++ map id (List.filter is_backend arrivals)),
     map (fun _ => CreateTask "send_tts_audio") (List.filter is_backend arrivals)).
Proof.
  induction arrivals as [|p arrivals IH]; intros agent.
  - simpl. unfold ret. rewrite orb_false_r, app_nil_r. destruct agent. reflexivity.
  - rewrite for_each_cons. unfold on_participant_joined at 1.
    cbn [existsb List.filter].
    change (String.eqb (display_name p) "backend_participant")
      with (is_backend p).
    destruct (is_backend p).
    + unfold bind, modify, emit. cbn. rewrite IH. cbn.
      rewrite orb_true_r, <- app_assoc. reflexivity.
    + unfold ret. rewrite IH. cbn. reflexivity.
Qed.

(** X22.  Only the avatar backend counts among the participants that
    join: each participant named [backend_participant] gets a handler
    attached, in order of arrival, and starts one more sender task; any
    other participant changes nothing; and the [participant_joined] event
    is set afterwards exactly when it was set before or such a
    participant arrived. *)
Theorem only_the_backend_participant_counts
    (arrivals : list Participant) (agent : AgentParticipant) :
  let r := for_each arrivals on_participant_joined agent in
  outcome r = Return tt /\
  participant_joined (final r)
    = participant_joined agent || existsb is_backend arrivals /\
  listeners (final r) = listeners agent ++ map id (List.filter is_backend arrivals) /\
  effects r = replicate (length (List.filter is_backend arrivals))
                (CreateTask "send_tts_audio") /\
  meeting (final r) = meeting agent /\
  (forallb (fun p => negb (is_backend p)) arrivals = true ->
   r = (Return tt, agent, [])).
Proof.
  intros r. subst r. rewrite arrivals_spec.
  unfold outcome, final, effects. cbn [fst snd].
  split; [reflexivity|]. split; [reflexivity|]. split; [reflexivity|].
  split; [|split; [reflexivity|]].
  - induction (List.filter is_backend arrivals) as [|p l IHl]; simpl; congruence.
  - intros Hnone.
    assert (Hf : List.filter is_backend arrivals = []).
    { induction arrivals as [|p arrivals IH]; [reflexivity|].
      simpl in Hnone. apply andb_true_iff in Hnone. destruct Hnone as [Hp Hrest].
      cbn [List.filter]. apply negb_true_iff in Hp. rewrite Hp. apply IH, Hrest. }
    assert (He : existsb is_backend arrivals = false).
    { induction arrivals as [|p arrivals IH]; [reflexivity|].
      simpl in Hnone. apply andb_true_iff in Hnone. destruct Hnone as [Hp Hrest].
      cbn [existsb]. apply negb_true_iff in Hp. rewrite Hp.
      cbn [List.filter] in Hf. rewrite Hp in Hf. apply IH; assumption. }
    rewrite Hf, He, orb_false_r, app_nil_r. destruct agent. reflexivity.
Qed.

Lemma only_the_backend_participant_counts_witness :
  listeners (final (for_each user_then_backend on_participant_joined new_agent))
    = ["p2"] /\
  for_each [mkParticipant "alice" "p1"] on_participant_joined new_agent
    = (Return tt, new_agent, []).
Proof.
  split.
  - apply (only_the_backend_participant_counts user_then_backend new_agent).
  - apply (only_the_backend_participant_counts [mkParticipant "alice" "p1"]
             new_agent).
    reflexivity.
Defined.

(** Once the backend has accepted: log, join, take the participant
    events, wait for the backend to have joined. *)
Lemma join_and_wait_spec room tok arrivals agent :
  (do! emit (Stdout "Created Avatario conversation") in
   do! join_meeting room tok in
   do! for_each arrivals on_participant_joined in
   wait_participant_joined) agent =
    (if participant_joined agent || existsb is_backend arrivals
     then Return tt else Blocked,
     mkAgent (Some (room, tok))
       (participant_joined agent || existsb is_backend arrivals)
       (listeners agent ++ map id (List.filter is_backend arrivals)),
     Stdout "Created Avatario conversation" :: Call "meeting.join"
       :: map (fun _ => CreateTask "send_tts_audio")
            (List.filter is_backend arrivals)).
Proof.
  unfold bind at 1. unfold emit at 1. unfold bind at 1.
  unfold join_meeting at 1. unfold bind at 1. unfold modify at 1. unfold emit at 1.
  unfold bind at 1. rewrite arrivals_spec. unfold wait_participant_joined.
  cbn [meeting participant_joined listeners app].
  destruct (participant_joined agent || existsb is_backend arrivals);
    rewrite app_nil_r; reflexivity.
Qed.

(** The three ways [create_conversation] can go. *)
Lemma create_conversation_cases env now rooms session_post arrivals api_key
    video_info agent :
  let r := create_conversation env now rooms session_post arrivals api_key
             video_info agent in
  (exists e, r = (Raise e, agent, [])) \/
  r = (Blocked, agent, []) \/
  (exists room tok btok req resp,
     create_meeting env now rooms None = Return (Credentials room tok btok) /\
     session_post req = Return resp /\
     (status_code resp < 400)%Z /\
     body resp <> None /\
     payload req = (FJson <$> video_info) ∪
                   (<["livekit" := FLivekit room btok]>
                    (<["agent_id" := FStr "backend_participant"]> ∅)) /\
     surl req = BASE_URL +:+ "/start-session" /\
     x_api_key req = api_key /\
     r = (if participant_joined agent || existsb is_backend arrivals
          then Return tt else Blocked,
          mkAgent (Some (room, tok))
            (participant_joined agent || existsb is_backend arrivals)
            (listeners agent ++ map id (List.filter is_backend arrivals)),
          Stdout "Created Avatario conversation" :: Call "meeting.join"
            :: map (fun _ => CreateTask "send_tts_audio")
                 (List.filter is_backend arrivals))).
Proof.
  intros r. assert (Hr : r = create_conversation env now rooms session_post
                             arrivals api_key video_info agent) by reflexivity.
  clearbody r. revert Hr. unfold create_conversation.
  unfold bind at 1. unfold external at 1.
  destruct (create_meeting env now rooms None) as [[rid|room tok btok]|e|] eqn:Hm;
    [intros ->; left; eexists; reflexivity| |intros ->; left; eexists; reflexivity
    |intros ->; right; left; reflexivity].
  cbv zeta. unfold bind at 1. unfold external at 1.
  match goal with
  | |- context [session_post ?q] =>
      set (req := q); destruct (session_post req) as [resp|e|] eqn:Hp
  end; [|intros ->; left; eexists; reflexivity|intros ->; right; left; reflexivity].
  unfold bind at 1.
  destruct (Z.leb_spec 400 (status_code resp)) as [Hbad|Hok];
    [intros ->; left; eexists; reflexivity|].
  unfold ret at 1. unfold bind at 1.
  destruct (body resp) as [b|] eqn:Hb; [|intros ->; left; eexists; reflexivity].
  unfold ret at 1. rewrite join_and_wait_spec. cbn [app]. intros ->.
  right. right. exists room, tok, btok, req, resp.
  split; [reflexivity|]. split; [exact Hp|]. split; [exact Hok|].
  split; [rewrite Hb; discriminate|]. split; [reflexivity|].
  split; [reflexivity|]. split; [reflexivity|]. reflexivity.
Qed.

(** X23.  A negotiation that fails leaves no trace: whenever
    [create_conversation] raises, whether the room could not be
    created, the backend could not be reached, answered with an error
    status or with a body that is not JSON, the agent has not joined any
    meeting, the participant state is as before and nothing was
    logged. *)
Theorem failed_negotiation_leaves_no_trace
    (env : Env) (now : Z) (rooms : Request -> result Response)
    (session_post : SessionRequest -> result Response)
    (arrivals : list Participant) (api_key : string)
    (video_info : gmap string jval) (agent : AgentParticipant) (e : exn) :
  outcome (create_conversation env now rooms session_post arrivals api_key
             video_info agent) = Raise e ->
  create_conversation env now rooms session_post arrivals api_key video_info agent
    = (Raise e, agent, []).
Proof.
  intros Hout.
  destruct (create_conversation_cases env now rooms session_post arrivals
              api_key video_info agent)
    as [[e' Hr]|[Hr|(room & tok & btok & req & resp & _ & _ & _ & _ & _ & _ & _ & Hr)]];
    rewrite Hr in *; unfold outcome in Hout; cbn [fst] in Hout.
  - injection Hout as ->. reflexivity.
  - discriminate.
  - destruct (participant_joined agent || existsb is_backend arrivals);
      discriminate.
Qed.

Lemma failed_negotiation_leaves_no_trace_witness :
  create_conversation configured_env 0 room_abc unavailable user_then_backend
    "key" face_info new_agent
  = (Raise (HTTPError 503), new_agent, []).
Proof.
  apply failed_negotiation_leaves_no_trace. reflexivity.
Defined.

(** X24.  A negotiation that goes through.  When the room service
    answers with a JSON object, the signing secret is configured, the
    video info does not use the keys [agent_id] and [livekit], and the
    avatar backend accepts the request that names the backend
    participant, the room, a token bound to that room and every field of
    the video info, then [create_conversation] joins that very room with
    a token signed with the secret and bound to the room, logs once, and
    returns exactly when the backend participant has joined; otherwise
    it stays blocked on the wait and never raises. *)
Theorem negotiation_joins_the_room_and_waits
    (env : Env) (now status : Z) (rooms : Request -> result Response)
    (session_post : SessionRequest -> result Response)
    (arrivals : list Participant) (api_key key : string)
    (fields video_info : gmap string jval) (agent : AgentParticipant) :
  rooms (rooms_request env None)
    = Return (mkResponse status (Some (JObject fields))) ->
  BACKEND_VIDEOSDK_SECRET_KEY env = Some key ->
  video_info !! "agent_id" = None ->
  video_info !! "livekit" = None ->
  let room_id := default JNull (fields !! "roomId") in
  (forall req, negotiates room_id api_key video_info req ->
     exists resp, session_post req = Return resp /\
                  (status_code resp < 400)%Z /\ body resp <> None) ->
  let r := create_conversation env now rooms session_post arrivals api_key
             video_info agent in
  let joined := participant_joined agent || existsb is_backend arrivals in
  (exists tok,
     meeting (final r) = Some (room_id, tok) /\
     token_key tok = key /\
     token_payload tok !! "roomId" = Some (CJson room_id)) /\
  participant_joined (final r) = joined /\
  outcome r = (if joined then Return tt else Blocked) /\
  List.filter (fun ev => match ev with Stdout _ => true | _ => false end)
    (effects r) = [Stdout "Created Avatario conversation"] /\
  List.filter (fun ev => match ev with Call _ => true | _ => false end)
    (effects r) = [Call "meeting.join"].
Proof.
  intros Hrooms Hkey Hagent Hlivekit room_id Hacc r joined.
  assert (Hr : r = create_conversation env now rooms session_post
                     arrivals api_key video_info agent) by reflexivity.
  clearbody r. revert Hr.
  destruct (generate_token_parts env now room_id key Hkey)
    as (tok & Ht & Hk & Hroom).
  assert (Hm : create_meeting env now rooms None
               = Return (Credentials room_id tok tok)).
  { unfold create_meeting. unfold rooms_request in Hrooms.
    rewrite Hrooms. cbn [body negb]. fold room_id. rewrite Ht. reflexivity. }
  unfold create_conversation. unfold bind at 1. unfold external at 1.
  rewrite Hm. cbv zeta. unfold bind at 1. unfold external at 1.
  match goal with
  | |- context [session_post ?q] => set (req := q)
  end.
  destruct (Hacc req) as (resp & Hp & Hok & Hbody).
  { unfold negotiates, req. cbn [surl x_api_key payload].
    split; [reflexivity|]. split; [reflexivity|].
    split.
    { rewrite lookup_union_r by (rewrite lookup_fmap, Hagent; reflexivity).
      rewrite lookup_insert_ne by discriminate. apply lookup_insert_eq. }
    split.
    { exists tok. split; [|exact Hroom].
      rewrite lookup_union_r by (rewrite lookup_fmap, Hlivekit; reflexivity).
      apply lookup_insert_eq. }
    intros k v Hv. apply lookup_union_Some_l.
    rewrite lookup_fmap, Hv. reflexivity. }
  rewrite Hp. unfold bind at 1.
  destruct (Z.leb_spec 400 (status_code resp)) as [Hbad|_]; [lia|].
  unfold ret at 1. unfold bind at 1.
  destruct (body resp) as [b|]; [|contradiction].
  unfold ret at 1. rewrite join_and_wait_spec. cbn [app]. fold joined.
  intros ->. unfold final, outcome, effects. cbn [fst snd meeting participant_joined].
  split; [exists tok; repeat split; assumption|].
  split; [reflexivity|]. split; [reflexivity|].
  cbn [List.filter].
  induction (List.filter is_backend arrivals) as [|p l [IH1 IH2]].
  - split; reflexivity.
  - cbn [map List.filter]. split; [exact IH1|exact IH2].
Qed.

Lemma negotiation_joins_the_room_and_waits_witness :
  outcome (create_conversation configured_env 0 room_abc accepting
             user_then_backend "key" face_info new_agent) = Return tt /\
  outcome (create_conversation configured_env 0 room_abc accepting
             [] "key" face_info new_agent) = Blocked.
Proof.
  assert (Hacc : forall req, negotiates (JString "abc-123") "key" face_info req ->
            exists resp, accepting req = Return resp /\
                         (status_code resp < 400)%Z /\ body resp <> None).
  { intros req _. eexists. split; [reflexivity|].
    split; [reflexivity|discriminate]. }
  split.
  - exact (proj1 (proj2 (proj2
      (negotiation_joins_the_room_and_waits configured_env 0 200 room_abc
         accepting user_then_backend "key" "secret"
         {[ "roomId" := JString "abc-123" ]} face_info new_agent
         eq_refl eq_refl eq_refl eq_refl Hacc)))).
  - exact (proj1 (proj2 (proj2
      (negotiation_joins_the_room_and_waits configured_env 0 200 room_abc
         accepting [] "key" "secret"
         {[ "roomId" := JString "abc-123" ]} face_info new_agent
         eq_refl eq_refl eq_refl eq_refl Hacc)))).
Defined.

End Negotiation.
